(** * Asset generator: the generation orchestration pipeline

    A shallow embedding of [services/geminiService.ts] (aspect-ratio
    snapping, prompt seed, placeholder rendering, the public-model retry
    loop, the Imagen call) and [services/openaiService.ts], of the handlers
    of [components/GeneratorPanel.tsx] (single-shot fan-out, the CSV batch
    runner, image upload, data-URL unpacking) and of the scene state
    ([context/AppContext.tsx], [LayerPanel.tsx], [CanvasPanel.tsx]),
    followed by the properties of the specification that concern them and
    by further properties of the code.

    Conventions of the embedding:
    - a JavaScript [number] that takes part in arithmetic whose rounding
      matters is an IEEE-754 binary64 value ([Num.number], the Standard
      Library's executable [spec_float] at precision 53); counters, indices,
      HTTP statuses and pixel sizes, which the code keeps integral, are [Z]
      or [nat];
    - a string is the sequence of its UTF-16 code units, all of them below
      256;
    - a value that may be [undefined] is an [option]; [NaN] coming out of
      [parseInt] is [None];
    - an [async] function is a function returning the trace of its
      observable events together with the way its promise settles;
    - the React state [batchProgress] is an explicit store; every call of
      [setBatchProgress] publishes one more state. *)

From Stdlib Require Import ZArith QArith Qabs Lia Bool Ascii String DecimalString.
From Stdlib Require Import Floats.SpecFloat.
From Stdlib Require Import Sorted Permutation.
From Stdlib Require Import DecimalPos DecimalN DecimalZ.
From stdpp Require Import base option list strings gmap.

Local Open Scope Z_scope.

(** ** JavaScript values *)

Module JS.

(** What a [throw] or a promise rejection carries: an [Error] object with
    its message, or any other value. *)
Inductive Thrown :=
| ErrorObj (message : string)
| NonError.

(** The settled state of a [Promise<string>]. *)
Inductive Settled :=
| Fulfilled (value : string)
| Rejected (reason : Thrown).

(** [e instanceof Error ? e.message : fallback] *)
Definition message_or (e : Thrown) (fallback : string) : string :=
  match e with
  | ErrorObj m => m
  | NonError => fallback
  end.

(** Truthiness of a possibly-undefined string. *)
Definition truthy (v : option string) : bool :=
  match v with
  | Some s => negb (String.eqb s "")
  | None => false
  end.

(** [a || b] on possibly-undefined strings. *)
Definition or_else (a b : option string) : option string :=
  if truthy a then a else b.

(** Template-literal rendering of an integer. *)
Definition string_of_Z (z : Z) : string :=
  NilZero.string_of_int (Z.to_int z).

Definition string_of_nat (n : nat) : string := string_of_Z (Z.of_nat n).

(** Template-literal rendering of a possibly-undefined string. *)
Definition show (v : option string) : string :=
  match v with
  | Some s => s
  | None => "undefined"
  end.

(** The white space and line terminators that [parseInt] and [trim] skip,
    among the code units below 256: tab to carriage return, space and
    no-break space. *)
Definition is_space (c : ascii) : bool :=
  let n := Z.of_N (N_of_ascii c) in
  ((9 <=? n) && (n <=? 13)) || (n =? 32) || (n =? 160).

Fixpoint skip_spaces (s : string) : string :=
  match s with
  | String c r => if is_space c then skip_spaces r else s
  | EmptyString => s
  end.

Definition digit_of (c : ascii) : option Z :=
  let n := Z.of_N (N_of_ascii c) in
  if (48 <=? n) && (n <=? 57) then Some (n - 48) else None.

(** The value of the longest prefix of decimal digits, [None] when the
    prefix is empty. *)
Fixpoint digits_value (s : string) (acc : option Z) : option Z :=
  match s with
  | String c r =>
      match digit_of c with
      | Some d => digits_value r (Some (10 * default 0 acc + d))
      | None => acc
      end
  | EmptyString => acc
  end.

(** The Number an integer becomes: the nearest binary64 value, ties to
    even, which is the integer itself up to 2^53. Beyond the largest double
    the code holds [Infinity], which no integer renders; the integer is then
    kept as it is (it is positive and no [NaN], as [Infinity] is). *)
Definition to_number (z : Z) : Z :=
  match binary_normalize 53 1024 z 0 false with
  | S754_finite s m e =>
      let magnitude := if 0 <=? e then Z.pos m * 2 ^ e else Z.pos m / 2 ^ (- e) in
      if s then - magnitude else magnitude
  | S754_zero _ => 0
  | S754_infinity _ | S754_nan => z
  end.

(** [parseInt(v, 10)]; [None] is [NaN]. *)
Definition parseInt (v : option string) : option Z :=
  match v with
  | None => None
  | Some s =>
      to_number
        <$> match skip_spaces s with
            | String "-" r => Z.opp <$> digits_value r None
            | String "+" r => digits_value r None
            | t => digits_value t None
            end
  end.

(** Truthiness of a number that may be [NaN]. *)
Definition num_truthy (n : option Z) : bool :=
  match n with
  | Some z => negb (z =? 0)
  | None => false
  end.

Definition num_or_else (a b : option Z) : option Z :=
  if num_truthy a then a else b.

(** [s.startsWith(p)] *)
Fixpoint startsWith (p s : string) : bool :=
  match p, s with
  | EmptyString, _ => true
  | String a p', String b s' => Ascii.eqb a b && startsWith p' s'
  | String _ _, EmptyString => false
  end.

Fixpoint drop_chars (n : nat) (s : string) : string :=
  match n, s with
  | O, _ => s
  | S n', String _ r => drop_chars n' r
  | S _, EmptyString => EmptyString
  end.

(** [s.replace(pat, by)] with a string pattern: the first occurrence only. *)
Fixpoint replace_first (pat by_ s : string) : string :=
  if startsWith pat s then by_ +:+ drop_chars (String.length pat) s
  else match s with
       | String c r => String c (replace_first pat by_ r)
       | EmptyString => EmptyString
       end.

(** [parts.join(sep)] *)
Fixpoint join (sep : string) (parts : list string) : string :=
  match parts with
  | [] => ""
  | [p] => p
  | p :: rest => p +:+ sep +:+ join sep rest
  end.

(** [xs.reduce(f)] without an initial value, on a non-empty array; the
    second argument stands for the [TypeError] of the empty case, which the
    callers below never reach. *)
Definition reduce {A} (f : A -> A -> A) (xs : list A) (on_empty : A) : A :=
  match xs with
  | [] => on_empty
  | x :: rest => fold_left f rest x
  end.

(** ToInt32: the low 32 bits read as a signed integer, which is what
    [x | 0] and the operands of [<<] go through. *)
Definition toInt32 (x : Z) : Z :=
  let m := x mod 2 ^ 32 in
  if m <? 2 ^ 31 then m else m - 2 ^ 32.

(** [x << n] *)
Definition shl (x n : Z) : Z := toInt32 (Z.shiftl (toInt32 x) (n mod 32)).

End JS.

(** ** Numbers: IEEE-754 binary64 *)

Module Num.

Definition number := spec_float.
Definition prec : Z := 53.
Definition emax : Z := 1024.

Definition of_Z (z : Z) : number := binary_normalize prec emax z 0 false.
Definition div : number -> number -> number := SFdiv prec emax.
Definition sub : number -> number -> number := SFsub prec emax.
Definition mul : number -> number -> number := SFmul prec emax.
Definition abs : number -> number := SFabs.
Definition ltb : number -> number -> bool := SFltb.
Definition eqb : number -> number -> bool := SFeqb.

Definition is_nan (x : number) : bool :=
  match x with
  | S754_nan => true
  | _ => false
  end.

Definition is_neg_zero (x : number) : bool :=
  match x with
  | S754_zero true => true
  | _ => false
  end.

(** [Math.min] and [Math.max]: NaN is contagious and -0 is below +0. *)
Definition min (a b : number) : number :=
  if is_nan a || is_nan b then S754_nan
  else if ltb a b then a
  else if ltb b a then b
  else if is_neg_zero a then a else b.

Definition max (a b : number) : number :=
  if is_nan a || is_nan b then S754_nan
  else if ltb a b then b
  else if ltb b a then a
  else if is_neg_zero a then b else a.

(** The decimal literal [0.025]: the double nearest to 25/1000. *)
Definition lit_0_025 : number := Eval vm_compute in div (of_Z 25) (of_Z 1000).
(** The decimal literals [0.45] and [0.65]. *)
Definition lit_0_45 : number := Eval vm_compute in div (of_Z 45) (of_Z 100).
Definition lit_0_65 : number := Eval vm_compute in div (of_Z 65) (of_Z 100).

End Num.

(** ** Aspect-ratio snapping ([geminiService.ts], lines 3-20) *)

Inductive AspectRatio := AR_1_1 | AR_4_3 | AR_3_4 | AR_16_9 | AR_9_16.

(** The key of the table as the string the API receives. *)
Definition aspect_key (k : AspectRatio) : string :=
  match k with
  | AR_1_1 => "1:1"
  | AR_4_3 => "4:3"
  | AR_3_4 => "3:4"
  | AR_16_9 => "16:9"
  | AR_9_16 => "9:16"
  end.

Definition SUPPORTED_ASPECT_RATIOS (k : AspectRatio) : Num.number :=
  match k with
  | AR_1_1 => Num.of_Z 1
  | AR_4_3 => Num.div (Num.of_Z 4) (Num.of_Z 3)
  | AR_3_4 => Num.div (Num.of_Z 3) (Num.of_Z 4)
  | AR_16_9 => Num.div (Num.of_Z 16) (Num.of_Z 9)
  | AR_9_16 => Num.div (Num.of_Z 9) (Num.of_Z 16)
  end.

(** [Object.keys(SUPPORTED_ASPECT_RATIOS)]: insertion order. *)
Definition aspect_keys : list AspectRatio :=
  [AR_1_1; AR_4_3; AR_3_4; AR_16_9; AR_9_16].

(** Position of a key in the enumeration. *)
Definition aspect_rank (k : AspectRatio) : nat :=
  match k with
  | AR_1_1 => 0
  | AR_4_3 => 1
  | AR_3_4 => 2
  | AR_16_9 => 3
  | AR_9_16 => 4
  end.

(** [Math.abs(SUPPORTED_ASPECT_RATIOS[k] - targetRatio)] *)
Definition ratio_diff (targetRatio : Num.number) (k : AspectRatio) : Num.number :=
  Num.abs (Num.sub (SUPPORTED_ASPECT_RATIOS k) targetRatio).

Definition closer (targetRatio : Num.number) (prev curr : AspectRatio) : AspectRatio :=
  let prevDiff := ratio_diff targetRatio prev in
  let currDiff := ratio_diff targetRatio curr in
  if Num.ltb currDiff prevDiff then curr else prev.

Definition getClosestAspectRatio (width height : Num.number) : AspectRatio :=
  if Num.eqb height (Num.of_Z 0) then AR_1_1
  else
    let targetRatio := Num.div width height in
    JS.reduce (closer targetRatio) aspect_keys AR_1_1.

(** [b] is the earliest of the keys [seen] that no key is strictly below,
    for a strict comparison [lt]: no key of [seen] is below [b], and [b] is
    below every key listed before it. *)
Definition earliest_min {K : Type} (lt : K -> K -> bool) (seen : list K) (b : K) : Prop :=
  (exists pre post, seen = pre ++ b :: post /\ forall c, In c pre -> lt b c = true)
  /\ forall c, In c seen -> lt c b = false.

(** The selection the specification words describe, over exact rationals:
    the earliest key whose distance to [width/height] is minimal. *)
Definition exact_ratio (k : AspectRatio) : Q :=
  match k with
  | AR_1_1 => 1
  | AR_4_3 => 4 # 3
  | AR_3_4 => 3 # 4
  | AR_16_9 => 16 # 9
  | AR_9_16 => 9 # 16
  end.

Definition exact_diff (width height : Z) (k : AspectRatio) : Q :=
  Qabs (exact_ratio k - inject_Z width / inject_Z height).

Definition exact_closer (width height : Z) (prev curr : AspectRatio) : AspectRatio :=
  if Qlt_le_dec (exact_diff width height curr) (exact_diff width height prev)
  then curr else prev.

Definition exact_closest (width height : Z) : AspectRatio :=
  if height =? 0 then AR_1_1
  else JS.reduce (exact_closer width height) aspect_keys AR_1_1.

(** ** Prompt seed ([geminiService.ts], lines 73-81) *)

(** A string as [charCodeAt] sees it: its UTF-16 code units. *)
Definition code_units := list Z.

Definition char_codes (s : string) : code_units :=
  (fun c => Z.of_N (N_of_ascii c)) <$> list_ascii_of_string s.

(** One turn of the loop body. *)
Definition seed_step (hash char : Z) : Z :=
  JS.toInt32 (JS.shl hash 5 - hash + char).

Definition stringToSeed (str : code_units) : Z :=
  Z.abs (fold_left seed_step str 0).

(** The fold of the specification: [hash*31 + charCode] kept to 32 signed
    bits at every step. *)
Definition spec_seed_fold (str : code_units) : Z :=
  fold_left (fun hash char => JS.toInt32 (hash * 31 + char)) str 0.

(** ** The browser: canvas, network and file reading *)

(** The CSS font shorthand the code assembles, kept in structured form. *)
Record Font := {
  font_bold : bool;
  font_px : Num.number;
  font_family : string;
}.

Inductive DrawOp :=
| FillRect (style : string) (x y w h : Num.number)
| StrokeRect (style : string) (lineWidth : Num.number) (x y w h : Num.number)
| FillText (style : string) (font : Font) (align baseline : string)
           (text : string) (x y : Num.number).

(** The state of a [CanvasRenderingContext2D] that the placeholder touches. *)
Record Context2D := {
  fillStyle : string;
  strokeStyle : string;
  lineWidth : Num.number;
  textAlign : string;
  textBaseline : string;
  font : Font;
  drawn : list DrawOp;
}.

Definition fresh_context : Context2D := {|
  fillStyle := "#000000";
  strokeStyle := "#000000";
  lineWidth := Num.of_Z 1;
  textAlign := "start";
  textBaseline := "alphabetic";
  font := {| font_bold := false; font_px := Num.of_Z 10; font_family := "sans-serif" |};
  drawn := [];
|}.

Record Canvas := {
  canvas_width : Z;
  canvas_height : Z;
  canvas_drawn : list DrawOp;
}.

Definition set_fillStyle (v : string) (c : Context2D) : Context2D :=
  {| fillStyle := v; strokeStyle := strokeStyle c; lineWidth := lineWidth c;
     textAlign := textAlign c; textBaseline := textBaseline c; font := font c;
     drawn := drawn c |}.

Definition set_strokeStyle (v : string) (c : Context2D) : Context2D :=
  {| fillStyle := fillStyle c; strokeStyle := v; lineWidth := lineWidth c;
     textAlign := textAlign c; textBaseline := textBaseline c; font := font c;
     drawn := drawn c |}.

Definition set_lineWidth (v : Num.number) (c : Context2D) : Context2D :=
  {| fillStyle := fillStyle c; strokeStyle := strokeStyle c; lineWidth := v;
     textAlign := textAlign c; textBaseline := textBaseline c; font := font c;
     drawn := drawn c |}.

Definition set_textAlign (v : string) (c : Context2D) : Context2D :=
  {| fillStyle := fillStyle c; strokeStyle := strokeStyle c; lineWidth := lineWidth c;
     textAlign := v; textBaseline := textBaseline c; font := font c;
     drawn := drawn c |}.

Definition set_textBaseline (v : string) (c : Context2D) : Context2D :=
  {| fillStyle := fillStyle c; strokeStyle := strokeStyle c; lineWidth := lineWidth c;
     textAlign := textAlign c; textBaseline := v; font := font c;
     drawn := drawn c |}.

Definition set_font (v : Font) (c : Context2D) : Context2D :=
  {| fillStyle := fillStyle c; strokeStyle := strokeStyle c; lineWidth := lineWidth c;
     textAlign := textAlign c; textBaseline := textBaseline c; font := v;
     drawn := drawn c |}.

Definition draw (op : DrawOp) (c : Context2D) : Context2D :=
  {| fillStyle := fillStyle c; strokeStyle := strokeStyle c; lineWidth := lineWidth c;
     textAlign := textAlign c; textBaseline := textBaseline c; font := font c;
     drawn := drawn c ++ [op] |}.

Definition fillRect (x y w h : Num.number) (c : Context2D) : Context2D :=
  draw (FillRect (fillStyle c) x y w h) c.

Definition strokeRect (x y w h : Num.number) (c : Context2D) : Context2D :=
  draw (StrokeRect (strokeStyle c) (lineWidth c) x y w h) c.

Definition fillText (text : string) (x y : Num.number) (c : Context2D) : Context2D :=
  draw (FillText (fillStyle c) (font c) (textAlign c) (textBaseline c) text x y) c.

(** What the page's browser provides and the code cannot see into. *)
Record Browser := {
  (** whether [canvas.getContext('2d')] returns a context *)
  has_context_2d : bool;
  (** [canvas.toDataURL('image/png')] of a canvas with the given content *)
  toDataURL : Canvas -> string;
  (** [encodeURIComponent] on a well-formed string *)
  encodeURIComponent : string -> string;
}.

(** How reading a blob with [FileReader.readAsDataURL] ends: [loadend] with
    a result, or the [error] event. *)
Inductive FileRead :=
| ReadDone (result : string)
| ReadFailed.

Inductive BlobResult :=
| BlobOf (type : string) (read : FileRead)
| BlobThrows (e : JS.Thrown).

(** What one [fetch] of the image URL leads to. *)
Inductive Exchange :=
| Responds (status : Z) (blob : BlobResult)
| Throws (e : JS.Thrown).

(** [response.ok] *)
Definition response_ok (status : Z) : bool :=
  (200 <=? status) && (status <=? 299).

(** ** Placeholder ([geminiService.ts], lines 83-121) *)

Definition fontFamily : string := "ui-sans-serif, system-ui, sans-serif".

Definition placeholder_drawing (width height : Z) : Context2D -> Context2D :=
  fun ctx =>
  let w := Num.of_Z width in
  let h := Num.of_Z height in
  let ctx := set_fillStyle "#4a2525" ctx in
  let ctx := fillRect (Num.of_Z 0) (Num.of_Z 0) w h ctx in
  let ctx := set_strokeStyle "#8a4a4a" ctx in
  let ctx := set_lineWidth
               (Num.max (Num.of_Z 1) (Num.mul (Num.min w h) Num.lit_0_025)) ctx in
  let ctx := strokeRect (Num.of_Z 0) (Num.of_Z 0) w h ctx in
  let ctx := set_fillStyle "#fde8e8" ctx in
  let ctx := set_textAlign "center" ctx in
  let ctx := set_textBaseline "middle" ctx in
  let mainFontSize :=
    Num.max (Num.of_Z 12)
            (Num.min (Num.div w (Num.of_Z 5)) (Num.div h (Num.of_Z 4))) in
  let ctx := set_font {| font_bold := true; font_px := mainFontSize;
                         font_family := fontFamily |} ctx in
  let ctx := fillText "FAILED" (Num.div w (Num.of_Z 2)) (Num.mul h Num.lit_0_45) ctx in
  let detailFontSize :=
    Num.max (Num.of_Z 10)
            (Num.min (Num.div w (Num.of_Z 8)) (Num.div h (Num.of_Z 6))) in
  let ctx := set_font {| font_bold := false; font_px := detailFontSize;
                         font_family := fontFamily |} ctx in
  fillText (JS.string_of_Z width +:+ "x" +:+ JS.string_of_Z height)
           (Num.div w (Num.of_Z 2)) (Num.mul h Num.lit_0_65) ctx.

(** What [canvas.width = v] leaves in the attribute: the value goes through
    ToUint32 and is kept when it is at most 2147483647; otherwise the
    attribute falls back to its default, 300 for the width and 150 for the
    height. *)
Definition canvas_dimension (fallback v : Z) : Z :=
  let n := v mod 2 ^ 32 in
  if n <=? 2147483647 then n else fallback.

Definition placeholder_canvas (b : Browser) (width height : Z) : Canvas :=
  {| canvas_width := canvas_dimension 300 width;
     canvas_height := canvas_dimension 150 height;
     canvas_drawn :=
       if has_context_2d b
       then drawn (placeholder_drawing width height fresh_context)
       else [] |}.

(** The promise only ever goes through [resolve]. *)
Definition generatePlaceholder (b : Browser) (prompt : string) (width height : Z)
  : JS.Settled :=
  JS.Fulfilled (toDataURL b (placeholder_canvas b width height)).

(** ** Public model with retries ([geminiService.ts], lines 123-180) *)

Inductive Event :=
| Fetch (attempt : Z) (url : string)
| OnRetry (attempt delay : Z)
| Sleep (delay : Z).

Definition MAX_RETRIES : Z := 3.

Definition image_url (b : Browser) (prompt : string) (width height : Z) : string :=
  let encodedPrompt := encodeURIComponent b prompt in
  let seed := stringToSeed (char_codes prompt) in
  "https://image.pollinations.ai/prompt/" +:+ encodedPrompt
    +:+ "?width=" +:+ JS.string_of_Z width
    +:+ "&height=" +:+ JS.string_of_Z height
    +:+ "&seed=" +:+ JS.string_of_Z seed.

(** The promise built around the [FileReader]. *)
Definition read_as_data_url (read : FileRead) : JS.Settled :=
  match read with
  | ReadDone result =>
      if JS.truthy (Some result) then JS.Fulfilled result
      else JS.Rejected (JS.ErrorObj "Failed to convert image blob to base64.")
  | ReadFailed => JS.Rejected (JS.ErrorObj "Error reading image blob.")
  end.

(** [if (attempt < MAX_RETRIES) { ... onRetry ... setTimeout ... }]. The
    optional observer is [true] when it is given; its call is an event of
    the trace, and it is taken to return normally, as the only observer of
    the repository ([onRetryCallback], which posts a label) does. *)
Definition backoff (onRetry : bool) (attempt : Z) : list Event :=
  if attempt <? MAX_RETRIES then
    let delay := 2 ^ attempt * 1000 in
    (if onRetry then [OnRetry attempt delay] else []) ++ [Sleep delay]
  else [].

(** How one turn of the [for] loop leaves. *)
Inductive Flow :=
| Return (s : JS.Settled)
| Break
| Next.

Definition catch_network_error (onRetry : bool) (attempt : Z) (error : JS.Thrown)
  : list Event * option JS.Thrown * Flow :=
  let lastError :=
    match error with
    | JS.ErrorObj _ => error
    | JS.NonError => JS.ErrorObj "An unknown network error occurred."
    end in
  (backoff onRetry attempt, Some lastError, Next).

Definition attempt_body (onRetry : bool) (attempt : Z) (x : Exchange)
    (lastError : option JS.Thrown) : list Event * option JS.Thrown * Flow :=
  match x with
  | Responds status blob =>
      if response_ok status then
        match blob with
        | BlobOf type read =>
            if JS.startsWith "image/" type
            then ([], lastError, Return (read_as_data_url read))
            else (backoff onRetry attempt,
                  Some (JS.ErrorObj ("Public model returned non-image content (type: "
                                       +:+ type +:+ ").")),
                  Next)
        | BlobThrows e => catch_network_error onRetry attempt e
        end
      else
        let lastError :=
          Some (JS.ErrorObj ("Public model API failed with status: "
                               +:+ JS.string_of_Z status +:+ ".")) in
        if (status <? 500) && negb (status =? 429)
        then ([], lastError, Break)
        else (backoff onRetry attempt, lastError, Next)
  | Throws e => catch_network_error onRetry attempt e
  end.

(** The [for] loop over the attempt numbers still to run; [None] when the
    loop is left without a [return]. *)
Fixpoint retry_loop (url : string) (onRetry : bool) (transport : Z -> Exchange)
    (attempts : list Z) (lastError : option JS.Thrown)
  : list Event * option JS.Thrown * option JS.Settled :=
  match attempts with
  | [] => ([], lastError, None)
  | attempt :: later =>
      let '(events, lastError, flow) :=
        attempt_body onRetry attempt (transport attempt) lastError in
      match flow with
      | Return s => (Fetch attempt url :: events, lastError, Some s)
      | Break => (Fetch attempt url :: events, lastError, None)
      | Next =>
          let '(events', lastError, r) :=
            retry_loop url onRetry transport later lastError in
          (Fetch attempt url :: events ++ events', lastError, r)
      end
  end.

(** The run: the events in order and the way the returned promise settles.
    [transport k] is what the network does on attempt [k]. *)
Definition generateWithPublicModel (b : Browser) (prompt : string) (width height : Z)
    (onRetry : bool) (transport : Z -> Exchange) : list Event * JS.Settled :=
  let '(events, lastError, r) :=
    retry_loop (image_url b prompt width height) onRetry transport
               (seqZ 1 MAX_RETRIES) None in
  match r with
  | Some s => (events, s)
  | None => (events, generatePlaceholder b prompt width height)
  end.

(** The error the loop holds when it is left; the function never reads it. *)
Definition last_error_of (b : Browser) (prompt : string) (width height : Z)
    (onRetry : bool) (transport : Z -> Exchange) : option JS.Thrown :=
  (retry_loop (image_url b prompt width height) onRetry transport
              (seqZ 1 MAX_RETRIES) None).1.2.

(** How the loop body leaves on an exchange; this does not depend on the
    attempt number, on the observer or on the error held so far. *)
Definition flow_of (x : Exchange) : Flow := (attempt_body false 0 x None).2.

(** Projections of a trace. *)
Definition is_fetch (e : Event) : bool :=
  match e with Fetch _ _ => true | _ => false end.

Definition attempts_made (t : list Event) : nat := length (List.filter is_fetch t).

Definition sleeps (t : list Event) : list Z :=
  omap (fun e => match e with Sleep d => Some d | _ => None end) t.

Definition notifications (t : list Event) : list (Z * Z) :=
  omap (fun e => match e with OnRetry a d => Some (a, d) | _ => None end) t.

(** An attempt that ends in the [return] of the loop: a 2xx response whose
    blob is an image. *)
Definition succeeds (x : Exchange) : bool :=
  match x with
  | Responds status (BlobOf type _) => response_ok status && JS.startsWith "image/" type
  | _ => false
  end.

(** A browser to run examples in: the data URL names the canvas size and
    the number of drawing operations. *)
Definition example_browser : Browser := {|
  has_context_2d := true;
  toDataURL := fun c =>
    "data:image/png;base64,placeholder-" +:+ JS.string_of_Z (canvas_width c) +:+ "x"
      +:+ JS.string_of_Z (canvas_height c) +:+ "-"
      +:+ JS.string_of_nat (length (canvas_drawn c));
  encodeURIComponent := fun s => s;
|}.

(** A server that answers every attempt with the given status and an HTML
    error page. *)
Definition always_status (status : Z) : Z -> Exchange :=
  fun _ => Responds status (BlobOf "text/html" (ReadDone "data:text/html;base64,")).

(** ** Panel state and backends ([types.ts], [GeneratorPanel.tsx]) *)

Inductive AssetType := Character | NPC | Prop_ | Background.
Inductive CharacterPart := Head | Body | Arms | Legs | Weapon.
Inductive FacingDirection := Left | Right.
Inductive GenerationEngine := gemini | dalle3 | deepseek | public.

Definition AssetType_value (a : AssetType) : string :=
  match a with
  | Character => "Karakter"
  | NPC => "NPC/Musuh"
  | Prop_ => "Prop"
  | Background => "Latar"
  end.

Definition CharacterPart_value (p : CharacterPart) : string :=
  match p with
  | Head => "Kepala"
  | Body => "Badan"
  | Arms => "Lengan"
  | Legs => "Kaki"
  | Weapon => "Senjata"
  end.

Definition FacingDirection_value (d : FacingDirection) : string :=
  match d with
  | Left => "kiri"
  | Right => "kanan"
  end.

(** The component state and settings the two handlers read. *)
Record Panel := {
  masterStyle : string;
  assetType : AssetType;
  characterPart : CharacterPart;
  facingDirection : FacingDirection;
  width : Z;
  height : Z;
  specificPrompt : string;
  numberOfVariations : Z;
  engine : GenerationEngine;
  geminiApiKey : string;
  openAiApiKey : string;
  openAiApiEndpoint : string;
}.

(** Everything outside the page. [generateImageAsset] and
    [generateWithOpenAICompatibleModel] are calls to remote services: the
    handlers only see how their promise settles, so that is what the world
    supplies for the [i]-th call; for the public model it supplies the
    network exchange of every attempt of the [i]-th call. *)
Record World := {
  browser : Browser;
  public_transport : nat -> Z -> Exchange;
  generateImageAsset : nat -> string -> Z -> Z -> string -> JS.Settled;
  generateWithOpenAICompatibleModel :
    nat -> string -> string -> string -> string -> JS.Settled;
}.

Record Image := {
  src : string;
  prompt : string;
}.

(** ** Single-shot fan-out ([GeneratorPanel.tsx], lines 58-109) *)

Definition isCharacterType (p : Panel) : bool :=
  match assetType p with
  | Character | NPC => true
  | _ => false
  end.

Definition single_fullPrompt (p : Panel) : string :=
  let fullPrompt := masterStyle p +:+ ", " +:+ AssetType_value (assetType p) in
  let fullPrompt :=
    if isCharacterType p
    then fullPrompt +:+ ", " +:+ CharacterPart_value (characterPart p)
           +:+ ", facing " +:+ FacingDirection_value (facingDirection p)
    else fullPrompt in
  fullPrompt +:+ ", " +:+ specificPrompt p +:+ ", "
    +:+ JS.string_of_Z (width p) +:+ "x" +:+ JS.string_of_Z (height p)
    +:+ " pixels, transparent background, centered".

Definition isSingleVariationEngine (e : GenerationEngine) : bool :=
  match e with
  | public | dalle3 | deepseek => true
  | gemini => false
  end.

(** [Math.max(1, Math.min(4, numberOfVariations || 1))] *)
Definition clampedVariations (e : GenerationEngine) (numberOfVariations : Z) : Z :=
  if isSingleVariationEngine e then 1
  else Z.max 1 (Z.min 4 (if numberOfVariations =? 0 then 1 else numberOfVariations)).

(** The [i]-th call of [generateFunc]. *)
Definition single_generateFunc (w : World) (p : Panel) (fullPrompt : string) (i : nat)
  : JS.Settled :=
  match engine p with
  | public =>
      (generateWithPublicModel (browser w) fullPrompt (width p) (height p) false
                               (public_transport w i)).2
  | dalle3 =>
      generateWithOpenAICompatibleModel w i fullPrompt (openAiApiKey p)
                                        (openAiApiEndpoint p) "dall-e-3"
  | deepseek =>
      generateWithOpenAICompatibleModel w i fullPrompt (openAiApiKey p)
                                        (openAiApiEndpoint p) "deepseek-image-v1"
  | gemini =>
      generateImageAsset w i fullPrompt (width p) (height p) (geminiApiKey p)
  end.

(** [results.filter(fulfilled).map(r => ({src: r.value, prompt}))] *)
Definition successes (fullPrompt : string) (results : list JS.Settled) : list Image :=
  omap (fun r => match r with
                 | JS.Fulfilled value => Some {| src := value; prompt := fullPrompt |}
                 | JS.Rejected _ => None
                 end) results.

(** [results.find(r => r.status === 'rejected')?.reason] *)
Definition first_rejection (results : list JS.Settled) : option JS.Thrown :=
  head (omap (fun r => match r with
                       | JS.Rejected reason => Some reason
                       | JS.Fulfilled _ => None
                       end) results).

(** [firstError?.reason instanceof Error ? firstError.reason.message : ...] *)
Definition all_failed_reason (results : list JS.Settled) : string :=
  match first_rejection results with
  | Some reason => JS.message_or reason "All variations failed to generate."
  | None => "All variations failed to generate."
  end.

Definition some_failed_warning (succeeded clamped : Z) : string :=
  "Generated " +:+ JS.string_of_Z succeeded +:+ " of " +:+ JS.string_of_Z clamped
    +:+ " variations. Some failed.".

(** What the handler leaves in the state it writes. *)
Record SingleOutcome := {
  calls : list JS.Settled;
  images : list Image;
  error_shown : option string;
  isLoading : bool;
}.

(** The aggregation after [Promise.allSettled]. *)
Definition aggregate (fullPrompt : string) (clamped : Z) (results : list JS.Settled)
    (generatedImages : list Image) : list Image * option string :=
  let successfulImages := successes fullPrompt results in
  let failedCount := clamped - Z.of_nat (length successfulImages) in
  let images :=
    if 0 <? Z.of_nat (length successfulImages)
    then successfulImages ++ generatedImages
    else generatedImages in
  let error :=
    if 0 <? failedCount then
      if 0 <? Z.of_nat (length successfulImages)
      then Some (some_failed_warning (Z.of_nat (length successfulImages)) clamped)
      else Some (all_failed_reason results)
    else None in
  (images, error).

Definition handleGenerateSingle (w : World) (p : Panel) (generatedImages : list Image)
  : SingleOutcome :=
  let fullPrompt := single_fullPrompt p in
  let clamped := clampedVariations (engine p) (numberOfVariations p) in
  let results :=
    single_generateFunc w p fullPrompt <$> seq 0 (Z.to_nat clamped) in
  let '(images, error) := aggregate fullPrompt clamped results generatedImages in
  {| calls := results; images := images; error_shown := error; isLoading := false |}.

(** ** Batch job state ([types.ts], [AppContext.tsx]) *)

Inductive Status := idle | processing | done | error.

Record GeneratedFile := {
  filename : string;
  data : string;
}.

(** The field [error] of the source is [error_text] here, the name being
    taken by the status. *)
Record BatchProgress := {
  total : nat;
  current : nat;
  status : Status;
  generatedFiles : list GeneratedFile;
  currentFileName : option string;
  error_text : option string;
}.

Definition initialBatchProgress : BatchProgress := {|
  total := 0;
  current := 0;
  status := idle;
  generatedFiles := [];
  currentFileName := None;
  error_text := None;
|}.

(** The React state with every value it has held, oldest first: one entry
    per call of [setBatchProgress]. *)
Record Store := {
  latest : BatchProgress;
  published : list BatchProgress;
}.

Definition setBatchProgress (update : BatchProgress -> BatchProgress) (s : Store)
  : Store :=
  let next := update (latest s) in
  {| latest := next; published := published s ++ [next] |}.

Definition with_total (n : nat) (label : string) (prev : BatchProgress) :=
  {| total := n; current := current prev; status := status prev;
     generatedFiles := generatedFiles prev; currentFileName := Some label;
     error_text := error_text prev |}.

Definition with_current (i : nat) (label : string) (prev : BatchProgress) :=
  {| total := total prev; current := i; status := status prev;
     generatedFiles := generatedFiles prev; currentFileName := Some label;
     error_text := error_text prev |}.

Definition with_label (label : string) (prev : BatchProgress) :=
  {| total := total prev; current := current prev; status := status prev;
     generatedFiles := generatedFiles prev; currentFileName := Some label;
     error_text := error_text prev |}.

Definition with_file (f : GeneratedFile) (prev : BatchProgress) :=
  {| total := total prev; current := current prev; status := status prev;
     generatedFiles := generatedFiles prev ++ [f];
     currentFileName := currentFileName prev; error_text := error_text prev |}.

Definition with_end (st : Status) (err : option string) (n : nat) (label : string)
    (prev : BatchProgress) :=
  {| total := total prev; current := n; status := st;
     generatedFiles := generatedFiles prev; currentFileName := Some label;
     error_text := match err with Some _ => err | None => error_text prev end |}.

(** The whole-state replacement of every set-up failure. *)
Definition setup_error (reason : string) : BatchProgress :=
  {| total := 0; current := 0; status := error; generatedFiles := [];
     currentFileName := None; error_text := Some reason |}.

Definition parsing_state : BatchProgress :=
  {| total := 0; current := 0; status := processing; generatedFiles := [];
     currentFileName := Some "Parsing CSV..."; error_text := None |}.

(** ** Batch runner ([GeneratorPanel.tsx], lines 116-259) *)

(** One CSV record after header normalisation: column name to cell text. *)
Abbreviation Row := (gmap string string).

(** An error of the parser; some errors ([UndetectableDelimiter]) carry no
    row. *)
Record ParseError := {
  pe_message : string;
  pe_row : option Z;
}.

(** [`${firstError.row + 2}`] *)
Definition row_plus_2 (row : option Z) : string :=
  match row with
  | Some r => JS.string_of_Z (r + 2)
  | None => "NaN"
  end.

(** The two ways [Papa.parse] reports back: [complete] or [error]. *)
Inductive ParseOutcome :=
| Complete (errors : list ParseError) (data : list Row)
| ParseFailed (err : ParseError).

(** The [FileReader] of the upload: [onerror], or [onload] with
    [e.target?.result]. *)
Inductive FileText :=
| TextError
| TextLoaded (result : option string).

(** [event.target.files?.[0]] and what reading it gives. *)
Inductive Upload :=
| NoFile
| File (read : FileText).

(** [Object.values(row).some(val => val !== null && val !== '')] *)
Definition has_content (row : Row) : bool :=
  existsb (fun kv => negb (String.eqb kv.2 "")) (map_to_list row).

(** What a row says, read the way the loop body reads it. *)
Record RowFields := {
  fileName : string;
  widthStr : option string;
  heightStr : option string;
  row_width : option Z;
  row_height : option Z;
  row_assetType : option string;
  row_characterPart : option string;
  row_specificPrompt : option string;
  row_facingDirection : option string;
}.

Definition read_row (i : nat) (row : Row) : RowFields :=
  let fileNameValue :=
    JS.or_else (JS.or_else (row !! "nama_file") (row !! "filename"))
               (Some ("asset_" +:+ JS.string_of_nat i)) in
  let widthStr := JS.or_else (row !! "lebar") (row !! "width") in
  let heightStr := JS.or_else (row !! "tinggi") (row !! "height") in
  {| fileName := JS.show fileNameValue +:+ ".png";
     widthStr := widthStr;
     heightStr := heightStr;
     row_width := JS.parseInt widthStr;
     row_height := JS.parseInt heightStr;
     row_assetType := JS.or_else (row !! "tipe_aset") (row !! "asset_type");
     row_characterPart := JS.or_else (row !! "bagian_karakter") (row !! "character_part");
     row_specificPrompt :=
       JS.or_else (JS.or_else (row !! "prompt_spesifik") (row !! "specific_prompt"))
                  (row !! "prompt");
     row_facingDirection := JS.or_else (row !! "arah_hadap") (row !! "facing_direction");
  |}.

(** [isNaN(n) || n <= 0] *)
Definition nan_or_not_positive (n : option Z) : bool :=
  match n with
  | Some z => z <=? 0
  | None => true
  end.

(** The condition of the [throw] of line 204. *)
Definition row_invalid (f : RowFields) : bool :=
  negb (JS.truthy (row_specificPrompt f))
  || negb (JS.truthy (widthStr f))
  || negb (JS.truthy (heightStr f))
  || nan_or_not_positive (row_width f)
  || nan_or_not_positive (row_height f).

Definition invalid_row_message (i : nat) : string :=
  "Row " +:+ JS.string_of_nat (i + 2)
    +:+ ": Invalid or missing data. Ensure prompt, width, and height are valid.".

(** [promptParts.filter(Boolean).join(', ')] *)
Definition batch_prompt (masterStyle : string) (f : RowFields) (width height : Z)
  : string :=
  let promptParts : list (option string) :=
    [ Some masterStyle; row_assetType f; row_characterPart f; row_specificPrompt f;
      Some (JS.string_of_Z width +:+ "x" +:+ JS.string_of_Z height +:+ "px");
      (if JS.truthy (row_facingDirection f)
       then Some ("facing " +:+ JS.show (row_facingDirection f))
       else None);
      Some "transparent background"; Some "centered" ] in
  JS.join ", " (omap (fun part => if JS.truthy part then part else None) promptParts).

(** The update [onRetryCallback] posts. *)
Definition retry_label (attempt delay : Z) (prev : BatchProgress) : BatchProgress :=
  let fileName := JS.replace_first "Generating: " "" <$> currentFileName prev in
  with_label ("Rate limit hit. Retrying " +:+ JS.show fileName +:+ " in "
                +:+ JS.string_of_Z (delay / 1000) +:+ "s... (Attempt "
                +:+ JS.string_of_Z attempt +:+ ")") prev.

(** [generateFunc] of the batch, for the call of row [i]: the retry
    notifications it raises, in order, and how it settles. *)
Definition batch_generateFunc (w : World) (p : Panel) (i : nat)
    (prompt : string) (width height : Z) : list (Z * Z) * JS.Settled :=
  match engine p with
  | public =>
      let '(events, r) :=
        generateWithPublicModel (browser w) prompt width height true
                                (public_transport w i) in
      (notifications events, r)
  | dalle3 =>
      ([], generateWithOpenAICompatibleModel w i prompt (openAiApiKey p)
                                             (openAiApiEndpoint p) "dall-e-3")
  | deepseek =>
      ([], generateWithOpenAICompatibleModel w i prompt (openAiApiKey p)
                                             (openAiApiEndpoint p) "deepseek-image-v1")
  | gemini =>
      ([], generateImageAsset w i prompt width height (geminiApiKey p))
  end.

(** The two variables the loop keeps besides the published state. *)
Record Tally := {
  failures : nat;
  firstErrorMessage : string;
}.

(** How a stretch of the loop ends: still running, or left by an exception
    that nothing catches (the job then stops where it is). *)
Inductive LoopResult :=
| Running (s : Store) (t : Tally)
| Escaped (s : Store) (e : JS.Thrown).

(** The [catch] block: count, remember the first message, append a
    placeholder. [prompt] is still [''] when validation threw. *)
Definition batch_catch (w : World) (f : RowFields) (prompt : string) (e : JS.Thrown)
    (s : Store) (t : Tally) : LoopResult :=
  let errorMessage := JS.message_or e "An unknown error occurred." in
  let t :=
    {| failures := S (failures t);
       firstErrorMessage :=
         if String.eqb (firstErrorMessage t) ""
         then "Error on " +:+ fileName f +:+ ": " +:+ errorMessage
         else firstErrorMessage t |} in
  let placeholderWidth :=
    default 64 (JS.num_or_else (JS.num_or_else (row_width f) (JS.parseInt (widthStr f)))
                               (Some 64)) in
  let placeholderHeight :=
    default 64 (JS.num_or_else (JS.num_or_else (row_height f) (JS.parseInt (heightStr f)))
                               (Some 64)) in
  let placeholder :=
    generatePlaceholder (browser w)
                        (if String.eqb prompt "" then "Invalid prompt data" else prompt)
                        placeholderWidth placeholderHeight in
  match placeholder with
  | JS.Fulfilled placeholderUrl =>
      Running
        (setBatchProgress (with_file {| filename := fileName f; data := placeholderUrl |}) s)
        t
  | JS.Rejected e' => Escaped s e'
  end.

(** One turn of the loop of line 183. The waits of the [finally] block
    publish nothing and are left out. *)
Definition batch_row (w : World) (p : Panel) (i : nat) (row : Row)
    (s : Store) (t : Tally) : LoopResult :=
  let f := read_row i row in
  let s := setBatchProgress (with_current i ("Generating: " +:+ fileName f)) s in
  if row_invalid f then
    batch_catch w f "" (JS.ErrorObj (invalid_row_message i)) s t
  else
    let width := default 0 (row_width f) in
    let height := default 0 (row_height f) in
    let prompt := batch_prompt (masterStyle p) f width height in
    let '(retries, r) := batch_generateFunc w p i prompt width height in
    let s := foldl (fun s n => setBatchProgress (retry_label n.1 n.2) s) s retries in
    match r with
    | JS.Fulfilled imageUrl =>
        Running
          (setBatchProgress (with_file {| filename := fileName f; data := imageUrl |}) s)
          t
    | JS.Rejected e => batch_catch w f prompt e s t
    end.

Fixpoint batch_loop (w : World) (p : Panel) (i : nat) (rows : list Row)
    (s : Store) (t : Tally) : LoopResult :=
  match rows with
  | [] => Running s t
  | row :: rest =>
      match batch_row w p i row s t with
      | Running s t => batch_loop w p (S i) rest s t
      | Escaped s e => Escaped s e
      end
  end.

Definition completion (n : nat) (t : Tally) (s : Store) : Store :=
  if (0 <? failures t)%nat then
    setBatchProgress
      (with_end error
         (Some (JS.string_of_nat (failures t) +:+ " of " +:+ JS.string_of_nat n
                  +:+ " assets failed. First error: " +:+ firstErrorMessage t))
         n "Completed with errors.") s
  else
    setBatchProgress (with_end done None n "Completed!") s.

(** The [complete] callback once the rows are known to be usable. *)
Definition run_rows (w : World) (p : Panel) (rows : list Row) (s : Store) : Store :=
  let s := setBatchProgress (with_total (length rows) "Starting generation...") s in
  match batch_loop w p 0 rows s {| failures := 0; firstErrorMessage := "" |} with
  | Running s t => completion (length rows) t s
  | Escaped s _ => s
  end.

Definition usable_rows (data : list Row) : list Row :=
  List.filter has_content data.

Definition on_parsed (w : World) (p : Panel) (outcome : ParseOutcome) (s : Store)
  : Store :=
  match outcome with
  | Complete (firstError :: _) _ =>
      setBatchProgress
        (fun _ => setup_error ("CSV Parse Error: " +:+ pe_message firstError
                                 +:+ " on row " +:+ row_plus_2 (pe_row firstError)
                                 +:+ ".")) s
  | Complete [] data =>
      let rows := usable_rows data in
      match rows with
      | [] =>
          setBatchProgress
            (fun _ => setup_error "CSV is empty or contains no valid data rows.") s
      | _ :: _ => run_rows w p rows s
      end
  | ParseFailed err =>
      setBatchProgress (fun _ => setup_error ("CSV Parse Error: " +:+ pe_message err)) s
  end.

(** The handler, given what the upload and the CSV parser turn out to do. *)
Definition handleBatchFileUpload (w : World) (p : Panel)
    (parse : string -> ParseOutcome) (upload : Upload) (s : Store) : Store :=
  match upload with
  | NoFile => s
  | File read =>
      let s := setBatchProgress (fun _ => parsing_state) s in
      match read with
      | TextError =>
          setBatchProgress (fun _ => setup_error "Error reading the selected file.") s
      | TextLoaded result =>
          if JS.truthy result
          then on_parsed w p (parse (JS.show result)) s
          else setBatchProgress (fun _ => setup_error "Could not read file content.") s
      end
  end.

(** The store of a page that has shown nothing yet. *)
Definition start_store : Store :=
  {| latest := initialBatchProgress; published := [] |}.

(** The states a job publishes, oldest first. *)
Definition job_states (w : World) (p : Panel) (parse : string -> ParseOutcome)
    (upload : Upload) : list BatchProgress :=
  published (handleBatchFileUpload w p parse upload start_store).

(** The input row set of a job is unusable: the file cannot be read, the
    parser reports an error, or no row has content. *)
Definition input_invalid (parse : string -> ParseOutcome) (read : FileText) : bool :=
  match read with
  | TextError => true
  | TextLoaded result =>
      if JS.truthy result then
        match parse (JS.show result) with
        | Complete (_ :: _) _ => true
        | Complete [] data => bool_decide (usable_rows data = [])
        | ParseFailed _ => true
        end
      else true
  end.

(** The rows a job works through when its input is usable. *)
Definition job_rows (parse : string -> ParseOutcome) (read : FileText) : list Row :=
  match read with
  | TextLoaded result =>
      if JS.truthy result then
        match parse (JS.show result) with
        | Complete [] data => usable_rows data
        | _ => []
        end
      else []
  | TextError => []
  end.

(** ** Notions used to state the batch properties *)

(** What holds of every published state: the files are as many as
    [current] or one more, and a finished state has all three counts equal. *)
Definition state_ok (st : BatchProgress) : Prop :=
  (current st <= length (generatedFiles st) <= current st + 1)%nat
  /\ (status st = done \/ status st = error ->
      current st = total st /\ length (generatedFiles st) = current st).

Definition nondecreasing (l : list nat) : Prop :=
  forall i j x y, (i <= j)%nat -> l !! i = Some x -> l !! j = Some y -> (x <= y)%nat.

(** The published history is in order and the latest state is ahead of it. *)
Definition coherent (s : Store) : Prop :=
  Forall state_ok (published s)
  /\ nondecreasing (current <$> published s)
  /\ Forall (fun st => (current st <= current (latest s))%nat) (published s).

(** The store when the loop is about to take row [i] of [n]. *)
Definition running (n i : nat) (s : Store) : Prop :=
  coherent s
  /\ last (published s) = Some (latest s)
  /\ status (latest s) = processing
  /\ total (latest s) = n
  /\ length (generatedFiles (latest s)) = i
  /\ (current (latest s) <= i)%nat.

(** The checked dimensions and the prompt of a row that passed validation. *)
Definition row_call (w : World) (p : Panel) (i : nat) (row : Row) : JS.Settled :=
  let f := read_row i row in
  let width := default 0 (row_width f) in
  let height := default 0 (row_height f) in
  (batch_generateFunc w p i (batch_prompt (masterStyle p) f width height)
                      width height).2.

(** Row [i] ends in the [catch] block: validation threw or the call was
    rejected. *)
Definition row_fails (w : World) (p : Panel) (i : nat) (row : Row) : bool :=
  row_invalid (read_row i row)
  || match row_call w p i row with
     | JS.Rejected _ => true
     | JS.Fulfilled _ => false
     end.

(** A number read from a cell that JavaScript holds, renders and converts
    as the integer it is: one below 2^53 in absolute value, or no number. *)
Definition safe_integer (n : option Z) : Prop :=
  match n with
  | Some z => - 2 ^ 53 < z < 2 ^ 53
  | None => True
  end.

Definition safe_size (f : RowFields) : Prop :=
  safe_integer (row_width f) /\ safe_integer (row_height f).

(** [entry] is what row [i] must leave in [generatedFiles]: it bears the
    row's file name and, the numbers of the row being safe integers, holds
    a placeholder when the row ends in the [catch] block, and what the
    engine call was fulfilled with otherwise. *)
Definition entry_of_row (w : World) (p : Panel) (i : nat) (row : Row)
    (entry : GeneratedFile) : Prop :=
  filename entry = fileName (read_row i row)
  /\ (safe_size (read_row i row) ->
      if row_fails w p i row
      then exists prompt width height,
             JS.Fulfilled (data entry)
             = generatePlaceholder (browser w) prompt width height
      else JS.Fulfilled (data entry) = row_call w p i row).

(** How many of the rows, numbered from [i], end in the [catch] block. *)
Fixpoint failing_rows (w : World) (p : Panel) (i : nat) (rows : list Row) : nat :=
  match rows with
  | [] => 0
  | row :: rest =>
      (if row_fails w p i row then 1 else 0) + failing_rows w p (S i) rest
  end.

(** ** Example inputs *)

(** Gemini answers every other call; the OpenAI-compatible services reject
    with a non-[Error] value; the public model serves call 0 and answers 500
    afterwards. *)
Definition example_world : World := {|
  browser := example_browser;
  public_transport := fun i _ =>
    if (i =? 0)%nat
    then Responds 200 (BlobOf "image/png" (ReadDone "data:image/png;base64,public"))
    else always_status 500 0;
  generateImageAsset := fun i _ _ _ _ =>
    if Nat.even i then JS.Fulfilled "data:image/png;base64,gemini"
    else JS.Rejected (JS.ErrorObj "Failed to generate image. The API returned an unexpected error.");
  generateWithOpenAICompatibleModel := fun _ _ _ _ _ => JS.Rejected JS.NonError;
|}.

Definition example_panel (e : GenerationEngine) (variations : Z) : Panel := {|
  masterStyle := "retro-futurism, pixel art, vibrant colors";
  assetType := Character;
  characterPart := Head;
  facingDirection := Right;
  width := 64;
  height := 64;
  specificPrompt := "a stoic male hero";
  numberOfVariations := variations;
  engine := e;
  geminiApiKey := "key";
  openAiApiKey := "";
  openAiApiEndpoint := "https://api.openai.com/v1";
|}.

Definition hero_row : Row :=
  <["nama_file" := "hero"]> (<["width" := "64"]> (<["height" := "64"]>
    (<["prompt" := "a stoic hero"]> ∅))).

Definition villain_row : Row :=
  <["filename" := "villain"]> (<["width" := "0"]> (<["height" := "64"]>
    (<["prompt" := "a villain"]> ∅))).

(** A parser that reports the given records and no error. *)
Definition parsed (data : list Row) : string -> ParseOutcome :=
  fun _ => Complete [] data.

Definition example_upload : Upload := File (TextLoaded (Some "csv text")).

(** ** Scene layers ([types.ts], [AppContext.tsx], [LayerPanel.tsx],
    [CanvasPanel.tsx]) *)

Module Scene.

Record Layer := {
  id : string;
  name : string;
  src : string;
  x : Num.number;
  y : Num.number;
  zIndex : Z;
  scale : Num.number;
}.

(** [Partial<Layer>]: the keys an update carries. *)
Record LayerUpdates := {
  new_id : option string;
  new_name : option string;
  new_src : option string;
  new_x : option Num.number;
  new_y : option Num.number;
  new_zIndex : option Z;
  new_scale : option Num.number;
}.

(** [{ ...layer, ...updates }] *)
Definition spread (layer : Layer) (updates : LayerUpdates) : Layer :=
  {| id := default (id layer) (new_id updates);
     name := default (name layer) (new_name updates);
     src := default (src layer) (new_src updates);
     x := default (x layer) (new_x updates);
     y := default (y layer) (new_y updates);
     zIndex := default (zIndex layer) (new_zIndex updates);
     scale := default (scale layer) (new_scale updates) |}.

(** [addLayer]; [uuid] is what [crypto.randomUUID()] returns. *)
Definition addLayer (uuid imageSrc name : string) (prevLayers : list Layer)
  : list Layer :=
  let newLayer :=
    {| id := uuid;
       name := name;
       src := imageSrc;
       x := Num.of_Z 100;
       y := Num.of_Z 100;
       zIndex := Z.of_nat (length prevLayers);
       scale := Num.of_Z 1 |} in
  prevLayers ++ [newLayer].

Definition removeLayer (id_ : string) (prevLayers : list Layer) : list Layer :=
  List.filter (fun layer => negb (String.eqb (id layer) id_)) prevLayers.

Definition updateLayer (id_ : string) (updates : LayerUpdates)
    (prevLayers : list Layer) : list Layer :=
  (fun layer => if String.eqb (id layer) id_ then spread layer updates else layer)
    <$> prevLayers.

(** [xs.splice(start, 0, item)]: a start beyond the end appends. *)
Definition splice_in {A} (start : nat) (item : A) (xs : list A) : list A :=
  take start xs ++ item :: drop start xs.

(** [reorderedLayers.map((layer, idx) => ({ ...layer, zIndex: idx }))] *)
Definition renumber (layers : list Layer) : list Layer :=
  imap (fun idx layer =>
          {| id := id layer; name := name layer; src := src layer;
             x := x layer; y := y layer; zIndex := Z.of_nat idx;
             scale := scale layer |}) layers.

(** The reordering of [handleDragOver] for a dragged index that shows a
    layer ([splice(draggedIndex, 1)[0]] is then that layer). *)
Definition move_layer (draggedIndex index : nat) (draggedItem : Layer)
    (layers : list Layer) : list Layer :=
  renumber (splice_in index draggedItem (delete draggedIndex layers)).

(** [handleDragOver] of the layer panel: the new layers and the new
    [draggedIndex]. [None] as a result stands for the one case left out: a
    dragged index that shows no layer, where the code would insert
    [undefined]; the panel only ever records indices of the rows it shows. *)
Definition handleDragOver (draggedIndex : option nat) (index : nat)
    (layers : list Layer) : option (list Layer * option nat) :=
  match draggedIndex with
  | None => Some (layers, None)
  | Some dragged =>
      if (dragged =? index)%nat then Some (layers, draggedIndex)
      else
        match layers !! dragged with
        | Some draggedItem =>
            Some (move_layer dragged index draggedItem layers, Some index)
        | None => None
        end
  end.

(** The decimal literal [0.1]. *)
Definition lit_0_1 : Num.number :=
  Eval vm_compute in Num.div (Num.of_Z 1) (Num.of_Z 10).

Definition only_scale (s : Num.number) : LayerUpdates :=
  {| new_id := None; new_name := None; new_src := None; new_x := None;
     new_y := None; new_zIndex := None; new_scale := Some s |}.

(** [handleScaleChange]; [newScale] is what [parseFloat] made of the field. *)
Definition handleScaleChange (id_ : string) (newScale : Num.number)
    (layers : list Layer) : list Layer :=
  updateLayer id_ (only_scale (Num.max lit_0_1 newScale)) layers.

(** Where a layer goes in a list in ascending [zIndex] order when it
    stood before all of it. *)
Fixpoint insert_by_zIndex (layer : Layer) (sorted : list Layer) : list Layer :=
  match sorted with
  | [] => [layer]
  | first :: rest =>
      if zIndex layer <=? zIndex first then layer :: sorted
      else first :: insert_by_zIndex layer rest
  end.

(** [[...layers].sort((a, b) => a.zIndex - b.zIndex)]: the sort of the
    language is stable, so its result is the one a stable insertion gives. *)
Definition sortedLayers (layers : list Layer) : list Layer :=
  foldr insert_by_zIndex [] layers.

(** [prompt.substring(0, 30)] *)
Fixpoint substring_from_0 (n : nat) (s : string) : string :=
  match n, s with
  | S n', String c rest => String c (substring_from_0 n' rest)
  | _, _ => EmptyString
  end.

(** Dragging a gallery image onto the canvas: [handleDragStart] of the
    generator panel puts the source and the first 30 characters of the
    prompt on the transfer, [handleDrop] of the canvas adds the layer when
    the source is not empty and the canvas is mounted. The drop position is
    computed and not used. *)
Definition handleDrop (uuid : string) (imageSrc prompt : string) (mounted : bool)
    (layers : list Layer) : list Layer :=
  let name := substring_from_0 30 prompt in
  if JS.truthy (Some imageSrc) && mounted
  then addLayer uuid imageSrc name layers
  else layers.

(** The z-indexes are the positions, as after a reordering. *)
Definition normalised (layers : list Layer) : Prop :=
  forall i layer, layers !! i = Some layer -> zIndex layer = Z.of_nat i.

(** The order the canvas stacks in. *)
Definition by_zIndex (a b : Layer) : Prop := zIndex a <= zIndex b.

(** A layer without its z-index. *)
Definition content (layer : Layer)
  : string * string * string * Num.number * Num.number * Num.number :=
  (id layer, name layer, src layer, x layer, y layer, scale layer).

Inductive EffectKey := scanlines | vignette | halftone | chromaticAberration | filmGrain.

Record PostProcessingEffects := {
  has_scanlines : bool;
  has_vignette : bool;
  has_halftone : bool;
  has_chromaticAberration : bool;
  has_filmGrain : bool;
}.

Definition effect_on (effect : EffectKey) (e : PostProcessingEffects) : bool :=
  match effect with
  | scanlines => has_scanlines e
  | vignette => has_vignette e
  | halftone => has_halftone e
  | chromaticAberration => has_chromaticAberration e
  | filmGrain => has_filmGrain e
  end.

(** [{ ...prev, [effect]: !prev[effect] }] *)
Definition toggleEffect (effect : EffectKey) (prev : PostProcessingEffects)
  : PostProcessingEffects :=
  match effect with
  | scanlines =>
      {| has_scanlines := negb (has_scanlines prev); has_vignette := has_vignette prev;
         has_halftone := has_halftone prev;
         has_chromaticAberration := has_chromaticAberration prev;
         has_filmGrain := has_filmGrain prev |}
  | vignette =>
      {| has_scanlines := has_scanlines prev; has_vignette := negb (has_vignette prev);
         has_halftone := has_halftone prev;
         has_chromaticAberration := has_chromaticAberration prev;
         has_filmGrain := has_filmGrain prev |}
  | halftone =>
      {| has_scanlines := has_scanlines prev; has_vignette := has_vignette prev;
         has_halftone := negb (has_halftone prev);
         has_chromaticAberration := has_chromaticAberration prev;
         has_filmGrain := has_filmGrain prev |}
  | chromaticAberration =>
      {| has_scanlines := has_scanlines prev; has_vignette := has_vignette prev;
         has_halftone := has_halftone prev;
         has_chromaticAberration := negb (has_chromaticAberration prev);
         has_filmGrain := has_filmGrain prev |}
  | filmGrain =>
      {| has_scanlines := has_scanlines prev; has_vignette := has_vignette prev;
         has_halftone := has_halftone prev;
         has_chromaticAberration := has_chromaticAberration prev;
         has_filmGrain := negb (has_filmGrain prev) |}
  end.

End Scene.

(** Three layers as three drops on an empty canvas leave them. *)
Definition example_layers : list Scene.Layer :=
  Scene.addLayer "id-c" "data:c" "sword"
    (Scene.addLayer "id-b" "data:b" "body"
       (Scene.addLayer "id-a" "data:a" "head" [])).

(** ** More string operations *)

Module Str.

(** [toLowerCase] on one code unit below 256: the ASCII capitals and the
    Latin-1 capitals (192 to 222 but 215) go 32 up. *)
Definition lower_char (c : ascii) : ascii :=
  let n := N_of_ascii c in
  if ((65 <=? n) && (n <=? 90))%N
     || ((192 <=? n) && (n <=? 222) && negb (n =? 215))%N
  then ascii_of_N (n + 32)
  else c.

Fixpoint toLowerCase (s : string) : string :=
  match s with
  | String c rest => String (lower_char c) (toLowerCase rest)
  | EmptyString => EmptyString
  end.

(** [s.includes(pat)] *)
Fixpoint includes (pat s : string) : bool :=
  JS.startsWith pat s
  || match s with
     | String _ rest => includes pat rest
     | EmptyString => false
     end.

Definition reversed (s : string) : string :=
  string_of_list_ascii (rev (list_ascii_of_string s)).

(** The white space and line terminators that [trim] removes, among the
    code units below 256: tab to carriage return, space, no-break space. *)
Definition is_white (c : ascii) : bool := JS.is_space c.

Fixpoint skip_white (s : string) : string :=
  match s with
  | String c r => if is_white c then skip_white r else s
  | EmptyString => s
  end.

(** [s.trim()] *)
Definition trim (s : string) : string :=
  reversed (skip_white (reversed (skip_white s))).

(** [s.replace(/\/$/, '')]: one slash at the very end goes. *)
Fixpoint strip_final_slash (s : string) : string :=
  match s with
  | String c rest =>
      if String.eqb s "/" then EmptyString else String c (strip_final_slash rest)
  | EmptyString => EmptyString
  end.

End Str.

(** ** Imagen through the Gemini SDK ([geminiService.ts], lines 22-64) *)

Module Gemini.

(** The argument of [ai.models.generateImages]. *)
Record ImagesRequest := {
  req_model : string;
  req_prompt : string;
  req_numberOfImages : Z;
  req_outputMimeType : string;
  req_aspectRatio : string;
}.

(** What the SDK call does: a response with its [generatedImages], each
    given by its [image.imageBytes], or a throw. *)
Inductive SdkResult :=
| Response (generatedImages : option (list string))
| SdkThrows (e : JS.Thrown).

Definition not_configured : string :=
  "Gemini API key is not configured. Please set it in the settings panel.".
Definition quota_zero : string :=
  "API Key Error (429): Your quota is 0 requests/minute. Please verify your Google AI Studio project has billing enabled and the API is active.".
Definition rate_limited : string :=
  "Rate limit exceeded (429). You may have exceeded your quota. Please check your plan/billing and try again later.".
Definition invalid_key : string :=
  "Invalid Gemini API key. Please check your key in the settings.".
Definition unexpected : string :=
  "Failed to generate image. The API returned an unexpected error.".

(** The [catch] block: the message the caller gets for what was thrown. *)
Definition classify (error : JS.Thrown) : string :=
  match error with
  | JS.ErrorObj message =>
      let errorMessage := Str.toLowerCase message in
      if Str.includes "429" errorMessage || Str.includes "resource_exhausted" errorMessage
      then if Str.includes "limit: 0" errorMessage then quota_zero else rate_limited
      else if Str.includes "api key not valid" errorMessage then invalid_key
      else unexpected
  | JS.NonError => unexpected
  end.

Definition request (prompt : string) (width height : Num.number) : ImagesRequest :=
  {| req_model := "imagen-4.0-generate-001";
     req_prompt := prompt;
     req_numberOfImages := 1;
     req_outputMimeType := "image/png";
     req_aspectRatio := aspect_key (getClosestAspectRatio width height) |}.

(** The calls made to the SDK and the way the promise settles. *)
Definition generateImageAsset (sdk : ImagesRequest -> SdkResult)
    (prompt : string) (width height : Num.number) (apiKey : string)
  : list ImagesRequest * JS.Settled :=
  if JS.truthy (Some apiKey) then
    let r := request prompt width height in
    match sdk r with
    | Response (Some (base64ImageBytes :: _)) =>
        ([r], JS.Fulfilled ("data:image/png;base64," +:+ base64ImageBytes))
    | Response _ =>
        ([r], JS.Rejected (JS.ErrorObj (classify (JS.ErrorObj "No image was generated."))))
    | SdkThrows e => ([r], JS.Rejected (JS.ErrorObj (classify e)))
    end
  else ([], JS.Rejected (JS.ErrorObj not_configured)).

End Gemini.

(** ** OpenAI-compatible services ([openaiService.ts]) *)

Module OpenAI.

Definition OPENAI_COMPATIBLE_SIZE : string := "1024x1024".

(** A parsed URL, as its serialisation is put together: [origin] is all
    that stands before the path (scheme, credentials, host and port), then
    the path, then the query with the fragment. [opaque_path] marks a URL
    whose path is opaque, as that of an endpoint typed without [//] after
    its scheme: in [localhost:8080/v1] the scheme is [localhost]. *)
Record URL := {
  origin : string;
  pathname : string;
  search_hash : string;
  opaque_path : bool;
}.

Definition href (u : URL) : string := origin u +:+ pathname u +:+ search_hash u.

(** The POST the function sends. *)
Record Request := {
  req_url : string;
  req_authorization : string;
  req_model : string;
  req_prompt : string;
  req_n : Z;
  req_size : string;
  req_response_format : string;
  req_quality : string;
}.

(** The JSON of a response as the code reads it: [error?.message] and
    [data], each item given by its [b64_json]. *)
Record Body := {
  error_message : option string;
  data : option (list (option string));
}.

Inductive JsonResult :=
| Json (body : Body)
| JsonThrows (e : JS.Thrown).

Inductive Exchange :=
| Replies (status : Z) (json : JsonResult)
| FetchThrows (e : JS.Thrown).

(** The network as this function meets it: [new URL(endpoint)] gives a URL
    or throws a [TypeError] with a message; [fetch] answers or throws. *)
Record Net := {
  new_URL : string -> URL + string;
  fetch : Request -> Exchange;
}.

Definition no_key : string :=
  "OpenAI API key is not configured. Please set it in the settings panel.".

(** The outer [catch]: every throw of the body leaves through it. *)
Definition rethrow (model : string) (error : JS.Thrown) : JS.Settled :=
  match error with
  | JS.ErrorObj message =>
      JS.Rejected (JS.ErrorObj (model +:+ " generation failed: " +:+ message))
  | JS.NonError =>
      JS.Rejected (JS.ErrorObj ("An unknown error occurred while generating with "
                                  +:+ model +:+ "."))
  end.

(** [apiUrl.pathname = `${apiUrl.pathname.replace(/\/$/, '')}/images/generations`];
    the setter does nothing on a URL with an opaque path. *)
Definition images_url (u : URL) : URL :=
  if opaque_path u then u
  else
    {| origin := origin u;
       pathname := Str.strip_final_slash (pathname u) +:+ "/images/generations";
       search_hash := search_hash u;
       opaque_path := false |}.

Definition request (u : URL) (prompt apiKey model : string) : Request :=
  {| req_url := href (images_url u);
     req_authorization := "Bearer " +:+ apiKey;
     req_model := model;
     req_prompt := prompt;
     req_n := 1;
     req_size := OPENAI_COMPATIBLE_SIZE;
     req_response_format := "b64_json";
     req_quality := "standard" |}.

(** The throw of the [!response.ok] branch. *)
Definition status_error (model : string) (status : Z) (body : Body) : string :=
  let errorMessage :=
    JS.show (JS.or_else (error_message body)
               (Some ("API failed with status: " +:+ JS.string_of_Z status))) in
  if status =? 401 then "Invalid API key (401). Please check your key."
  else if status =? 429 then
    if Str.includes "billing" errorMessage
    then "Billing issue (429): Please check your credit balance or plan."
    else "Rate limit exceeded for " +:+ model +:+ " API (429). Please try again later."
  else errorMessage.

(** The requests sent and the way the promise settles. *)
Definition generateWithOpenAICompatibleModel (net : Net)
    (prompt apiKey endpoint model : string) : list Request * JS.Settled :=
  if JS.truthy (Some apiKey) then
    match new_URL net endpoint with
    | inr typeError => ([], rethrow model (JS.ErrorObj typeError))
    | inl apiUrl =>
        let r := request apiUrl prompt apiKey model in
        match fetch net r with
        | FetchThrows e => ([r], rethrow model e)
        | Replies status json =>
            match json with
            | JsonThrows e => ([r], rethrow model e)
            | Json body =>
                if response_ok status then
                  match data body with
                  | Some (Some b64_json :: _) =>
                      if JS.truthy (Some b64_json)
                      then ([r], JS.Fulfilled ("data:image/png;base64," +:+ b64_json))
                      else ([r], rethrow model
                                   (JS.ErrorObj ("No image data received from "
                                                   +:+ model +:+ ".")))
                  | _ =>
                      ([r], rethrow model
                              (JS.ErrorObj ("No image data received from "
                                              +:+ model +:+ ".")))
                  end
                else ([r], rethrow model (JS.ErrorObj (status_error model status body)))
            end
        end
    end
  else ([], rethrow model (JS.ErrorObj no_key)).

End OpenAI.

(** A world whose remote services are the two functions above, each call
    meeting its own SDK or network. *)
Definition world_of (b : Browser) (transport : nat -> Z -> Exchange)
    (sdk : nat -> Gemini.ImagesRequest -> Gemini.SdkResult)
    (net : nat -> OpenAI.Net) : World :=
  {| browser := b;
     public_transport := transport;
     generateImageAsset := fun i prompt width height apiKey =>
       (Gemini.generateImageAsset (sdk i) prompt (Num.of_Z width) (Num.of_Z height)
                                  apiKey).2;
     generateWithOpenAICompatibleModel := fun i prompt apiKey endpoint model =>
       (OpenAI.generateWithOpenAICompatibleModel (net i) prompt apiKey endpoint model).2
  |}.

(** ** What a batch run leaves, row by row *)

(** The side of the placeholder of the [catch] block,
    [width || parseInt(widthStr) || 64], for a row whose [width] is
    [parseInt(widthStr)]. *)
Definition placeholder_side (n : option Z) : Z :=
  default 64 (JS.num_or_else (JS.num_or_else n n) (Some 64)).

Definition row_placeholder (w : World) (f : RowFields) : string :=
  toDataURL (browser w)
            (placeholder_canvas (browser w) (placeholder_side (row_width f))
                                (placeholder_side (row_height f))).

(** The message the [catch] block sees for row [i], if the row gets there. *)
Definition row_error (w : World) (p : Panel) (i : nat) (row : Row) : option string :=
  if row_invalid (read_row i row) then Some (invalid_row_message i)
  else match row_call w p i row with
       | JS.Rejected e => Some (JS.message_or e "An unknown error occurred.")
       | JS.Fulfilled _ => None
       end.

(** The file row [i] adds to [generatedFiles]. *)
Definition row_output (w : World) (p : Panel) (i : nat) (row : Row) : GeneratedFile :=
  let f := read_row i row in
  {| filename := fileName f;
     data := if row_invalid f then row_placeholder w f
             else match row_call w p i row with
                  | JS.Fulfilled imageUrl => imageUrl
                  | JS.Rejected _ => row_placeholder w f
                  end |}.

Fixpoint row_outputs (w : World) (p : Panel) (i : nat) (rows : list Row)
  : list GeneratedFile :=
  match rows with
  | [] => []
  | row :: rest => row_output w p i row :: row_outputs w p (S i) rest
  end.

(** The text kept in [firstErrorMessage] by the first row, numbered from
    [i], that ends in the [catch] block. *)
Fixpoint first_failure (w : World) (p : Panel) (i : nat) (rows : list Row)
  : option string :=
  match rows with
  | [] => None
  | row :: rest =>
      match row_error w p i row with
      | Some message =>
          Some ("Error on " +:+ fileName (read_row i row) +:+ ": " +:+ message)
      | None => first_failure w p (S i) rest
      end
  end.

(** [firstErrorMessage] once a stretch of rows with the given first failure
    has run: only an empty one is written. *)
Definition remember (t : Tally) (failure : option string) : string :=
  if String.eqb (firstErrorMessage t) "" then default "" failure
  else firstErrorMessage t.

(** ** Uploading images ([GeneratorPanel.tsx], lines 261-283) *)

(** A [File] of the dropped [FileList], with what its [FileReader] does:
    [ReadFailed] is a reader whose [load] event never comes. *)
Record UploadedFile := {
  file_type : string;
  file_name : string;
  file_read : FileRead;
}.

(** The two variables the [onload] callbacks share, and the argument of
    [setGeneratedImages] once it has been called. *)
Record UploadState := {
  newImages : list Image;
  loadedCount : nat;
  gallery_set : option (list Image);
}.

(** [reader.onload] of the file at position [k] of [imageFiles]. *)
Definition onload (imageFiles : list UploadedFile) (generatedImages : list Image)
    (st : UploadState) (k : nat) : UploadState :=
  match imageFiles !! k with
  | Some file =>
      match file_read file with
      | ReadDone src =>
          let newImages :=
            if JS.truthy (Some src)
            then newImages st ++ [{| src := src; prompt := file_name file |}]
            else newImages st in
          let loadedCount := S (loadedCount st) in
          {| newImages := newImages;
             loadedCount := loadedCount;
             gallery_set :=
               if (loadedCount =? length imageFiles)%nat
               then Some (generatedImages ++ newImages)
               else gallery_set st |}
      | ReadFailed => st
      end
  | None => st
  end.

(** The handler; [order] lists the positions in [imageFiles] in the order
    in which the [load] events arrive. [None] when [setGeneratedImages] is
    never called. *)
Definition handleUserUpload (files : option (list UploadedFile)) (order : list nat)
    (generatedImages : list Image) : option (list Image) :=
  match files with
  | None => None
  | Some files =>
      let imageFiles :=
        List.filter (fun file => JS.startsWith "image/" (file_type file)) files in
      if (length imageFiles =? 0)%nat then None
      else gallery_set
             (foldl (onload imageFiles generatedImages)
                    {| newImages := []; loadedCount := 0; gallery_set := None |} order)
  end.

(** The gallery entry of a file that was read. *)
Definition image_of (file : UploadedFile) : option Image :=
  match file_read file with
  | ReadDone src =>
      if JS.truthy (Some src) then Some {| src := src; prompt := file_name file |}
      else None
  | ReadFailed => None
  end.

(** ** Settings ([AppContext.tsx], lines 101-105) *)

(** The endpoint that is kept in the state and in [sessionStorage]. *)
Definition setOpenAiApiEndpoint (endpoint : string) : string :=
  if (0 <? String.length (Str.trim endpoint))%nat
  then Str.trim endpoint
  else "https://api.openai.com/v1".

(** ** Unpacking a data URL ([GeneratorPanel.tsx], lines 285-294) *)

Module DataURL.

(** [s.split(sep)] for a separator of one character. *)
Fixpoint split (sep : ascii) (s : string) : list string :=
  match s with
  | EmptyString => [EmptyString]
  | String c rest =>
      if Ascii.eqb c sep then EmptyString :: split sep rest
      else match split sep rest with
           | part :: parts => String c part :: parts
           | [] => [String c EmptyString]
           end
  end.

(** The characters [.] does not match, among the code units below 256. *)
Definition is_line_terminator (c : ascii) : bool :=
  Ascii.eqb c "010" || Ascii.eqb c "013".

(** The group of [(.*?);] matched right here: the text before the first
    [;], if no line ends before it. *)
Fixpoint up_to_semicolon (s : string) : option string :=
  match s with
  | EmptyString => None
  | String c rest =>
      if Ascii.eqb c ";" then Some EmptyString
      else if is_line_terminator c then None
      else String c <$> up_to_semicolon rest
  end.

(** [s.match(/:(.*?);/)]: the group of the leftmost match, [None] for
    [null]. *)
Fixpoint match_mime (s : string) : option string :=
  match s with
  | EmptyString => None
  | String c rest =>
      if Ascii.eqb c ":" then
        match up_to_semicolon rest with
        | Some mime => Some mime
        | None => match_mime rest
        end
      else match_mime rest
  end.

(** The arguments of [new Blob([u8arr], { type: mime })]. *)
Record BlobArgs := {
  u8arr : list Z;
  blob_type : string;
}.

(** [atob] gives the decoded binary string, or throws ([None]). The
    function throws, [None], on a failed match (the [!] on [null]) and when
    [atob] does. A missing [arr[1]] reaches [atob] as [undefined]. *)
Definition dataURLtoBlob (atob : string -> option string) (dataurl : string)
  : option BlobArgs :=
  let arr := split "," dataurl in
  match match_mime (default EmptyString (arr !! 0%nat)) with
  | None => None
  | Some mime =>
      match atob (JS.show (arr !! 1%nat)) with
      | None => None
      | Some bstr => Some {| u8arr := char_codes bstr; blob_type := mime |}
      end
  end.

(** No character of [s] is one of [bad]. *)
Definition lacks (bad : list ascii) (s : string) : bool :=
  forallb (fun c => negb (existsb (Ascii.eqb c) bad)) (list_ascii_of_string s).

End DataURL.

(** An answer after which the retry loop goes on: status 429 or 500 and
    above, a 2xx body that is no image or cannot be read as a blob, or a
    network error. *)
Definition transient (x : Exchange) : Prop :=
  match x with
  | Responds status blob =>
      if response_ok status
      then match blob with
           | BlobOf type _ => JS.startsWith "image/" type = false
           | BlobThrows _ => True
           end
      else status = 429 \/ 500 <= status
  | Throws _ => True
  end.

(** The label of the first retry of a file. *)
Definition first_retry_label (fileName : string) : string :=
  "Rate limit hit. Retrying " +:+ fileName +:+ " in 2s... (Attempt 1)".


(** ** Header normalisation ([GeneratorPanel.tsx], line 140) *)

(** What [[\s-]] matches, among the code units below 256. *)
Definition is_separator (c : ascii) : bool :=
  Str.is_white c || Ascii.eqb c "-".

(** [s.replace(/[\s-]+/g, '_')]; [in_run] tells that the character before
    belongs to the run being replaced. *)
Fixpoint underscore_runs (in_run : bool) (s : string) : string :=
  match s with
  | String c rest =>
      if is_separator c then
        if in_run then underscore_runs true rest
        else String "_" (underscore_runs true rest)
      else String c (underscore_runs false rest)
  | EmptyString => EmptyString
  end.

(** [header.trim().toLowerCase().replace(/[\s-]+/g, '_')] *)
Definition transformHeader (header : string) : string :=
  underscore_runs false (Str.toLowerCase (Str.trim header)).

(** * Properties *)

(** ** 32-bit arithmetic of the seed *)

Module SeedFacts.

Lemma toInt32_mod (x : Z) : JS.toInt32 x mod 2 ^ 32 = x mod 2 ^ 32.
Proof.
  unfold JS.toInt32.
  destruct (Z.ltb_spec (x mod 2 ^ 32) (2 ^ 31)) as [Hlt | Hge].
  - apply Z.mod_mod. lia.
  - replace (x mod 2 ^ 32 - 2 ^ 32) with (x mod 2 ^ 32 + (-1) * 2 ^ 32) by ring.
    rewrite Z.mod_add by lia. apply Z.mod_mod. lia.
Qed.

Lemma toInt32_congr (x y : Z) :
  x mod 2 ^ 32 = y mod 2 ^ 32 -> JS.toInt32 x = JS.toInt32 y.
Proof. unfold JS.toInt32. intros ->. reflexivity. Qed.

Lemma toInt32_range (x : Z) : - 2 ^ 31 <= JS.toInt32 x < 2 ^ 31.
Proof.
  unfold JS.toInt32.
  pose proof (Z.mod_pos_bound x (2 ^ 32) ltac:(lia)) as Hb.
  destruct (Z.ltb_spec (x mod 2 ^ 32) (2 ^ 31)); lia.
Qed.

Lemma shl_5 (h : Z) : JS.shl h 5 mod 2 ^ 32 = (h * 32) mod 2 ^ 32.
Proof.
  unfold JS.shl. rewrite toInt32_mod.
  change (5 mod 32) with 5. rewrite Z.shiftl_mul_pow2 by lia.
  change (2 ^ 5) with 32.
  rewrite Z.mul_mod by lia. rewrite toInt32_mod.
  rewrite <- Z.mul_mod by lia. reflexivity.
Qed.

(** The shift-and-subtract of the code is the multiplication by 31 of the
    specification, once both are cut to 32 bits. *)
Lemma seed_step_31 (hash char : Z) :
  seed_step hash char = JS.toInt32 (hash * 31 + char).
Proof.
  unfold seed_step. apply toInt32_congr.
  replace (JS.shl hash 5 - hash + char) with (JS.shl hash 5 + (char - hash)) by ring.
  rewrite Z.add_mod by lia. rewrite shl_5. rewrite <- Z.add_mod by lia.
  f_equal. ring.
Qed.

Lemma fold_seed_step (str : code_units) (h : Z) :
  fold_left seed_step str h
  = fold_left (fun hash char => JS.toInt32 (hash * 31 + char)) str h.
Proof.
  revert h. induction str as [| c str IH]; intros h; simpl.
  - reflexivity.
  - rewrite seed_step_31. apply IH.
Qed.

Lemma fold_seed_range (str : code_units) (h : Z) :
  - 2 ^ 31 <= h < 2 ^ 31 ->
  - 2 ^ 31 <= fold_left seed_step str h < 2 ^ 31.
Proof.
  revert h. induction str as [| c str IH]; intros h Hh; simpl.
  - exact Hh.
  - apply IH. unfold seed_step. apply toInt32_range.
Qed.

End SeedFacts.

(** C8. For every prompt, given as the code units [charCodeAt] reads, the
    seed is the absolute value of the fold [hash = hash*31 + charCode] cut
    to 32 signed bits at every step; it is a non-negative integer of at
    most 2^31, and it is a function of the prompt alone: all derivations on
    the same prompt give this one value. *)
Theorem stringToSeed_is_spec_fold (str : code_units) :
  stringToSeed str = Z.abs (spec_seed_fold str)
  /\ 0 <= stringToSeed str <= 2 ^ 31.
Proof.
  unfold stringToSeed, spec_seed_fold. split.
  - rewrite SeedFacts.fold_seed_step. reflexivity.
  - pose proof (SeedFacts.fold_seed_range str 0 ltac:(lia)). lia.
Qed.

(** ** Order and NaN facts about binary64 *)

Module NumFacts.

Lemma compare_cont_Eq (m n : positive) : Pos.compare_cont Eq m n = (m ?= n)%positive.
Proof. reflexivity. Qed.

Ltac order_cases :=
  repeat match goal with
    | H : context [Pos.compare_cont Eq ?a ?b] |- _ =>
        change (Pos.compare_cont Eq a b) with (Pos.compare a b) in H
    | |- context [Pos.compare_cont Eq ?a ?b] =>
        change (Pos.compare_cont Eq a b) with (Pos.compare a b)
    | H : context [Z.compare ?a ?b] |- _ =>
        destruct (Z.compare_spec a b); try discriminate H
    | |- context [Z.compare ?a ?b] =>
        destruct (Z.compare_spec a b)
    | H : context [Pos.compare ?a ?b] |- _ =>
        destruct (Pos.compare_spec a b); try discriminate H
    | |- context [Pos.compare ?a ?b] =>
        destruct (Pos.compare_spec a b)
    end.

Lemma SFltb_irrefl (x : spec_float) : SFltb x x = false.
Proof.
  unfold SFltb. destruct x as [s | s | | s m e]; simpl; try destruct s; try reflexivity;
    rewrite Z.compare_refl, compare_cont_Eq, Pos.compare_refl; reflexivity.
Qed.

Lemma SFltb_trans (x y z : spec_float) :
  SFltb x y = true -> SFltb y z = true -> SFltb x z = true.
Proof.
  unfold SFltb.
  destruct x as [sx | sx | | sx mx ex], y as [sy | sy | | sy my ey],
           z as [sz | sz | | sz mz ez]; simpl;
    try destruct sx; try destruct sy; try destruct sz; simpl;
    try discriminate; try reflexivity;
    intros H1 H2;
    order_cases; simpl in *; try discriminate; try reflexivity; try lia.
Qed.

(** Among numbers that are not NaN, not being above is being below or equal. *)
Lemma SFltb_neg_trans (x y z : spec_float) :
  Num.is_nan z = false ->
  SFltb x y = true -> SFltb z y = false -> SFltb x z = true.
Proof.
  unfold SFltb.
  destruct x as [sx | sx | | sx mx ex], y as [sy | sy | | sy my ey],
           z as [sz | sz | | sz mz ez]; simpl;
    try destruct sx; try destruct sy; try destruct sz; simpl;
    try discriminate; try reflexivity;
    intros Hz H1 H2;
    order_cases; simpl in *; try discriminate; try reflexivity; try lia.
Qed.

Lemma shr_1_nonneg (mrs : shr_record) : 0 <= shr_m mrs -> 0 <= shr_m (shr_1 mrs).
Proof.
  destruct mrs as [m r s]. simpl.
  destruct m as [| p | p]; try destruct p; simpl; lia.
Qed.

Lemma iter_shr_1_nonneg (p : positive) (mrs : shr_record) :
  0 <= shr_m mrs -> 0 <= shr_m (SpecFloat.iter_pos shr_1 p mrs).
Proof.
  revert mrs. induction p as [p IH | p IH |]; intros mrs H; simpl.
  - apply IH, IH, shr_1_nonneg, H.
  - apply IH, IH, H.
  - apply shr_1_nonneg, H.
Qed.

Lemma shr_nonneg (mrs : shr_record) (e n : Z) :
  0 <= shr_m mrs -> 0 <= shr_m (shr mrs e n).1.
Proof.
  intros H. unfold shr. destruct n; simpl; auto using iter_shr_1_nonneg.
Qed.

Lemma shr_record_of_loc_m (m : Z) (l : location) : shr_m (shr_record_of_loc m l) = m.
Proof. destruct l as [| []]; reflexivity. Qed.

Lemma shr_fexp_nonneg (prec emax m e : Z) (l : location) :
  0 <= m -> 0 <= shr_m (shr_fexp prec emax m e l).1.
Proof.
  intros H. unfold shr_fexp. apply shr_nonneg. rewrite shr_record_of_loc_m. exact H.
Qed.

Lemma round_nearest_even_nonneg (m : Z) (l : location) :
  0 <= m -> 0 <= round_nearest_even m l.
Proof.
  intros H. unfold round_nearest_even.
  destruct l as [| []]; try destruct (Z.even m); lia.
Qed.

Lemma binary_round_aux_not_nan (prec emax : Z) (sx : bool) (mx ex : Z) (lx : location) :
  0 <= mx -> Num.is_nan (binary_round_aux prec emax sx mx ex lx) = false.
Proof.
  intros H. unfold binary_round_aux.
  pose proof (shr_fexp_nonneg prec emax mx ex lx H) as H1.
  destruct (shr_fexp prec emax mx ex lx) as [mrs' e']. simpl in H1.
  pose proof (shr_fexp_nonneg prec emax _ e' loc_Exact
                (round_nearest_even_nonneg _ (loc_of_shr_record mrs') H1)) as H2.
  destruct (shr_fexp prec emax _ e' loc_Exact) as [mrs'' e'']. simpl in H2.
  destruct (shr_m mrs'') as [| m | m]; try reflexivity.
  - destruct (e'' <=? emax - prec); reflexivity.
  - lia.
Qed.

Lemma binary_normalize_not_nan (prec emax m e : Z) (szero : bool) :
  Num.is_nan (binary_normalize prec emax m e szero) = false.
Proof.
  unfold binary_normalize. destruct m as [| p | p]; try reflexivity;
    unfold binary_round;
    destruct (shl_align _ _ _) as [mz ez];
    apply binary_round_aux_not_nan; lia.
Qed.

(** Subtracting from a finite number gives NaN only when the subtrahend is. *)
Lemma sub_finite_nan (s : bool) (m : positive) (e : Z) (t : Num.number) :
  Num.is_nan (Num.sub (S754_finite s m e) t) = Num.is_nan t.
Proof.
  unfold Num.sub, SFsub. destruct t as [st | st | | st mt et]; try reflexivity.
  apply binary_normalize_not_nan.
Qed.

Lemma abs_nan (x : Num.number) : Num.is_nan (Num.abs x) = Num.is_nan x.
Proof. destruct x; reflexivity. Qed.

End NumFacts.

(** ** Left-to-right selection of a least element *)

Section ArgMin.

Context {K : Type} (lt : K -> K -> bool).
Hypothesis lt_irrefl : forall a, lt a a = false.
Hypothesis lt_trans : forall a b c, lt a b = true -> lt b c = true -> lt a c = true.
Hypothesis lt_neg_trans :
  forall a b c, lt a b = true -> lt c b = false -> lt a c = true.

Lemma earliest_min_step (seen : list K) (b curr : K) :
  earliest_min lt seen b ->
  earliest_min lt (seen ++ [curr]) (if lt curr b then curr else b).
Proof.
  intros [(pre & post & Hseen & Hpre) Hmin].
  destruct (lt curr b) eqn:Hcb.
  - split.
    + exists seen, []. split; [reflexivity |].
      intros c Hc. apply lt_neg_trans with b; auto.
    + intros c Hc. apply in_app_or in Hc as [Hc | [<- | []]].
      * destruct (lt c curr) eqn:Hcc; [| reflexivity].
        rewrite <- (Hmin c Hc). symmetry. eapply lt_trans; eauto.
      * apply lt_irrefl.
  - split.
    + exists pre, (post ++ [curr]). split; [| exact Hpre].
      rewrite Hseen, <- app_assoc. reflexivity.
    + intros c Hc. apply in_app_or in Hc as [Hc | [<- | []]]; auto.
Qed.

Lemma earliest_min_fold (rest seen : list K) (b : K) :
  earliest_min lt seen b ->
  earliest_min lt (seen ++ rest)
    (fold_left (fun prev curr => if lt curr prev then curr else prev) rest b).
Proof.
  revert seen b. induction rest as [| curr rest IH]; intros seen b H; simpl.
  - rewrite app_nil_r. exact H.
  - replace (seen ++ curr :: rest) with ((seen ++ [curr]) ++ rest)
      by (rewrite <- app_assoc; reflexivity).
    apply IH, earliest_min_step, H.
Qed.

Lemma earliest_min_reduce (x : K) (rest : list K) :
  earliest_min lt (x :: rest)
    (JS.reduce (fun prev curr => if lt curr prev then curr else prev) (x :: rest) x).
Proof.
  unfold JS.reduce. apply (earliest_min_fold rest [x] x). split.
  - exists [], []. split; [reflexivity | intros c []].
  - intros c [<- | []]. apply lt_irrefl.
Qed.

End ArgMin.

(** ** Aspect-ratio snapping *)

Module AspectFacts.

(** The distances to the five ratios are NaN together or not at all. *)
Lemma ratio_diff_nan (t : Num.number) (k : AspectRatio) :
  Num.is_nan (ratio_diff t k) = Num.is_nan t.
Proof.
  unfold ratio_diff. rewrite NumFacts.abs_nan.
  destruct k; apply NumFacts.sub_finite_nan.
Qed.

Lemma ltb_nan_l (x y : Num.number) : Num.is_nan x = true -> Num.ltb x y = false.
Proof. destruct x; try discriminate. reflexivity. Qed.

Lemma diff_lt_neg_trans (t : Num.number) (a b c : AspectRatio) :
  Num.ltb (ratio_diff t a) (ratio_diff t b) = true ->
  Num.ltb (ratio_diff t c) (ratio_diff t b) = false ->
  Num.ltb (ratio_diff t a) (ratio_diff t c) = true.
Proof.
  intros Hab Hcb. destruct (Num.is_nan t) eqn:Ht.
  - rewrite ltb_nan_l in Hab; [discriminate |]. rewrite ratio_diff_nan. exact Ht.
  - apply NumFacts.SFltb_neg_trans with (ratio_diff t b); auto.
    rewrite ratio_diff_nan. exact Ht.
Qed.

Lemma closest_earliest_min (t : Num.number) :
  earliest_min (fun a b => Num.ltb (ratio_diff t a) (ratio_diff t b)) aspect_keys
    (JS.reduce (closer t) aspect_keys AR_1_1).
Proof.
  apply (earliest_min_reduce
           (fun a b => Num.ltb (ratio_diff t a) (ratio_diff t b))).
  - intros a. apply NumFacts.SFltb_irrefl.
  - intros a b c. apply NumFacts.SFltb_trans.
  - intros a b c. apply diff_lt_neg_trans.
Qed.

Lemma all_keys (k : AspectRatio) : In k aspect_keys.
Proof. destruct k; simpl; tauto. Qed.

Lemma earlier_in_prefix (pre post : list AspectRatio) (r k : AspectRatio) :
  aspect_keys = pre ++ r :: post ->
  (aspect_rank k < aspect_rank r)%nat ->
  In k pre.
Proof.
  unfold aspect_keys. intros H Hlt.
  destruct pre as [| p1 [| p2 [| p3 [| p4 [| p5 pre]]]]];
    simpl in H; try destruct pre; simplify_eq; destruct k; simpl in *; try lia; tauto.
Qed.

End AspectFacts.

(** C5, as the code computes it. For all numbers [width] and [height]: when
    [height] is zero the selection is 1:1; otherwise, with every distance
    [Math.abs(ratio - width/height)] taken in double precision as the code
    takes it, no ratio of the table is strictly nearer than the selected one
    and the selected one is strictly nearer than every ratio listed before
    it (a tie between computed distances goes to the earlier key). *)
Theorem getClosestAspectRatio_nearest (width height : Num.number) :
  let r := getClosestAspectRatio width height in
  let d := ratio_diff (Num.div width height) in
  if Num.eqb height (Num.of_Z 0) then r = AR_1_1
  else (forall k, Num.ltb (d k) (d r) = false)
       /\ (forall k, (aspect_rank k < aspect_rank r)%nat -> Num.ltb (d r) (d k) = true).
Proof.
  intros r d. subst r d. unfold getClosestAspectRatio.
  destruct (Num.eqb height (Num.of_Z 0)); [reflexivity |].
  destruct (AspectFacts.closest_earliest_min (Num.div width height))
    as [(pre & post & Hkeys & Hpre) Hmin].
  split.
  - intros k. apply Hmin, AspectFacts.all_keys.
  - intros k Hk. apply Hpre. eapply AspectFacts.earlier_in_prefix; eauto.
Qed.

(** At 1920 by 1080 the selection is 16:9, strictly nearer than the
    earlier 4:3. *)
Lemma getClosestAspectRatio_nearest_witness :
  (aspect_rank AR_4_3 < aspect_rank (getClosestAspectRatio (Num.of_Z 1920) (Num.of_Z 1080)))%nat
  /\ Num.ltb
       (ratio_diff (Num.div (Num.of_Z 1920) (Num.of_Z 1080))
                   (getClosestAspectRatio (Num.of_Z 1920) (Num.of_Z 1080)))
       (ratio_diff (Num.div (Num.of_Z 1920) (Num.of_Z 1080)) AR_4_3) = true.
Proof.
  assert (H : (aspect_rank AR_4_3
               < aspect_rank (getClosestAspectRatio (Num.of_Z 1920) (Num.of_Z 1080)))%nat)
    by (vm_compute; lia).
  split; [exact H |].
  pose proof (getClosestAspectRatio_nearest (Num.of_Z 1920) (Num.of_Z 1080)) as P.
  cbv zeta in P.
  change (Num.eqb (Num.of_Z 1080) (Num.of_Z 0)) with false in P.
  cbv iota in P.
  exact (proj2 P AR_4_3 H).
Defined.

(** C5, as stated, fails at 7 by 6. Over the rationals 1:1 and 4:3 are
    equally near to 7/6 (both at 1/6) and nothing is nearer, so the earlier
    key 1:1 is the selection the claim describes; the code returns 4:3,
    because the doubles nearest to 7/6 and 4/3 make the second computed
    distance the smaller one. *)
Lemma getClosestAspectRatio_7_6_tie_goes_to_later :
  getClosestAspectRatio (Num.of_Z 7) (Num.of_Z 6) = AR_4_3
  /\ exact_closest 7 6 = AR_1_1
  /\ (exact_diff 7 6 AR_1_1 == exact_diff 7 6 AR_4_3)%Q
  /\ (forall k, (exact_diff 7 6 AR_1_1 <= exact_diff 7 6 k)%Q)
  /\ Num.ltb (ratio_diff (Num.div (Num.of_Z 7) (Num.of_Z 6)) AR_4_3)
             (ratio_diff (Num.div (Num.of_Z 7) (Num.of_Z 6)) AR_1_1) = true.
Proof.
  split; [vm_compute; reflexivity |].
  split; [vm_compute; reflexivity |].
  split; [vm_compute; reflexivity |].
  split; [| vm_compute; reflexivity].
  intros k. destruct k; vm_compute; discriminate.
Qed.

(** ** The retry loop of the public model *)

Module RetryFacts.

Lemma attempts_list : seqZ 1 MAX_RETRIES = [1; 2; 3].
Proof. reflexivity. Qed.

(** The body leaves the same way whatever the attempt number, and sleeps
    exactly when it goes on to the next turn; unless it returns, it leaves
    an error in [lastError]. *)
Lemma attempt_body_flow (onRetry : bool) (attempt : Z) (x : Exchange)
    (lastError : option JS.Thrown) :
  exists lastError',
    attempt_body onRetry attempt x lastError
    = (match flow_of x with Next => backoff onRetry attempt | _ => [] end,
       lastError', flow_of x)
    /\ ((forall s, flow_of x <> Return s) -> is_Some lastError').
Proof.
  unfold flow_of, attempt_body, catch_network_error.
  destruct x as [status [type read | e] | e]; simpl;
    repeat match goal with
      | |- context [if ?c then _ else _] => destruct c; simpl
      end;
    eexists; (split; [reflexivity |]); intros H; try (eexists; reflexivity).
  exfalso. eapply H. reflexivity.
Qed.

Lemma flow_of_succeeds (x : Exchange) :
  succeeds x = true <-> exists s, flow_of x = Return s.
Proof.
  unfold flow_of, attempt_body, catch_network_error, succeeds.
  destruct x as [status [type read | e] | e]; simpl;
    repeat match goal with
      | |- context [if ?c then _ else _] => destruct c; simpl
      end;
    split; intros H; try discriminate; try reflexivity; try (eexists; reflexivity);
    destruct H as [s H]; discriminate.
Qed.

Lemma flow_of_terminal_status (status : Z) (blob : BlobResult) :
  response_ok status = false -> status < 500 -> status <> 429 ->
  flow_of (Responds status blob) = Break.
Proof.
  intros Hok Hlt Hne. unfold flow_of, attempt_body. rewrite Hok.
  destruct (Z.ltb_spec status 500); [| lia].
  destruct (Z.eqb_spec status 429); [lia |]. reflexivity.
Qed.

(** The three shapes of a run. *)
Lemma run_shape (b : Browser) (prompt : string) (width height : Z) (onRetry : bool)
    (transport : Z -> Exchange) :
  let url := image_url b prompt width height in
  let placeholder := generatePlaceholder b prompt width height in
  generateWithPublicModel b prompt width height onRetry transport
  = match flow_of (transport 1) with
    | Return s => ([Fetch 1 url], s)
    | Break => ([Fetch 1 url], placeholder)
    | Next =>
        match flow_of (transport 2) with
        | Return s => (Fetch 1 url :: backoff onRetry 1 ++ [Fetch 2 url], s)
        | Break => (Fetch 1 url :: backoff onRetry 1 ++ [Fetch 2 url], placeholder)
        | Next =>
            (Fetch 1 url :: backoff onRetry 1 ++ Fetch 2 url :: backoff onRetry 2
               ++ [Fetch 3 url],
             match flow_of (transport 3) with
             | Return s => s
             | _ => placeholder
             end)
        end
    end.
Proof.
  intros url placeholder. unfold generateWithPublicModel. fold url. fold placeholder.
  rewrite attempts_list. simpl retry_loop.
  destruct (attempt_body_flow onRetry 1 (transport 1) None) as (le1 & -> & _).
  destruct (flow_of (transport 1)); try reflexivity.
  destruct (attempt_body_flow onRetry 2 (transport 2) le1) as (le2 & -> & _).
  destruct (flow_of (transport 2)); try reflexivity.
  destruct (attempt_body_flow onRetry 3 (transport 3) le2) as (le3 & -> & _).
  destruct (flow_of (transport 3)); reflexivity.
Qed.

Lemma retry_loop_last_error (url : string) (onRetry : bool) (transport : Z -> Exchange)
    (attempts : list Z) (lastError : option JS.Thrown) :
  (retry_loop url onRetry transport attempts lastError).2 = None ->
  attempts <> [] \/ is_Some lastError ->
  is_Some (retry_loop url onRetry transport attempts lastError).1.2.
Proof.
  revert lastError. induction attempts as [| attempt later IH]; intros lastError Hr Hle.
  - simpl. destruct Hle as [Hle | Hle]; [congruence | exact Hle].
  - simpl in *.
    destruct (attempt_body_flow onRetry attempt (transport attempt) lastError)
      as (le' & Hbody & Hsome).
    rewrite Hbody in *.
    destruct (flow_of (transport attempt)) eqn:Hflow; simpl in *.
    + discriminate.
    + apply Hsome. intros s. discriminate.
    + specialize (IH le').
      destruct (retry_loop url onRetry transport later le') as [[ev le''] r]; simpl in *.
      apply IH; [exact Hr |]. right. apply Hsome. intros s. discriminate.
Qed.

Lemma loop_result_none (url : string) (onRetry : bool) (transport : Z -> Exchange) :
  (forall s, flow_of (transport 1) <> Return s) ->
  (flow_of (transport 1) = Next -> forall s, flow_of (transport 2) <> Return s) ->
  (flow_of (transport 1) = Next -> flow_of (transport 2) = Next ->
   forall s, flow_of (transport 3) <> Return s) ->
  (retry_loop url onRetry transport (seqZ 1 MAX_RETRIES) None).2 = None.
Proof.
  intros N1 N2 N3. rewrite attempts_list. simpl retry_loop.
  destruct (attempt_body_flow onRetry 1 (transport 1) None) as (le1 & -> & _).
  destruct (flow_of (transport 1)) eqn:H1; try reflexivity.
  { destruct (N1 s). reflexivity. }
  destruct (attempt_body_flow onRetry 2 (transport 2) le1) as (le2 & -> & _).
  destruct (flow_of (transport 2)) eqn:H2; try reflexivity.
  { destruct (N2 eq_refl s). reflexivity. }
  destruct (attempt_body_flow onRetry 3 (transport 3) le2) as (le3 & -> & _).
  destruct (flow_of (transport 3)) eqn:H3; try reflexivity.
  destruct (N3 eq_refl eq_refl s). reflexivity.
Qed.

End RetryFacts.


(** C1, as the code has it. In every call in which no attempt that is made
    ends in the [return] of the loop (each one is a non-2xx status, a
    non-image body or a thrown error; the loop runs out or is left on a
    terminal status), the promise is fulfilled with the placeholder drawn
    for the requested size; it is not rejected, although the loop holds the
    last error. *)
Theorem generateWithPublicModel_failure_gives_placeholder
    (b : Browser) (prompt : string) (width height : Z) (onRetry : bool)
    (transport : Z -> Exchange) :
  let run := generateWithPublicModel b prompt width height onRetry transport in
  (forall i k url, run.1 !! i = Some (Fetch k url) -> succeeds (transport k) = false) ->
  run.2 = generatePlaceholder b prompt width height
  /\ (forall e, run.2 <> JS.Rejected e)
  /\ is_Some (last_error_of b prompt width height onRetry transport).
Proof.
  intros run Hfail.
  assert (Hno : forall i k url s, run.1 !! i = Some (Fetch k url) ->
                                  flow_of (transport k) <> Return s).
  { intros i k url s Hi Hflow.
    assert (succeeds (transport k) = true) as Hs
      by (apply RetryFacts.flow_of_succeeds; eauto).
    rewrite (Hfail i k url Hi) in Hs. discriminate. }
  clear Hfail. subst run. pose proof Hno as Hmade.
  rewrite RetryFacts.run_shape in Hmade.
  set (url := image_url b prompt width height) in *.
  assert (N1 : forall s, flow_of (transport 1) <> Return s).
  { intros s H1. rewrite H1 in Hmade. eapply (Hmade 0%nat); [reflexivity | exact H1]. }
  assert (N2 : flow_of (transport 1) = Next -> forall s, flow_of (transport 2) <> Return s).
  { intros H1 s H2. rewrite H1, H2 in Hmade.
    eapply (Hmade (S (length (backoff onRetry 1)))); [| exact H2].
    destruct onRetry; reflexivity. }
  assert (N3 : flow_of (transport 1) = Next -> flow_of (transport 2) = Next ->
               forall s, flow_of (transport 3) <> Return s).
  { intros H1 H2 s H3. rewrite H1, H2 in Hmade.
    eapply (Hmade (S (length (backoff onRetry 1) + S (length (backoff onRetry 2)))));
      [| exact H3].
    destruct onRetry; reflexivity. }
  assert (Hph : (generateWithPublicModel b prompt width height onRetry transport).2
                = generatePlaceholder b prompt width height).
  { rewrite RetryFacts.run_shape.
    destruct (flow_of (transport 1)) eqn:H1; try reflexivity.
    { destruct (N1 s). reflexivity. }
    destruct (flow_of (transport 2)) eqn:H2; try reflexivity.
    { destruct (N2 eq_refl s). reflexivity. }
    destruct (flow_of (transport 3)) eqn:H3; try reflexivity.
    destruct (N3 eq_refl eq_refl s). reflexivity. }
  split; [exact Hph |]. split.
  - rewrite Hph. discriminate.
  - unfold last_error_of. apply RetryFacts.retry_loop_last_error.
    + apply RetryFacts.loop_result_none; assumption.
    + left. rewrite RetryFacts.attempts_list. discriminate.
Qed.

(** The hypothesis is met by a server that answers 503 three times. *)
Lemma generateWithPublicModel_failure_gives_placeholder_witness :
  (forall (i : nat) (k : Z) (url : string),
      (generateWithPublicModel example_browser "a stoic hero" 64 64 true
         (always_status 503)).1 !! i = Some (Fetch k url) ->
      succeeds (always_status 503 k) = false)
  /\ (generateWithPublicModel example_browser "a stoic hero" 64 64 true
        (always_status 503)).2
     = generatePlaceholder example_browser "a stoic hero" 64 64.
Proof.
  assert (H : forall (i : nat) (k : Z) (url : string),
             (generateWithPublicModel example_browser "a stoic hero" 64 64 true
                (always_status 503)).1 !! i = Some (Fetch k url) ->
             succeeds (always_status 503 k) = false)
    by (intros i k url _; reflexivity).
  split; [exact H |].
  exact (proj1 (generateWithPublicModel_failure_gives_placeholder
                  example_browser "a stoic hero" 64 64 true (always_status 503) H)).
Defined.

(** C1, as stated, fails. Against a server that answers 503 to all three
    attempts, and against one that answers 404 to the first, the loop ends
    holding the error of the last response, but the promise is fulfilled
    with the placeholder image: no error reaches the caller. *)
Lemma generateWithPublicModel_exhausted_returns_placeholder :
  let exhausted :=
    generateWithPublicModel example_browser "a stoic hero" 64 64 false (always_status 503) in
  let terminal :=
    generateWithPublicModel example_browser "a stoic hero" 64 64 false (always_status 404) in
  attempts_made exhausted.1 = 3%nat
  /\ last_error_of example_browser "a stoic hero" 64 64 false (always_status 503)
     = Some (JS.ErrorObj "Public model API failed with status: 503.")
  /\ exhausted.2 = JS.Fulfilled "data:image/png;base64,placeholder-64x64-4"
  /\ exhausted.2 = generatePlaceholder example_browser "a stoic hero" 64 64
  /\ attempts_made terminal.1 = 1%nat
  /\ last_error_of example_browser "a stoic hero" 64 64 false (always_status 404)
     = Some (JS.ErrorObj "Public model API failed with status: 404.")
  /\ terminal.2 = generatePlaceholder example_browser "a stoic hero" 64 64
  /\ (forall e, exhausted.2 <> JS.Rejected e /\ terminal.2 <> JS.Rejected e).
Proof.
  repeat split; try (vm_compute; reflexivity); vm_compute; discriminate.
Qed.

Lemma backoff_values :
  backoff true 1 = [OnRetry 1 2000; Sleep 2000]
  /\ backoff true 2 = [OnRetry 2 4000; Sleep 4000]
  /\ backoff false 1 = [Sleep 2000]
  /\ backoff false 2 = [Sleep 4000].
Proof. repeat split. Qed.

Ltac normal_trace :=
  destruct backoff_values as (B1 & B2 & B3 & B4);
  rewrite ?B1, ?B2, ?B3, ?B4 in *; clear B1 B2 B3 B4; simpl in *.

Ltac by_index i H :=
  repeat (destruct i as [| i]; simpl in H; try discriminate H).

(** C6, as the code has it. The loop makes at most 3 attempts; attempt
    [k+1] is immediately preceded by a sleep of [2^k * 1000]; a non-2xx
    status below 500 other than 429 on attempt [k] is the last attempt.
    Against a transport that always answers 500 there are exactly 3
    attempts with sleeps 2000 and 4000 between them, after which the
    promise is fulfilled with the placeholder; against a first answer of
    400 there is exactly 1 attempt and no sleep, ending the same way. *)
Theorem retry_policy (b : Browser) (prompt : string) (width height : Z)
    (onRetry : bool) (transport : Z -> Exchange) :
  let run := generateWithPublicModel b prompt width height onRetry transport in
  (attempts_made run.1 <= 3)%nat
  /\ (forall i k url,
        run.1 !! S i = Some (Fetch (k + 1) url) ->
        run.1 !! i = Some (Sleep (2 ^ k * 1000)))
  /\ (forall k status blob,
        1 <= k -> transport k = Responds status blob ->
        response_ok status = false -> status < 500 -> status <> 429 ->
        forall i j url, run.1 !! i = Some (Fetch j url) -> j <= k)
  /\ ((forall k, exists blob, transport k = Responds 500 blob) ->
      attempts_made run.1 = 3%nat /\ sleeps run.1 = [2000; 4000]
      /\ run.2 = generatePlaceholder b prompt width height)
  /\ ((exists blob, transport 1 = Responds 400 blob) ->
      attempts_made run.1 = 1%nat /\ sleeps run.1 = []
      /\ run.2 = generatePlaceholder b prompt width height).
Proof.
  intros run. subst run. rewrite RetryFacts.run_shape.
  generalize (generatePlaceholder b prompt width height) as placeholder.
  generalize (image_url b prompt width height) as url. intros url placeholder.
  repeat split.
  - destruct (flow_of (transport 1)), (flow_of (transport 2)), onRetry;
      vm_compute; lia.
  - intros i k u H.
    destruct (flow_of (transport 1)), (flow_of (transport 2)), onRetry;
      normal_trace; by_index i H; simplify_eq;
      match goal with
      | E : _ = ?k + 1 |- _ => first [replace k with 1 by lia | replace k with 2 by lia]
      end; reflexivity.
  - intros k status blob Hk Htr Hok Hlt Hne i j u H.
    pose proof (RetryFacts.flow_of_terminal_status status blob Hok Hlt Hne) as Hbreak.
    rewrite <- Htr in Hbreak.
    destruct (Z.eq_dec k 1) as [-> | ?]; [rewrite Hbreak in H |].
    { normal_trace. by_index i H. simplify_eq. lia. }
    destruct (Z.eq_dec k 2) as [-> | ?].
    { rewrite Hbreak in H.
      destruct (flow_of (transport 1)), onRetry; normal_trace;
        by_index i H; simplify_eq; lia. }
    destruct (flow_of (transport 1)), (flow_of (transport 2)), onRetry;
      normal_trace; by_index i H; simplify_eq; lia.
  - destruct (H 1) as [b1 ->]. destruct (H 2) as [b2 ->].
    destruct onRetry; reflexivity.
  - destruct (H 1) as [b1 ->]. destruct (H 2) as [b2 ->].
    destruct onRetry; reflexivity.
  - destruct (H 1) as [b1 ->]. destruct (H 2) as [b2 ->]. destruct (H 3) as [b3 ->].
    reflexivity.
  - destruct H as [b1 ->]. reflexivity.
  - destruct H as [b1 ->]. reflexivity.
  - destruct H as [b1 ->]. reflexivity.
Qed.

(** The two transports of the statement exist: one that always answers
    500, one that answers 400. *)
Lemma retry_policy_witness :
  (forall k, exists blob, always_status 500 k = Responds 500 blob)
  /\ attempts_made
       (generateWithPublicModel example_browser "a stoic hero" 64 64 true
          (always_status 500)).1 = 3%nat
  /\ sleeps
       (generateWithPublicModel example_browser "a stoic hero" 64 64 true
          (always_status 500)).1 = [2000; 4000]
  /\ (exists blob, always_status 400 1 = Responds 400 blob)
  /\ attempts_made
       (generateWithPublicModel example_browser "a stoic hero" 64 64 true
          (always_status 400)).1 = 1%nat.
Proof.
  assert (H500 : forall k, exists blob, always_status 500 k = Responds 500 blob)
    by (intros k; eexists; reflexivity).
  assert (H400 : exists blob, always_status 400 1 = Responds 400 blob)
    by (eexists; reflexivity).
  destruct (retry_policy example_browser "a stoic hero" 64 64 true (always_status 500))
    as (_ & _ & _ & P500 & _).
  destruct (retry_policy example_browser "a stoic hero" 64 64 true (always_status 400))
    as (_ & _ & _ & _ & P400).
  destruct (P500 H500) as (A500 & S500 & _).
  destruct (P400 H400) as (A400 & _).
  repeat split; assumption.
Defined.

(** C6, as stated, fails in its last step. Against a transport that always
    answers 500 the three attempts and the sleeps of 2000 and 4000 happen,
    but no final failure is surfaced afterwards: the promise is fulfilled,
    with the placeholder image. *)
Lemma always_500_failure_not_surfaced :
  let run :=
    generateWithPublicModel example_browser "a stoic hero" 64 64 true (always_status 500) in
  run.1 = [Fetch 1 "https://image.pollinations.ai/prompt/a stoic hero?width=64&height=64&seed=623221135";
           OnRetry 1 2000; Sleep 2000;
           Fetch 2 "https://image.pollinations.ai/prompt/a stoic hero?width=64&height=64&seed=623221135";
           OnRetry 2 4000; Sleep 4000;
           Fetch 3 "https://image.pollinations.ai/prompt/a stoic hero?width=64&height=64&seed=623221135"]
  /\ run.2 = JS.Fulfilled "data:image/png;base64,placeholder-64x64-4"
  /\ forall e, run.2 <> JS.Rejected e.
Proof.
  repeat split; try (vm_compute; reflexivity). vm_compute. discriminate.
Qed.

(** C10. With an observer: every call of it carries an attempt number 1 or
    2 and the delay [2^attempt * 1000], is immediately followed by the sleep
    of that delay and then by the next attempt; nothing at all follows the
    third attempt or an attempt answered by a terminal status; so it is
    called at most twice, and at most once per attempt number. Without an
    observer nothing is notified. *)
Theorem onRetry_only_before_next_attempt (b : Browser) (prompt : string)
    (width height : Z) (onRetry : bool) (transport : Z -> Exchange) :
  let events := (generateWithPublicModel b prompt width height onRetry transport).1 in
  (forall i a d,
      events !! i = Some (OnRetry a d) ->
      onRetry = true /\ (a = 1 \/ a = 2) /\ d = 2 ^ a * 1000
      /\ events !! S i = Some (Sleep d)
      /\ exists url, events !! S (S i) = Some (Fetch (a + 1) url))
  /\ (forall i k url,
        events !! i = Some (Fetch k url) ->
        k = 3 \/ flow_of (transport k) = Break ->
        events !! S i = None)
  /\ (length (notifications events) <= 2)%nat
  /\ NoDup (notifications events).*1
  /\ (onRetry = false -> notifications events = []).
Proof.
  intros events. subst events. rewrite RetryFacts.run_shape.
  generalize (generatePlaceholder b prompt width height) as placeholder.
  generalize (image_url b prompt width height) as url. intros url placeholder.
  split; [| split; [| split; [| split]]].
  - intros i a d H.
    destruct (flow_of (transport 1)), (flow_of (transport 2)), onRetry;
      normal_trace; by_index i H; simplify_eq;
      (split; [reflexivity |]); (split; [lia |]); (split; [reflexivity |]);
      (split; [reflexivity |]); eexists; reflexivity.
  - destruct (flow_of (transport 1)) eqn:H1, (flow_of (transport 2)) eqn:H2, onRetry;
      intros i k u H Hlast;
      normal_trace; by_index i H; simplify_eq; try reflexivity;
      destruct Hlast as [? | Hbreak]; try lia; congruence.
  - destruct (flow_of (transport 1)), (flow_of (transport 2)), onRetry;
      normal_trace; lia.
  - destruct (flow_of (transport 1)), (flow_of (transport 2)), onRetry;
      normal_trace; compute_done.
  - intros ->.
    destruct (flow_of (transport 1)), (flow_of (transport 2)); reflexivity.
Qed.

(** Against a server that always answers 500 the first notification is
    followed by the sleep of 2000 and the second attempt. *)
Lemma onRetry_only_before_next_attempt_witness :
  (generateWithPublicModel example_browser "a stoic hero" 64 64 true
     (always_status 500)).1 !! 1%nat = Some (OnRetry 1 2000)
  /\ (generateWithPublicModel example_browser "a stoic hero" 64 64 true
        (always_status 500)).1 !! 2%nat = Some (Sleep 2000)
  /\ exists url,
      (generateWithPublicModel example_browser "a stoic hero" 64 64 true
         (always_status 500)).1 !! 3%nat = Some (Fetch (1 + 1) url).
Proof.
  assert (H : (generateWithPublicModel example_browser "a stoic hero" 64 64 true
                 (always_status 500)).1 !! 1%nat = Some (OnRetry 1 2000))
    by (vm_compute; reflexivity).
  split; [exact H |].
  destruct (proj1 (onRetry_only_before_next_attempt example_browser "a stoic hero"
                     64 64 true (always_status 500)) 1%nat 1 2000 H)
    as (_ & _ & _ & Hsleep & Hnext).
  split; [exact Hsleep | exact Hnext].
Defined.

(** ** Single-shot fan-out *)

Module FanOutFacts.

Lemma successes_length (fullPrompt : string) (results : list JS.Settled) :
  (length (successes fullPrompt results) <= length results)%nat.
Proof.
  unfold successes. induction results as [| [v | e] results IH]; cbn in *; lia.
Qed.

(** When nothing succeeded, the first rejection is the first result. *)
Lemma no_success_first_rejection (fullPrompt : string) (results : list JS.Settled) :
  successes fullPrompt results = [] ->
  first_rejection results
  = head results ≫= (fun r => match r with
                               | JS.Rejected reason => Some reason
                               | JS.Fulfilled _ => None
                               end).
Proof.
  unfold successes, first_rejection.
  destruct results as [| [v | e] results]; simpl; try reflexivity.
  discriminate.
Qed.

Lemma clamped_range (e : GenerationEngine) (v : Z) : 1 <= clampedVariations e v <= 4.
Proof.
  unfold clampedVariations. destruct (isSingleVariationEngine e); [lia |].
  destruct (v =? 0); lia.
Qed.

End FanOutFacts.

Module AggregateFacts.

Lemma aggregate_cases (fullPrompt : string) (Y : Z) (results : list JS.Settled)
    (generatedImages : list Image) :
  Z.of_nat (length results) = Y -> 1 <= Y ->
  let wins := successes fullPrompt results in
  let X := Z.of_nat (length wins) in
  let out := aggregate fullPrompt Y results generatedImages in
  match wins with
  | _ :: _ =>
      out.1 = wins ++ generatedImages
      /\ out.2 = if X <? Y
                then Some ("Generated " +:+ JS.string_of_Z X +:+ " of "
                             +:+ JS.string_of_Z Y +:+ " variations. Some failed.")
                else None
  | [] =>
      out.1 = generatedImages
      /\ exists reason,
          first_rejection results = Some reason
          /\ out.2 = Some (match reason with
                           | JS.ErrorObj message => message
                           | JS.NonError => "All variations failed to generate."
                           end)
  end.
Proof.
  intros Hlen HY. cbv zeta. unfold aggregate.
  pose proof (FanOutFacts.successes_length fullPrompt results) as Hle.
  destruct (successes fullPrompt results) as [| win wins'] eqn:Hwins.
  - simpl length. change (Z.of_nat 0) with 0. simpl.
    destruct (Z.ltb_spec 0 (Y - 0)); [| lia].
    split; [reflexivity |].
    pose proof (FanOutFacts.no_success_first_rejection _ _ Hwins) as Hfirst.
    destruct results as [| r rest]; [simpl in Hlen; lia |].
    destruct r as [value | reason]; [discriminate Hwins |].
    exists reason. split; [exact Hfirst |].
    unfold all_failed_reason. rewrite Hfirst. simpl. destruct reason; reflexivity.
  - set (X := Z.of_nat (length (win :: wins'))).
    assert (0 < X) as HX by (subst X; simpl; lia).
    destruct (Z.ltb_spec 0 X); [| lia]. simpl.
    split; [reflexivity |]. unfold some_failed_warning.
    destruct (Z.ltb_spec 0 (Y - X)), (Z.ltb_spec X Y); try lia; reflexivity.
Qed.

End AggregateFacts.

(** C7. The handler issues exactly as many calls as the clamped count: 1
    for the public, dall-e-3 and deepseek engines whatever is requested, the
    request cut to [1,4] for gemini. Once all have settled: if some call
    succeeded, all successes are put in front of the gallery, in call order,
    and the error shown is exactly "Generated X of Y variations. Some
    failed." when fewer than all succeeded, and none otherwise; if no call
    succeeded, the gallery is unchanged, a first rejected call exists, and
    the error shown is its message when its reason is an [Error] and the
    generic message otherwise. *)
Theorem handleGenerateSingle_policy (w : World) (p : Panel) (generatedImages : list Image) :
  let out := handleGenerateSingle w p generatedImages in
  let v := numberOfVariations p in
  let Y := clampedVariations (engine p) v in
  let wins := successes (single_fullPrompt p) (calls out) in
  let X := Z.of_nat (length wins) in
  Z.of_nat (length (calls out)) = Y
  /\ Y = match engine p with
         | gemini => if v <? 1 then 1 else if 4 <? v then 4 else v
         | dalle3 | deepseek | public => 1
         end
  /\ match wins with
     | _ :: _ =>
         images out = wins ++ generatedImages
         /\ error_shown out
            = if X <? Y
              then Some ("Generated " +:+ JS.string_of_Z X +:+ " of "
                           +:+ JS.string_of_Z Y +:+ " variations. Some failed.")
              else None
     | [] =>
         images out = generatedImages
         /\ exists reason,
             first_rejection (calls out) = Some reason
             /\ error_shown out
                = Some (match reason with
                        | JS.ErrorObj message => message
                        | JS.NonError => "All variations failed to generate."
                        end)
     end.
Proof.
  intros out v Y wins X.
  pose proof (FanOutFacts.clamped_range (engine p) v) as HY. fold Y in HY.
  assert (Hlen : Z.of_nat (length (calls out)) = Y).
  { subst out. unfold handleGenerateSingle. fold v. fold Y.
    destruct (aggregate _ _ _ _). simpl. rewrite length_fmap, length_seq. lia. }
  split; [exact Hlen |]. split.
  { subst Y. unfold clampedVariations.
    destruct (engine p); simpl; try reflexivity.
    destruct (Z.eqb_spec v 0), (Z.ltb_spec v 1), (Z.ltb_spec 4 v); lia. }
  assert (Hout : (images out, error_shown out)
                 = aggregate (single_fullPrompt p) Y (calls out) generatedImages).
  { subst out. unfold handleGenerateSingle. fold v. fold Y.
    destruct (aggregate _ _ _ _) as [i e] eqn:Hagg. simpl. rewrite <- Hagg. reflexivity. }
  pose proof (AggregateFacts.aggregate_cases (single_fullPrompt p) Y (calls out)
                generatedImages Hlen ltac:(lia)) as Hcases.
  cbv zeta in Hcases. rewrite <- Hout in Hcases. exact Hcases.
Qed.

(** ** The batch runner *)

Module BatchFacts.

Lemma nondecreasing_snoc (l : list nat) (y : nat) :
  nondecreasing l -> Forall (fun x => (x <= y)%nat) l -> nondecreasing (l ++ [y]).
Proof.
  intros Hl Hy i j a c Hij Hi Hj.
  destruct (decide (j < length l)%nat) as [Hlt | Hge].
  - rewrite lookup_app_l in Hi by lia. rewrite lookup_app_l in Hj by lia.
    exact (Hl i j a c Hij Hi Hj).
  - rewrite lookup_app_r in Hj by lia.
    destruct (j - length l)%nat as [| k] eqn:Hk; simpl in Hj; [| discriminate Hj].
    injection Hj as <-.
    destruct (decide (i < length l)%nat) as [Hi' | Hi'].
    + rewrite lookup_app_l in Hi by lia.
      rewrite Forall_forall in Hy. apply Hy.
      eapply list_elem_of_lookup_2. exact Hi.
    + rewrite lookup_app_r in Hi by lia.
      destruct (i - length l)%nat as [| k']; simpl in Hi; [| discriminate Hi].
      injection Hi as <-. lia.
Qed.

Lemma published_publish (update : BatchProgress -> BatchProgress) (s : Store) :
  published (setBatchProgress update s) = published s ++ [update (latest s)]
  /\ latest (setBatchProgress update s) = update (latest s)
  /\ last (published (setBatchProgress update s))
     = Some (latest (setBatchProgress update s)).
Proof. unfold setBatchProgress. simpl. rewrite last_snoc. auto. Qed.

(** Publishing a sound state that does not step back keeps the history in
    order. *)
Lemma coherent_publish (update : BatchProgress -> BatchProgress) (s : Store) :
  coherent s ->
  state_ok (update (latest s)) ->
  (current (latest s) <= current (update (latest s)))%nat ->
  coherent (setBatchProgress update s).
Proof.
  intros (Hok & Hmono & Hle) Hnew Hstep. unfold coherent, setBatchProgress. simpl.
  assert (Hle' : Forall (fun st => (current st <= current (update (latest s)))%nat)
                        (published s)).
  { eapply Forall_impl; [exact Hle |]. simpl. intros st Hst. lia. }
  repeat split.
  - apply Forall_app. split; [exact Hok |]. constructor; [exact Hnew | constructor].
  - rewrite fmap_app. simpl. apply nondecreasing_snoc; [exact Hmono |].
    apply Forall_fmap. exact Hle'.
  - apply Forall_app. split; [exact Hle' |]. constructor; [lia | constructor].
Qed.

(** An update that only rewrites the label. *)
Lemma running_label (n i : nat) (label : string) (s : Store) :
  running n i s -> running n i (setBatchProgress (with_label label) s).
Proof.
  intros (Hco & Hlast & Hst & Htot & Hlen & Hcur).
  assert (Hok : state_ok (latest s)).
  { destruct Hco as (Hok & _). rewrite Forall_forall in Hok. apply Hok.
    apply last_Some_elem_of. exact Hlast. }
  split; [| split; [apply published_publish | simpl; auto]].
  apply coherent_publish; [exact Hco | | simpl; lia].
  destruct Hok as [Hb Ht]. split; simpl; [exact Hb |].
  rewrite Hst. intros [? | ?]; discriminate.
Qed.

Lemma running_retries (n i : nat) (retries : list (Z * Z)) (s : Store) :
  running n i s ->
  running n i (foldl (fun s n => setBatchProgress (retry_label n.1 n.2) s) s retries)
  /\ generatedFiles
       (latest (foldl (fun s n => setBatchProgress (retry_label n.1 n.2) s) s retries))
     = generatedFiles (latest s).
Proof.
  revert s. induction retries as [| r retries IH]; intros s Hs; simpl.
  - auto.
  - destruct (IH (setBatchProgress (retry_label r.1 r.2) s)) as [Hrun Hfiles].
    { unfold retry_label. apply running_label. exact Hs. }
    split; [exact Hrun |]. rewrite Hfiles. reflexivity.
Qed.

(** Taking up row [i]: [current] becomes [i]. *)
Lemma running_start (n i : nat) (label : string) (s : Store) :
  running n i s ->
  running n i (setBatchProgress (with_current i label) s)
  /\ current (latest (setBatchProgress (with_current i label) s)) = i
  /\ generatedFiles (latest (setBatchProgress (with_current i label) s))
     = generatedFiles (latest s).
Proof.
  intros (Hco & Hlast & Hst & Htot & Hlen & Hcur).
  split; [| simpl; auto].
  split; [| split; [apply published_publish | simpl; auto]].
  apply coherent_publish; [exact Hco | | simpl; lia].
  split; simpl; [lia |]. rewrite Hst. intros [? | ?]; discriminate.
Qed.

(** Appending the file of row [i] once [current] is [i]. *)
Lemma running_append (n i : nat) (f : GeneratedFile) (s : Store) :
  running n i s -> current (latest s) = i ->
  running n (S i) (setBatchProgress (with_file f) s).
Proof.
  intros (Hco & Hlast & Hst & Htot & Hlen & Hcur) Hi.
  split; [| split; [apply published_publish | simpl; rewrite length_app; simpl;
                                               repeat split; auto; lia]].
  apply coherent_publish; [exact Hco | | simpl; lia].
  split; simpl; [rewrite length_app; simpl; lia |].
  rewrite Hst. intros [? | ?]; discriminate.
Qed.

Lemma batch_catch_running (w : World) (n i : nat) (f : RowFields) (prompt : string)
    (e : JS.Thrown) (s : Store) (t : Tally) :
  running n i s -> current (latest s) = i ->
  exists s' t' entry,
    batch_catch w f prompt e s t = Running s' t'
    /\ running n (S i) s'
    /\ generatedFiles (latest s') = generatedFiles (latest s) ++ [entry]
    /\ filename entry = fileName f
    /\ failures t' = S (failures t)
    /\ exists pr pw ph,
        JS.Fulfilled (data entry) = generatePlaceholder (browser w) pr pw ph.
Proof.
  intros Hrun Hcur. unfold batch_catch, generatePlaceholder.
  eexists _, _, _. split; [reflexivity |].
  split; [apply running_append; assumption |].
  split; [reflexivity |]. split; [reflexivity |]. split; [reflexivity |].
  eexists "", _, _. reflexivity.
Qed.

Lemma batch_row_running (w : World) (p : Panel) (n i : nat) (row : Row)
    (s : Store) (t : Tally) :
  running n i s ->
  exists s' t' entry,
    batch_row w p i row s t = Running s' t'
    /\ running n (S i) s'
    /\ generatedFiles (latest s') = generatedFiles (latest s) ++ [entry]
    /\ entry_of_row w p i row entry
    /\ failures t' = (failures t + if row_fails w p i row then 1 else 0)%nat.
Proof.
  intros Hrun. unfold batch_row, entry_of_row, row_fails, row_call.
  set (f := read_row i row). clearbody f.
  destruct (running_start n i ("Generating: " +:+ fileName f) s Hrun)
    as (Hrun1 & Hcur1 & Hfiles1).
  set (s1 := setBatchProgress (with_current i ("Generating: " +:+ fileName f)) s) in *.
  destruct (row_invalid f) eqn:Hinv; simpl.
  - destruct (batch_catch_running w n i f "" (JS.ErrorObj (invalid_row_message i))
                s1 t Hrun1 Hcur1)
      as (s' & t' & entry & Heq & Hrun' & Hfiles' & Hname & Hfail & Hph).
    exists s', t', entry. rewrite Hfiles', Hfiles1, Hfail.
    split; [exact Heq |]. split; [exact Hrun' |]. split; [reflexivity |].
    split; [split; [exact Hname | intros _; exact Hph] |]. lia.
  - set (width := default 0 (row_width f)).
    set (height := default 0 (row_height f)).
    set (prompt := batch_prompt (masterStyle p) f width height).
    destruct (batch_generateFunc w p i prompt width height) as [retries r] eqn:Hgen.
    simpl.
    destruct (running_retries n i retries s1 Hrun1) as [Hrun2 Hfiles2].
    set (s2 := foldl (fun s n => setBatchProgress (retry_label n.1 n.2) s) s1 retries) in *.
    assert (Hcur2 : current (latest s2) = i).
    { subst s2. clear Hrun2 Hfiles2 Hgen. revert Hcur1. generalize s1.
      induction retries as [| a retries IH]; intros s0 H0; simpl; [exact H0 |].
      apply IH. simpl. exact H0. }
    destruct r as [imageUrl | e'].
    + eexists _, _, _. split; [reflexivity |].
      split; [apply running_append; assumption |].
      simpl. rewrite Hfiles2, Hfiles1.
      split; [reflexivity |]. split; [split; [reflexivity | intros _; reflexivity] |]. lia.
    + destruct (batch_catch_running w n i f prompt e' s2 t Hrun2 Hcur2)
        as (s' & t' & entry & Heq & Hrun' & Hfiles' & Hname & Hfail & Hph).
      exists s', t', entry. rewrite Hfiles', Hfiles2, Hfiles1, Hfail.
      split; [exact Heq |]. split; [exact Hrun' |]. split; [reflexivity |].
      split; [split; [exact Hname | intros _; exact Hph] |]. lia.
Qed.

Lemma batch_loop_running (w : World) (p : Panel) (n : nat) (rows : list Row) :
  forall (i : nat) (s : Store) (t : Tally),
    running n i s ->
    exists s' t' added,
      batch_loop w p i rows s t = Running s' t'
      /\ running n (i + length rows) s'
      /\ generatedFiles (latest s') = generatedFiles (latest s) ++ added
      /\ length added = length rows
      /\ (forall k row, rows !! k = Some row ->
            exists entry, added !! k = Some entry /\ entry_of_row w p (i + k) row entry)
      /\ failures t' = (failures t + failing_rows w p i rows)%nat.
Proof.
  induction rows as [| row rest IH]; intros i s t Hrun; simpl.
  - exists s, t, []. rewrite Nat.add_0_r, app_nil_r.
    split; [reflexivity |]. split; [exact Hrun |]. split; [reflexivity |].
    split; [reflexivity |]. split; [| lia]. intros k row Hk. discriminate Hk.
  - destruct (batch_row_running w p n i row s t Hrun)
      as (s1 & t1 & entry & -> & Hrun1 & Hfiles1 & Hentry & Hfail1).
    destruct (IH (S i) s1 t1 Hrun1)
      as (s' & t' & added & -> & Hrun' & Hfiles' & Hlen & Hrows & Hfail').
    exists s', t', (entry :: added).
    split; [reflexivity |].
    split; [replace (i + S (length rest))%nat with (S i + length rest)%nat by lia;
            exact Hrun' |].
    split; [rewrite Hfiles', Hfiles1, <- app_assoc; reflexivity |].
    split; [simpl; lia |].
    split; [| lia].
    intros [| k] row' Hk; simpl in Hk.
    + injection Hk as <-. exists entry. rewrite Nat.add_0_r. auto.
    + destruct (Hrows k row' Hk) as (entry' & Hlook & Hentry').
      exists entry'. replace (i + S k)%nat with (S i + k)%nat by lia. auto.
Qed.

Lemma running_parsing :
  running 0 0 (setBatchProgress (fun _ => parsing_state) start_store).
Proof.
  unfold running, coherent, setBatchProgress, start_store. simpl.
  repeat split; try solve [repeat constructor; simpl; try lia; intros [? | ?]; discriminate].
  intros i j x y Hij Hi Hj.
  destruct i; [| discriminate Hi]. destruct j; [| discriminate Hj].
  simpl in *. simplify_eq. lia.
Qed.

Lemma running_total (n : nat) (label : string) (s : Store) :
  running 0 0 s -> running n 0 (setBatchProgress (with_total n label) s).
Proof.
  intros (Hco & Hlast & Hst & Htot & Hlen & Hcur).
  split; [| split; [apply published_publish | simpl; auto]].
  apply coherent_publish; [exact Hco | | simpl; lia].
  split; simpl; [lia |]. rewrite Hst. intros [? | ?]; discriminate.
Qed.

(** Closing a run whose loop has taken all [n] rows. *)
Lemma completion_final (n : nat) (t : Tally) (s : Store) :
  running n n s ->
  coherent (completion n t s)
  /\ last (published (completion n t s)) = Some (latest (completion n t s))
  /\ status (latest (completion n t s))
     = (if (failures t =? 0)%nat then done else error)
  /\ current (latest (completion n t s)) = n
  /\ total (latest (completion n t s)) = n
  /\ generatedFiles (latest (completion n t s)) = generatedFiles (latest s).
Proof.
  intros (Hco & Hlast & Hst & Htot & Hlen & Hcur). unfold completion.
  destruct (failures t) as [| k] eqn:Hf; simpl.
  - split; [| rewrite last_snoc; auto].
    apply coherent_publish; [exact Hco | | simpl; lia].
    split; simpl; lia.
  - split; [| rewrite last_snoc; auto].
    apply coherent_publish; [exact Hco | | simpl; lia].
    split; simpl; lia.
Qed.

Lemma setup_error_coherent (reason : string) :
  coherent (setBatchProgress (fun _ => setup_error reason)
              (setBatchProgress (fun _ => parsing_state) start_store)).
Proof.
  apply coherent_publish; [apply running_parsing | | simpl; lia].
  split; simpl; lia.
Qed.

(** A run over usable rows: the loop takes them all and the job is closed. *)
Lemma run_rows_final (w : World) (p : Panel) (rows : list Row) (s : Store) :
  running 0 0 s ->
  exists s' t final,
    batch_loop w p 0 rows
      (setBatchProgress (with_total (length rows) "Starting generation...") s)
      {| failures := 0; firstErrorMessage := "" |} = Running s' t
    /\ coherent (run_rows w p rows s)
    /\ last (published (run_rows w p rows s)) = Some final
    /\ length (generatedFiles final) = length rows
    /\ current final = length rows
    /\ total final = length rows
    /\ (forall i row, rows !! i = Some row ->
          exists entry, generatedFiles final !! i = Some entry
                        /\ entry_of_row w p i row entry)
    /\ failures t = failing_rows w p 0 rows
    /\ status final = (if (failures t =? 0)%nat then done else error).
Proof.
  intros Hrun. unfold run_rows.
  pose proof (running_total (length rows) "Starting generation..." s Hrun) as Hrun1.
  set (s1 := setBatchProgress (with_total (length rows) "Starting generation...") s) in *.
  destruct (batch_loop_running w p (length rows) rows 0 s1
              {| failures := 0; firstErrorMessage := "" |} Hrun1)
    as (s' & t & added & Hloop & Hrun' & Hfiles & Hlen & Hrows & Hfail).
  simpl in Hrun', Hfail, Hrows. rewrite Hloop.
  destruct (completion_final (length rows) t s' Hrun')
    as (Hco & Hlast & Hstatus & Hcur & Htot & Hgf).
  assert (Hnil : generatedFiles (latest s1) = []).
  { destruct Hrun1 as (_ & _ & _ & _ & Hl & _).
    destruct (generatedFiles (latest s1)); [reflexivity | discriminate Hl]. }
  rewrite Hnil in Hfiles. simpl in Hfiles.
  exists s', t, (latest (completion (length rows) t s')).
  split; [reflexivity |]. split; [exact Hco |]. split; [exact Hlast |].
  rewrite Hgf, Hfiles.
  split; [exact Hlen |]. split; [exact Hcur |]. split; [exact Htot |].
  split; [exact Hrows |]. split; [exact Hfail | exact Hstatus].
Qed.

Lemma job_of_valid_input (w : World) (p : Panel) (parse : string -> ParseOutcome)
    (read : FileText) :
  input_invalid parse read = false ->
  job_rows parse read <> []
  /\ handleBatchFileUpload w p parse (File read) start_store
     = run_rows w p (job_rows parse read)
         (setBatchProgress (fun _ => parsing_state) start_store).
Proof.
  unfold input_invalid, job_rows, handleBatchFileUpload, on_parsed.
  destruct read as [| result]; [discriminate |].
  destruct (JS.truthy result); [| discriminate].
  destruct (parse (JS.show result)) as [[| e errors] data | err]; try discriminate.
  intros H. apply bool_decide_eq_false in H.
  split; [exact H |].
  destruct (usable_rows data); [destruct H |]; reflexivity.
Qed.

Lemma job_of_invalid_input (w : World) (p : Panel) (parse : string -> ParseOutcome)
    (read : FileText) :
  input_invalid parse read = true ->
  exists reason,
    handleBatchFileUpload w p parse (File read) start_store
    = setBatchProgress (fun _ => setup_error reason)
        (setBatchProgress (fun _ => parsing_state) start_store).
Proof.
  unfold input_invalid, handleBatchFileUpload, on_parsed.
  destruct read as [| result]; [eexists; reflexivity |].
  destruct (JS.truthy result); [| eexists; reflexivity].
  destruct (parse (JS.show result)) as [[| e errors] data | err];
    try (eexists; reflexivity).
  intros H. apply bool_decide_eq_true in H. rewrite H. eexists; reflexivity.
Qed.

Lemma job_coherent (w : World) (p : Panel) (parse : string -> ParseOutcome)
    (upload : Upload) :
  coherent (handleBatchFileUpload w p parse upload start_store).
Proof.
  destruct upload as [| read].
  - simpl. unfold coherent, start_store. simpl.
    repeat split; try constructor. intros i j x y _ Hi. discriminate Hi.
  - destruct (input_invalid parse read) eqn:Hin.
    + destruct (job_of_invalid_input w p parse read Hin) as [reason ->].
      apply setup_error_coherent.
    + destruct (job_of_valid_input w p parse read Hin) as [_ ->].
      destruct (run_rows_final w p (job_rows parse read) _ running_parsing)
        as (_ & _ & _ & _ & Hco & _).
      exact Hco.
Qed.

End BatchFacts.

(** C2, as the code has it. At every state a job publishes, the number of
    generated files is [current] or [current + 1] (the file of a row is
    appended while [current] still shows that row's index); [current] never
    decreases along the published states; and in every finished state
    ([done] or [error]) [current], [total] and the number of files are
    equal. *)
Theorem batch_progress_invariant (w : World) (p : Panel)
    (parse : string -> ParseOutcome) (upload : Upload) :
  let states := job_states w p parse upload in
  (forall st, st ∈ states ->
     (current st <= length (generatedFiles st) <= current st + 1)%nat)
  /\ nondecreasing (current <$> states)
  /\ (forall st, st ∈ states -> status st = done \/ status st = error ->
        current st = total st /\ length (generatedFiles st) = current st).
Proof.
  intros states. subst states. unfold job_states.
  destruct (BatchFacts.job_coherent w p parse upload) as (Hok & Hmono & _).
  rewrite Forall_forall in Hok.
  split; [| split].
  - intros st Hst. apply (Hok st Hst).
  - exact Hmono.
  - intros st Hst. apply (Hok st Hst).
Qed.

(** The first state of a one-row job is among its states and is sound. *)
Lemma batch_progress_invariant_witness :
  parsing_state
    ∈ job_states example_world (example_panel gemini 1) (parsed [hero_row]) example_upload
  /\ (current parsing_state <= length (generatedFiles parsing_state)
      <= current parsing_state + 1)%nat.
Proof.
  assert (H : parsing_state
                ∈ job_states example_world (example_panel gemini 1) (parsed [hero_row])
                    example_upload)
    by (vm_compute; apply list_elem_of_here).
  split; [exact H |].
  exact (proj1 (batch_progress_invariant example_world (example_panel gemini 1)
                  (parsed [hero_row]) example_upload) parsing_state H).
Defined.

(** C2, as stated, fails. In a job of one valid row that gemini serves, the
    state published by the append has one generated file while [current] is
    still 0 and the status is [processing]. *)
Lemma files_run_ahead_of_current :
  let states :=
    job_states example_world (example_panel gemini 1) (parsed [hero_row]) example_upload in
  exists st,
    states !! 3%nat = Some st
    /\ status st = processing
    /\ length (generatedFiles st) = 1%nat
    /\ current st = 0%nat.
Proof.
  eexists. split; [vm_compute; reflexivity |]. repeat split.
Qed.

(** C3, as the code has it. A job whose file cannot be read, whose parse
    reports an error, or whose rows are all empty publishes exactly two
    states: [processing] with the label "Parsing CSV...", then [error] with
    a reason; [total] is 0 in both. *)
Theorem invalid_input_goes_to_error (w : World) (p : Panel)
    (parse : string -> ParseOutcome) (read : FileText) :
  input_invalid parse read = true ->
  let states := job_states w p parse (File read) in
  (exists reason, states = [parsing_state; setup_error reason])
  /\ status <$> states = [processing; error]
  /\ total <$> states = [0%nat; 0%nat].
Proof.
  intros Hin states. subst states. unfold job_states.
  destruct (BatchFacts.job_of_invalid_input w p parse read Hin) as [reason ->].
  simpl. split; [exists reason; reflexivity |]. split; reflexivity.
Qed.

(** A CSV without rows is an invalid input. *)
Lemma invalid_input_goes_to_error_witness :
  input_invalid (parsed []) (TextLoaded (Some "csv text")) = true
  /\ status <$> job_states example_world (example_panel public 1) (parsed [])
                             (File (TextLoaded (Some "csv text")))
     = [processing; error].
Proof.
  assert (H : input_invalid (parsed []) (TextLoaded (Some "csv text")) = true)
    by reflexivity.
  split; [exact H |].
  exact (proj1 (proj2 (invalid_input_goes_to_error example_world (example_panel public 1)
                         (parsed []) (TextLoaded (Some "csv text")) H))).
Defined.

(** C3, as stated, fails. A CSV without rows makes the job publish
    [processing] first: the state goes from [idle] to [processing] and only
    then to [error]. *)
Lemma empty_input_passes_through_processing :
  let states :=
    job_states example_world (example_panel public 1) (parsed []) example_upload in
  status initialBatchProgress = idle
  /\ states = [parsing_state;
               setup_error "CSV is empty or contains no valid data rows."]
  /\ status <$> states !! 0%nat = Some processing.
Proof.
  repeat split.
Qed.



(** The scenario of the specification: the first row is served, the second
    fails validation on its width of 0 and gets a 64 by 64 placeholder; the
    job ends in [error] with two files and one failure counted. *)
Example hero_and_villain :
  last (job_states example_world (example_panel gemini 1)
          (parsed [hero_row; villain_row]) example_upload)
  = Some {| total := 2; current := 2; status := error;
            generatedFiles :=
              [ {| filename := "hero.png"; data := "data:image/png;base64,gemini" |};
                {| filename := "villain.png";
                   data := "data:image/png;base64,placeholder-64x64-4" |} ];
            currentFileName := Some "Completed with errors.";
            error_text :=
              Some "1 of 2 assets failed. First error: Error on villain.png: Row 3: Invalid or missing data. Ensure prompt, width, and height are valid." |}.
Proof. vm_compute. reflexivity. Qed.

(** With the public engine a row whose three attempts all fail is not
    counted: the retry loop hands back its own placeholder as a success, so
    the job ends in [done]. *)
Example public_engine_hides_failures :
  let states :=
    job_states example_world (example_panel public 1)
               (parsed [hero_row; hero_row]) example_upload in
  (status <$> last states) = Some done
  /\ (generatedFiles <$> last states)
     = Some [ {| filename := "hero.png"; data := "data:image/png;base64,public" |};
              {| filename := "hero.png";
                 data := "data:image/png;base64,placeholder-64x64-4" |} ].
Proof. split; vm_compute; reflexivity. Qed.

(** The fan-out example of the specification: of 4 variations the 2nd and
    the 4th fail. *)
Example two_of_four :
  let out := handleGenerateSingle example_world (example_panel gemini 4) [] in
  length (images out) = 2%nat
  /\ error_shown out = Some "Generated 2 of 4 variations. Some failed.".
Proof. split; vm_compute; reflexivity. Qed.

(** ** Scene layers *)

Module SceneFacts.

Lemma splice_in_length {A} (start : nat) (item : A) (xs : list A) :
  length (Scene.splice_in start item xs) = S (length xs).
Proof.
  unfold Scene.splice_in. rewrite length_app. simpl.
  rewrite length_take, length_drop. lia.
Qed.

Lemma splice_in_lookup {A} (start : nat) (item : A) (xs : list A) :
  (start <= length xs)%nat -> Scene.splice_in start item xs !! start = Some item.
Proof.
  intros H. unfold Scene.splice_in.
  rewrite lookup_app_r by (rewrite length_take; lia).
  rewrite length_take. replace (start - start `min` length xs)%nat with 0%nat by lia.
  reflexivity.
Qed.

Lemma delete_splice_in {A} (start : nat) (item : A) (xs : list A) :
  (start <= length xs)%nat -> delete start (Scene.splice_in start item xs) = xs.
Proof.
  intros H. unfold Scene.splice_in.
  assert (Hlen : length (take start xs) = start) by (rewrite length_take; lia).
  rewrite <- Hlen at 1. rewrite delete_middle. apply take_drop.
Qed.

Lemma splice_in_delete {A} (i : nat) (item : A) (xs : list A) :
  xs !! i = Some item -> Scene.splice_in i item (delete i xs) = xs.
Proof.
  intros H. unfold Scene.splice_in. rewrite delete_take_drop.
  pose proof (lookup_lt_Some _ _ _ H) as Hlt.
  rewrite take_app_length' by (rewrite length_take; lia).
  rewrite drop_app_length' by (rewrite length_take; lia).
  apply take_drop_middle. exact H.
Qed.

Lemma splice_in_fmap {A B} (f : A -> B) (start : nat) (item : A) (xs : list A) :
  f <$> Scene.splice_in start item xs = Scene.splice_in start (f item) (f <$> xs).
Proof.
  unfold Scene.splice_in. rewrite fmap_app, fmap_cons, fmap_take, fmap_drop.
  reflexivity.
Qed.

Lemma renumber_content (layers : list Scene.Layer) :
  Scene.content <$> Scene.renumber layers = Scene.content <$> layers.
Proof.
  unfold Scene.renumber. apply list_eq. intros i.
  rewrite !list_lookup_fmap, list_lookup_imap.
  destruct (layers !! i); reflexivity.
Qed.

Lemma renumber_normalised (layers : list Scene.Layer) :
  Scene.normalised (Scene.renumber layers).
Proof.
  intros i layer. unfold Scene.renumber. rewrite list_lookup_imap.
  destruct (layers !! i); simpl; intros H; simplify_eq. reflexivity.
Qed.

(** Renumbering only looks at what the layers are without their z-index. *)
Lemma renumber_by_content (l1 l2 : list Scene.Layer) :
  Scene.content <$> l1 = Scene.content <$> l2 -> Scene.renumber l1 = Scene.renumber l2.
Proof.
  intros H. unfold Scene.renumber. apply list_eq. intros i.
  rewrite !list_lookup_imap.
  assert (Hi : Scene.content <$> (l1 !! i) = Scene.content <$> (l2 !! i))
    by (rewrite <- !list_lookup_fmap, H; reflexivity).
  destruct (l1 !! i) as [a |], (l2 !! i) as [b |]; simpl in *; try discriminate;
    [| reflexivity].
  injection Hi as Hi. unfold Scene.content in Hi.
  destruct a, b. simpl in *. simplify_eq. reflexivity.
Qed.

Lemma normalised_renumber (layers : list Scene.Layer) :
  Scene.normalised layers -> Scene.renumber layers = layers.
Proof.
  intros H. unfold Scene.renumber. apply list_eq. intros i.
  rewrite list_lookup_imap. destruct (layers !! i) as [a |] eqn:Hi; [| reflexivity].
  simpl. rewrite <- (H i a Hi). destruct a; reflexivity.
Qed.

Lemma insert_perm (a : Scene.Layer) (s : list Scene.Layer) :
  Permutation (Scene.insert_by_zIndex a s) (a :: s).
Proof.
  induction s as [| first rest IH]; simpl; [reflexivity |].
  destruct (Scene.zIndex a <=? Scene.zIndex first); [reflexivity |].
  rewrite IH. apply perm_swap.
Qed.

Lemma sorted_perm (l : list Scene.Layer) : Permutation (Scene.sortedLayers l) l.
Proof.
  unfold Scene.sortedLayers. induction l as [| a l IH]; simpl; [reflexivity |].
  rewrite insert_perm, IH. reflexivity.
Qed.

Lemma insert_sorted (a : Scene.Layer) (s : list Scene.Layer) :
  StronglySorted Scene.by_zIndex s -> StronglySorted Scene.by_zIndex (Scene.insert_by_zIndex a s).
Proof.
  induction s as [| first rest IH]; simpl; intros Hs.
  - repeat constructor.
  - apply StronglySorted_inv in Hs as [Hrest Hfirst].
    destruct (Z.leb_spec (Scene.zIndex a) (Scene.zIndex first)) as [Hle | Hgt].
    + constructor; [constructor; assumption |].
      constructor; [exact Hle |].
      eapply Forall_impl; [exact Hfirst |]. unfold Scene.by_zIndex. simpl. intros b Hb. lia.
    + constructor; [apply IH, Hrest |].
      apply Forall_forall. intros b Hb. rewrite insert_perm in Hb.
      apply elem_of_cons in Hb as [-> | Hb]; [unfold Scene.by_zIndex; lia |].
      rewrite Forall_forall in Hfirst. apply Hfirst, Hb.
Qed.

Lemma sorted_sorted (l : list Scene.Layer) :
  StronglySorted Scene.by_zIndex (Scene.sortedLayers l).
Proof.
  unfold Scene.sortedLayers. induction l as [| a l IH]; simpl.
  - constructor.
  - apply insert_sorted, IH.
Qed.

Lemma sorted_fixed (l : list Scene.Layer) :
  StronglySorted Scene.by_zIndex l -> Scene.sortedLayers l = l.
Proof.
  unfold Scene.sortedLayers. induction l as [| a l IH]; simpl; intros Hs; [reflexivity |].
  apply StronglySorted_inv in Hs as [Hrest Hfirst]. rewrite (IH Hrest).
  destruct l as [| first rest]; [reflexivity |]. simpl.
  apply Forall_inv in Hfirst. unfold Scene.by_zIndex in Hfirst.
  destruct (Z.leb_spec (Scene.zIndex a) (Scene.zIndex first)); [reflexivity | lia].
Qed.

Lemma ascending_sorted (l : list Scene.Layer) :
  (forall i j a b, (i < j)%nat -> l !! i = Some a -> l !! j = Some b ->
                   Scene.zIndex a <= Scene.zIndex b) ->
  StronglySorted Scene.by_zIndex l.
Proof.
  induction l as [| a l IH]; intros H; constructor.
  - apply IH. intros i j x y Hij Hi Hj. apply (H (S i) (S j)); auto. lia.
  - apply Forall_forall. intros b Hb.
    apply list_elem_of_lookup_1 in Hb as [j Hj].
    apply (H 0%nat (S j)); auto. lia.
Qed.

Lemma normalised_sorted (l : list Scene.Layer) :
  Scene.normalised l -> StronglySorted Scene.by_zIndex l.
Proof.
  intros H. apply ascending_sorted. intros i j a b Hij Hi Hj.
  rewrite (H i a Hi), (H j b Hj). lia.
Qed.

Lemma filter_sorted (f : Scene.Layer -> bool) (l : list Scene.Layer) :
  StronglySorted Scene.by_zIndex l -> StronglySorted Scene.by_zIndex (List.filter f l).
Proof.
  induction l as [| a l IH]; simpl; intros Hs; [constructor |].
  apply StronglySorted_inv in Hs as [Hrest Hfirst].
  destruct (f a); [| apply IH, Hrest].
  constructor; [apply IH, Hrest |].
  apply Forall_forall. intros b Hb. apply list_elem_of_In, filter_In in Hb as [Hb _].
  rewrite Forall_forall in Hfirst. apply Hfirst. apply list_elem_of_In. exact Hb.
Qed.

(** A layer that nothing in the list is above ends up last. *)
Lemma insert_keeps_last (o n : Scene.Layer) (s : list Scene.Layer) :
  last s = Some n -> Scene.zIndex o <= Scene.zIndex n ->
  last (Scene.insert_by_zIndex o s) = Some n.
Proof.
  induction s as [| first rest IH]; simpl; intros Hlast Hle; [discriminate |].
  destruct (Z.leb_spec (Scene.zIndex o) (Scene.zIndex first)) as [H1 | H1].
  - rewrite last_cons, Hlast. reflexivity.
  - destruct rest as [| second rest'].
    + simpl in Hlast. simplify_eq. lia.
    + assert (Hl : last (second :: rest') = Some n).
      { rewrite last_cons in Hlast.
        destruct (last (second :: rest')) eqn:E; [exact Hlast |].
        apply last_None in E. discriminate. }
      rewrite last_cons, (IH Hl Hle). reflexivity.
Qed.

Lemma sorted_last_max (s : list Scene.Layer) (n : Scene.Layer) :
  StronglySorted Scene.by_zIndex s -> last s = Some n ->
  forall o, o ∈ s -> Scene.zIndex o <= Scene.zIndex n.
Proof.
  induction s as [| a s IH]; intros Hs Hlast o Ho; [discriminate |].
  apply StronglySorted_inv in Hs as [Hs Ha].
  destruct s as [| b s'].
  - simpl in Hlast. simplify_eq. apply list_elem_of_singleton in Ho as ->. lia.
  - assert (Hl : last (b :: s') = Some n).
    { rewrite last_cons in Hlast.
      destruct (last (b :: s')) eqn:E; [exact Hlast |].
      apply last_None in E. discriminate. }
    apply elem_of_cons in Ho as [-> | Ho]; [| apply IH; auto].
    rewrite Forall_forall in Ha. apply Ha. apply last_Some_elem_of. exact Hl.
Qed.

Lemma last_stays_on_top (n : Scene.Layer) (l : list Scene.Layer) :
  (forall o, o ∈ l -> Scene.zIndex o <= Scene.zIndex n) ->
  last (foldr Scene.insert_by_zIndex [n] l) = Some n.
Proof.
  induction l as [| o l IH]; intros H; simpl; [reflexivity |].
  apply insert_keeps_last; [apply IH; intros; apply H; set_solver |].
  apply H. set_solver.
Qed.

Lemma normalised_nil : Scene.normalised [].
Proof. intros i layer Hi. discriminate Hi. Qed.

Lemma addLayer_normalised (uuid imageSrc name : string) (layers : list Scene.Layer) :
  Scene.normalised layers -> Scene.normalised (Scene.addLayer uuid imageSrc name layers).
Proof.
  intros Hnorm i layer Hi. unfold Scene.addLayer in Hi.
  destruct (decide (i < length layers)%nat) as [Hlt | Hge].
  - rewrite lookup_app_l in Hi by lia. apply Hnorm, Hi.
  - rewrite lookup_app_r in Hi by lia.
    destruct (i - length layers)%nat as [| k] eqn:Hk; simpl in Hi; [| discriminate Hi].
    injection Hi as <-. simpl. f_equal. lia.
Qed.

Lemma ltb_asym (a b : Num.number) : Num.ltb a b = true -> Num.ltb b a = false.
Proof.
  intros H. destruct (Num.ltb b a) eqn:H'; [| reflexivity].
  pose proof (NumFacts.SFltb_trans a b a H H') as Haa.
  rewrite NumFacts.SFltb_irrefl in Haa. discriminate.
Qed.

End SceneFacts.

(** X1. [addLayer] keeps the layers it finds and appends the new one. The
    new layer is the one the canvas stacks last, that is on top, exactly
    when no layer already present has a z-index above the number of layers
    present; in particular it is on top whenever the z-indexes are the
    positions, and they are the positions again afterwards. *)
Theorem addLayer_on_top (uuid imageSrc name : string) (layers : list Scene.Layer) :
  let added := Scene.addLayer uuid imageSrc name layers in
  exists newLayer,
    added = layers ++ [newLayer]
    /\ Scene.zIndex newLayer = Z.of_nat (length layers)
    /\ (last (Scene.sortedLayers added) = Some newLayer
        <-> forall old, old ∈ layers -> Scene.zIndex old <= Z.of_nat (length layers))
    /\ (Scene.normalised layers ->
        Scene.normalised added /\ Scene.sortedLayers added = added).
Proof.
  intros added. subst added. unfold Scene.addLayer.
  set (newLayer := {| Scene.id := uuid; Scene.name := name; Scene.src := imageSrc;
                      Scene.x := Num.of_Z 100; Scene.y := Num.of_Z 100;
                      Scene.zIndex := Z.of_nat (length layers);
                      Scene.scale := Num.of_Z 1 |}).
  exists newLayer. split; [reflexivity |]. split; [reflexivity |]. split; [split |].
  - intros Hlast old Hold.
    apply (SceneFacts.sorted_last_max _ newLayer
             (SceneFacts.sorted_sorted (layers ++ [newLayer])) Hlast).
    rewrite SceneFacts.sorted_perm. set_solver.
  - intros Hall. unfold Scene.sortedLayers. rewrite foldr_app. simpl.
    apply SceneFacts.last_stays_on_top. exact Hall.
  - intros Hnorm.
    pose proof (SceneFacts.addLayer_normalised uuid imageSrc name layers Hnorm) as Hnorm'.
    split; [exact Hnorm' |].
    apply SceneFacts.sorted_fixed, SceneFacts.normalised_sorted, Hnorm'.
Qed.

(** Three drops on an empty canvas: the z-indexes are the positions. *)
Lemma addLayer_on_top_witness :
  Scene.normalised example_layers
  /\ Scene.sortedLayers (Scene.addLayer "id-d" "data:d" "shield" example_layers)
     = Scene.addLayer "id-d" "data:d" "shield" example_layers.
Proof.
  assert (H : Scene.normalised example_layers)
    by (repeat apply SceneFacts.addLayer_normalised; apply SceneFacts.normalised_nil).
  split; [exact H |].
  destruct (addLayer_on_top "id-d" "data:d" "shield" example_layers)
    as (newLayer & _ & _ & _ & Hn).
  exact (proj2 (Hn H)).
Defined.

(** X2. [removeLayer] leaves no layer with the given id and only layers
    that were there; removing an id that no layer has changes nothing, and
    removing twice is removing once. The layers that stay keep their
    z-indexes, so a canvas that stacked the layers in list order still does. *)
Theorem removeLayer_keeps_the_rest (id_ : string) (layers : list Scene.Layer) :
  (forall layer, layer ∈ Scene.removeLayer id_ layers ->
                 Scene.id layer <> id_ /\ layer ∈ layers)
  /\ (forall layer, layer ∈ layers -> Scene.id layer <> id_ ->
                    layer ∈ Scene.removeLayer id_ layers)
  /\ ((forall layer, layer ∈ layers -> Scene.id layer <> id_) ->
      Scene.removeLayer id_ layers = layers)
  /\ Scene.removeLayer id_ (Scene.removeLayer id_ layers) = Scene.removeLayer id_ layers
  /\ (Scene.sortedLayers layers = layers ->
      Scene.sortedLayers (Scene.removeLayer id_ layers) = Scene.removeLayer id_ layers).
Proof.
  unfold Scene.removeLayer.
  assert (Hin : forall layer,
             layer ∈ List.filter (fun l => negb (String.eqb (Scene.id l) id_)) layers
             <-> layer ∈ layers /\ Scene.id layer <> id_).
  { intros layer. rewrite !list_elem_of_In, filter_In, negb_true_iff, String.eqb_neq.
    reflexivity. }
  split; [intros layer H; apply Hin in H; tauto |].
  split; [intros layer H1 H2; apply Hin; tauto |].
  split; [| split].
  - clear Hin. intros Hall. induction layers as [| a l IH]; simpl; [reflexivity |].
    destruct (String.eqb_spec (Scene.id a) id_) as [E | E]; simpl.
    + destruct (Hall a (list_elem_of_here _ _) E).
    + f_equal. apply IH. intros layer Hl. apply Hall, list_elem_of_further, Hl.
  - clear Hin. induction layers as [| a l IH]; simpl; [reflexivity |].
    destruct (String.eqb_spec (Scene.id a) id_) as [E | E]; simpl; [exact IH |].
    destruct (String.eqb_spec (Scene.id a) id_); [contradiction |]. simpl.
    f_equal. exact IH.
  - intros Hfixed. apply SceneFacts.sorted_fixed, SceneFacts.filter_sorted.
    rewrite <- Hfixed. apply SceneFacts.sorted_sorted.
Qed.

(** On the three example layers, which are stacked in list order. *)
Lemma removeLayer_keeps_the_rest_witness :
  Scene.sortedLayers example_layers = example_layers
  /\ Scene.sortedLayers (Scene.removeLayer "id-b" example_layers)
     = Scene.removeLayer "id-b" example_layers.
Proof.
  assert (H : Scene.sortedLayers example_layers = example_layers)
    by (vm_compute; reflexivity).
  split; [exact H |].
  exact (proj2 (proj2 (proj2 (proj2
           (removeLayer_keeps_the_rest "id-b" example_layers)))) H).
Defined.

(** X3. Dragging the layer shown at [dragged] over the row at [index]
    (two different rows of the panel) moves it to position [index]: the
    list keeps its length, the dragged layer stands at [index], the other
    layers keep their order, every z-index becomes the layer's position, and
    the canvas therefore stacks the layers in the new list order. Nothing
    but the z-index of any layer changes. *)
Theorem handleDragOver_moves_layer (dragged index : nat) (item : Scene.Layer)
    (layers : list Scene.Layer) :
  layers !! dragged = Some item -> (index < length layers)%nat -> dragged <> index ->
  exists moved,
    Scene.handleDragOver (Some dragged) index layers = Some (moved, Some index)
    /\ length moved = length layers
    /\ Scene.content <$> moved !! index = Some (Scene.content item)
    /\ Scene.content <$> delete index moved = Scene.content <$> delete dragged layers
    /\ Permutation (Scene.content <$> moved) (Scene.content <$> layers)
    /\ Scene.normalised moved
    /\ Scene.sortedLayers moved = moved.
Proof.
  intros Hitem Hindex Hne.
  pose proof (lookup_lt_Some _ _ _ Hitem) as Hdragged.
  unfold Scene.handleDragOver.
  destruct (Nat.eqb_spec dragged index) as [E | _]; [contradiction |].
  rewrite Hitem. unfold Scene.move_layer.
  set (m := Scene.splice_in index item (delete dragged layers)).
  assert (Hdel : length (delete dragged layers) = (length layers - 1)%nat)
    by (rewrite length_delete by eauto; reflexivity).
  exists (Scene.renumber m). split; [reflexivity |].
  split; [unfold Scene.renumber; rewrite length_imap; subst m;
          rewrite SceneFacts.splice_in_length; lia |].
  split.
  { rewrite <- list_lookup_fmap, SceneFacts.renumber_content, list_lookup_fmap.
    subst m. rewrite SceneFacts.splice_in_lookup by lia. reflexivity. }
  split.
  { rewrite !list_fmap_delete, SceneFacts.renumber_content, <- !list_fmap_delete.
    subst m. rewrite SceneFacts.delete_splice_in by lia. reflexivity. }
  split.
  { rewrite SceneFacts.renumber_content. subst m. unfold Scene.splice_in.
    rewrite fmap_app, fmap_cons, <- Permutation_middle, <- fmap_app, take_drop.
    rewrite <- fmap_cons. apply fmap_Permutation. symmetry.
    apply delete_Permutation. exact Hitem. }
  split; [apply SceneFacts.renumber_normalised |].
  apply SceneFacts.sorted_fixed, SceneFacts.normalised_sorted,
    SceneFacts.renumber_normalised.
Qed.

(** Dragging the bottom layer of the three example layers to the top. *)
Lemma handleDragOver_moves_layer_witness :
  (2 < length example_layers)%nat
  /\ exists moved,
      Scene.handleDragOver (Some 0%nat) 2%nat example_layers = Some (moved, Some 2%nat)
      /\ (Scene.id <$> moved) = ["id-b"; "id-c"; "id-a"].
Proof.
  assert (H0 : example_layers !! 0%nat
               = Some {| Scene.id := "id-a"; Scene.name := "head"; Scene.src := "data:a";
                         Scene.x := Num.of_Z 100; Scene.y := Num.of_Z 100;
                         Scene.zIndex := 0; Scene.scale := Num.of_Z 1 |})
    by reflexivity.
  assert (H2 : (2 < length example_layers)%nat) by (vm_compute; lia).
  assert (Hne : 0%nat <> 2%nat) by lia.
  split; [exact H2 |].
  destruct (handleDragOver_moves_layer 0 2 _ example_layers H0 H2 Hne)
    as (moved & Heq & _).
  exists moved. split; [exact Heq |].
  vm_compute in Heq. injection Heq as <-. vm_compute. reflexivity.
Defined.

(** X4. Dragging a layer from [dragged] to [index] and then back from
    [index] to [dragged] restores the list order: the result is the
    original list with every z-index set to its position. *)
Theorem handleDragOver_there_and_back (dragged index : nat) (item : Scene.Layer)
    (layers : list Scene.Layer) :
  layers !! dragged = Some item -> (index < length layers)%nat -> dragged <> index ->
  exists moved,
    Scene.handleDragOver (Some dragged) index layers = Some (moved, Some index)
    /\ Scene.handleDragOver (Some index) dragged moved
       = Some (Scene.renumber layers, Some dragged).
Proof.
  intros Hitem Hindex Hne.
  pose proof (lookup_lt_Some _ _ _ Hitem) as Hdragged.
  unfold Scene.handleDragOver.
  destruct (Nat.eqb_spec dragged index) as [E | _]; [contradiction |].
  destruct (Nat.eqb_spec index dragged) as [E | _]; [symmetry in E; contradiction |].
  rewrite Hitem. unfold Scene.move_layer.
  set (m := Scene.splice_in index item (delete dragged layers)).
  assert (Hdel : length (delete dragged layers) = (length layers - 1)%nat)
    by (rewrite length_delete by eauto; reflexivity).
  exists (Scene.renumber m). split; [reflexivity |].
  assert (Hm : m !! index = Some item)
    by (subst m; apply SceneFacts.splice_in_lookup; lia).
  unfold Scene.renumber at 1. rewrite list_lookup_imap, Hm. simpl.
  f_equal. f_equal. apply SceneFacts.renumber_by_content.
  rewrite SceneFacts.splice_in_fmap, list_fmap_delete, SceneFacts.renumber_content.
  rewrite <- list_fmap_delete. subst m.
  rewrite SceneFacts.delete_splice_in by lia.
  change (Scene.content _) with (Scene.content item) at 1.
  rewrite <- SceneFacts.splice_in_fmap. f_equal.
  apply SceneFacts.splice_in_delete. exact Hitem.
Qed.

(** Bottom to top and back on the three example layers. *)
Lemma handleDragOver_there_and_back_witness :
  (2 < length example_layers)%nat
  /\ exists moved,
      Scene.handleDragOver (Some 0%nat) 2%nat example_layers = Some (moved, Some 2%nat)
      /\ Scene.handleDragOver (Some 2%nat) 0%nat moved
         = Some (Scene.renumber example_layers, Some 0%nat).
Proof.
  assert (H0 : example_layers !! 0%nat
               = Some {| Scene.id := "id-a"; Scene.name := "head"; Scene.src := "data:a";
                         Scene.x := Num.of_Z 100; Scene.y := Num.of_Z 100;
                         Scene.zIndex := 0; Scene.scale := Num.of_Z 1 |})
    by reflexivity.
  assert (H2 : (2 < length example_layers)%nat) by (vm_compute; lia).
  assert (Hne : 0%nat <> 2%nat) by lia.
  split; [exact H2 |].
  exact (handleDragOver_there_and_back 0 2 _ example_layers H0 H2 Hne).
Defined.

Module StackingFacts.

Lemma insert_stable (c : Z) (a : Scene.Layer) (s : list Scene.Layer) :
  List.filter (fun l => Scene.zIndex l =? c) (Scene.insert_by_zIndex a s)
  = List.filter (fun l => Scene.zIndex l =? c) (a :: s).
Proof.
  induction s as [| first rest IH]; [reflexivity |].
  simpl Scene.insert_by_zIndex.
  destruct (Z.leb_spec (Scene.zIndex a) (Scene.zIndex first)) as [Hle | Hgt];
    [reflexivity |].
  simpl in *. rewrite IH.
  destruct (Z.eqb_spec (Scene.zIndex a) c), (Z.eqb_spec (Scene.zIndex first) c);
    try reflexivity. lia.
Qed.

Lemma sorted_stable (c : Z) (l : list Scene.Layer) :
  List.filter (fun l => Scene.zIndex l =? c) (Scene.sortedLayers l)
  = List.filter (fun l => Scene.zIndex l =? c) l.
Proof.
  unfold Scene.sortedLayers. induction l as [| a l IH]; [reflexivity |].
  simpl foldr. rewrite insert_stable. simpl. rewrite IH. reflexivity.
Qed.

End StackingFacts.

(** X5. The order the canvas draws in, [sortedLayers], holds every layer
    of the scene exactly once, in ascending z-index; layers of equal
    z-index stay in list order; and a list whose z-indexes are the positions
    is drawn in list order. *)
Theorem sortedLayers_stacking (layers : list Scene.Layer) :
  Permutation (Scene.sortedLayers layers) layers
  /\ StronglySorted Scene.by_zIndex (Scene.sortedLayers layers)
  /\ (forall c, List.filter (fun l => Scene.zIndex l =? c) (Scene.sortedLayers layers)
                = List.filter (fun l => Scene.zIndex l =? c) layers)
  /\ (Scene.normalised layers -> Scene.sortedLayers layers = layers).
Proof.
  split; [apply SceneFacts.sorted_perm |].
  split; [apply SceneFacts.sorted_sorted |].
  split; [intros c; apply StackingFacts.sorted_stable |].
  intros H. apply SceneFacts.sorted_fixed, SceneFacts.normalised_sorted, H.
Qed.

(** The three example layers are drawn in list order. *)
Lemma sortedLayers_stacking_witness :
  Scene.normalised example_layers /\ Scene.sortedLayers example_layers = example_layers.
Proof.
  assert (H : Scene.normalised example_layers)
    by (repeat apply SceneFacts.addLayer_normalised; apply SceneFacts.normalised_nil).
  split; [exact H |].
  exact (proj2 (proj2 (proj2 (sortedLayers_stacking example_layers))) H).
Defined.

(** X6. [handleScaleChange] touches nothing but the scale of the layers
    with the given id. The scale it writes is never below 0.1 when the
    field held a number: it is the number itself when that is above 0.1
    and 0.1 when it is below; when the field held no number ([parseFloat]
    gave NaN) the scale written is NaN. *)
Theorem handleScaleChange_floor (id_ : string) (newScale : Num.number)
    (layers : list Scene.Layer) :
  let changed := Scene.handleScaleChange id_ newScale layers in
  let written := Num.max Scene.lit_0_1 newScale in
  length changed = length layers
  /\ (forall i layer, layers !! i = Some layer ->
        exists layer',
          changed !! i = Some layer'
          /\ Scene.content layer'
             = (Scene.id layer, Scene.name layer, Scene.src layer, Scene.x layer,
                Scene.y layer, Scene.scale layer')
          /\ Scene.zIndex layer' = Scene.zIndex layer
          /\ Scene.scale layer'
             = if String.eqb (Scene.id layer) id_ then written else Scene.scale layer)
  /\ (Num.is_nan newScale = true -> Num.is_nan written = true)
  /\ (Num.is_nan newScale = false ->
      Num.is_nan written = false
      /\ Num.ltb written Scene.lit_0_1 = false
      /\ (Num.ltb Scene.lit_0_1 newScale = true -> written = newScale)
      /\ (Num.ltb newScale Scene.lit_0_1 = true -> written = Scene.lit_0_1)).
Proof.
  intros changed written. subst changed written.
  unfold Scene.handleScaleChange, Scene.updateLayer.
  split; [apply length_fmap |]. split.
  { intros i layer Hi. rewrite list_lookup_fmap, Hi. simpl.
    eexists. split; [reflexivity |].
    destruct (String.eqb (Scene.id layer) id_); repeat split. }
  unfold Num.max.
  change (Num.is_nan Scene.lit_0_1) with false.
  change (Num.is_neg_zero Scene.lit_0_1) with false. simpl orb.
  split.
  { intros ->. reflexivity. }
  intros Hnan. rewrite Hnan.
  destruct (Num.ltb Scene.lit_0_1 newScale) eqn:H1.
  { pose proof (SceneFacts.ltb_asym _ _ H1) as H2. rewrite H2.
    repeat split; auto. discriminate. }
  destruct (Num.ltb newScale Scene.lit_0_1) eqn:H2.
  { repeat split; auto using NumFacts.SFltb_irrefl. discriminate. }
  repeat split; auto using NumFacts.SFltb_irrefl; discriminate.
Qed.

(** A scale of 0.05 typed into the field of the middle example layer. *)
Lemma handleScaleChange_floor_witness :
  Num.is_nan (Num.div (Num.of_Z 5) (Num.of_Z 100)) = false
  /\ Num.ltb (Num.div (Num.of_Z 5) (Num.of_Z 100)) Scene.lit_0_1 = true
  /\ Num.max Scene.lit_0_1 (Num.div (Num.of_Z 5) (Num.of_Z 100)) = Scene.lit_0_1.
Proof.
  assert (H1 : Num.is_nan (Num.div (Num.of_Z 5) (Num.of_Z 100)) = false)
    by (vm_compute; reflexivity).
  assert (H2 : Num.ltb (Num.div (Num.of_Z 5) (Num.of_Z 100)) Scene.lit_0_1 = true)
    by (vm_compute; reflexivity).
  split; [exact H1 |]. split; [exact H2 |].
  destruct (handleScaleChange_floor "id-b" (Num.div (Num.of_Z 5) (Num.of_Z 100))
              example_layers) as (_ & _ & _ & H).
  destruct (H H1) as (_ & _ & _ & Hbelow).
  exact (Hbelow H2).
Defined.

(** X7. [toggleEffect] flips the named effect and no other; toggling the
    same effect twice restores the settings, and toggles of any two effects
    commute. *)
Theorem toggleEffect_flips_one (effect other : Scene.EffectKey)
    (prev : Scene.PostProcessingEffects) :
  Scene.effect_on effect (Scene.toggleEffect effect prev)
  = negb (Scene.effect_on effect prev)
  /\ (other <> effect ->
      Scene.effect_on other (Scene.toggleEffect effect prev) = Scene.effect_on other prev)
  /\ Scene.toggleEffect effect (Scene.toggleEffect effect prev) = prev
  /\ Scene.toggleEffect effect (Scene.toggleEffect other prev)
     = Scene.toggleEffect other (Scene.toggleEffect effect prev).
Proof.
  destruct prev as [a b c d e].
  split; [destruct effect; reflexivity |].
  split; [intros Hne; destruct effect, other; try reflexivity; destruct Hne; reflexivity |].
  split; [destruct effect; simpl; rewrite negb_involutive; reflexivity |].
  destruct effect, other; reflexivity.
Qed.

(** Toggling the vignette leaves the scan lines as they are. *)
Lemma toggleEffect_flips_one_witness :
  Scene.scanlines <> Scene.vignette
  /\ Scene.effect_on Scene.scanlines
       (Scene.toggleEffect Scene.vignette
          {| Scene.has_scanlines := true; Scene.has_vignette := false;
             Scene.has_halftone := false; Scene.has_chromaticAberration := false;
             Scene.has_filmGrain := false |}) = true.
Proof.
  assert (H : Scene.scanlines <> Scene.vignette) by discriminate.
  split; [exact H |].
  exact (proj1 (proj2 (toggleEffect_flips_one Scene.vignette Scene.scanlines _)) H).
Defined.


Module DropFacts.

Lemma substring_length (n : nat) (s : string) :
  String.length (Scene.substring_from_0 n s) = Nat.min n (String.length s).
Proof.
  revert n. induction s as [| c rest IH]; intros [| n]; simpl; try reflexivity.
  rewrite IH. reflexivity.
Qed.

Lemma substring_prefix (n : nat) (s : string) :
  JS.startsWith (Scene.substring_from_0 n s) s = true.
Proof.
  revert n. induction s as [| c rest IH]; intros [| n]; simpl; try reflexivity.
  rewrite Ascii.eqb_refl. apply IH.
Qed.

End DropFacts.

(** X8. A drop on the canvas adds nothing when the transferred image
    source is empty or the canvas is not mounted; otherwise it adds exactly
    one layer after the existing ones, with the transferred source, at
    (100, 100) and scale 1, named by the first 30 characters of the prompt
    (the whole prompt when it has at most 30). *)
Theorem handleDrop_adds_named_layer (uuid imageSrc prompt : string) (mounted : bool)
    (layers : list Scene.Layer) :
  let dropped := Scene.handleDrop uuid imageSrc prompt mounted layers in
  if String.eqb imageSrc "" || negb mounted then dropped = layers
  else exists newLayer,
      dropped = layers ++ [newLayer]
      /\ Scene.src newLayer = imageSrc
      /\ Scene.x newLayer = Num.of_Z 100 /\ Scene.y newLayer = Num.of_Z 100
      /\ Scene.scale newLayer = Num.of_Z 1
      /\ (String.length (Scene.name newLayer) <= 30)%nat
      /\ String.length (Scene.name newLayer) = Nat.min 30 (String.length prompt)
      /\ JS.startsWith (Scene.name newLayer) prompt = true.
Proof.
  intros dropped. subst dropped. unfold Scene.handleDrop, JS.truthy.
  destruct (String.eqb imageSrc ""); cbn [negb andb orb]; [reflexivity |].
  destruct mounted; cbn [negb andb orb]; [| reflexivity].
  unfold Scene.addLayer. eexists. split; [reflexivity |].
  cbn [Scene.name Scene.src Scene.x Scene.y Scene.scale].
  pose proof (DropFacts.substring_length 30 prompt) as Hlen.
  repeat split; try lia. apply DropFacts.substring_prefix.
Qed.

(** ** String facts *)

Module StrFacts.

Lemma startsWith_app (p s : string) : JS.startsWith p (p +:+ s) = true.
Proof.
  induction p as [| c p IH]; simpl; [reflexivity |].
  rewrite Ascii.eqb_refl. exact IH.
Qed.

Lemma append_assoc (a b c : string) : (a +:+ b) +:+ c = a +:+ (b +:+ c).
Proof.
  induction a as [| x a IH]; [reflexivity |].
  change (String x ((a +:+ b) +:+ c) = String x (a +:+ (b +:+ c))).
  f_equal. exact IH.
Qed.

Lemma startsWith_lower (p s : string) :
  JS.startsWith p s = true ->
  JS.startsWith (Str.toLowerCase p) (Str.toLowerCase s) = true.
Proof.
  revert s. induction p as [| c p IH]; intros [| d s]; simpl; try reflexivity;
    try discriminate.
  intros H. apply andb_true_iff in H as [Hc Hp].
  apply Ascii.eqb_eq in Hc as ->. rewrite Ascii.eqb_refl. simpl. apply IH, Hp.
Qed.

(** What a message contains it contains in lower case once lowered. *)
Lemma includes_lower (p s : string) :
  Str.includes p s = true ->
  Str.includes (Str.toLowerCase p) (Str.toLowerCase s) = true.
Proof.
  induction s as [| d s IH]; intros H.
  - change (Str.includes p "") with (JS.startsWith p "" || false) in H.
    rewrite orb_false_r in H.
    change (Str.includes (Str.toLowerCase p) (Str.toLowerCase ""))
      with (JS.startsWith (Str.toLowerCase p) (Str.toLowerCase "") || false).
    rewrite (startsWith_lower p "" H). reflexivity.
  - change (Str.includes p (String d s))
      with (JS.startsWith p (String d s) || Str.includes p s) in H.
    change (Str.includes (Str.toLowerCase p) (Str.toLowerCase (String d s)))
      with (JS.startsWith (Str.toLowerCase p) (Str.toLowerCase (String d s))
            || Str.includes (Str.toLowerCase p) (Str.toLowerCase s)).
    apply orb_true_iff in H as [H | H].
    + rewrite (startsWith_lower p (String d s) H). reflexivity.
    + rewrite (IH H). apply orb_true_r.
Qed.

Lemma strip_final_slash_app (p : string) : Str.strip_final_slash (p +:+ "/") = p.
Proof.
  induction p as [| c p IH]; [reflexivity |].
  change (String c p +:+ "/") with (String c (p +:+ "/")).
  simpl Str.strip_final_slash. rewrite IH.
  destruct (Ascii.eqb c "/"); [| reflexivity]. destruct p; reflexivity.
Qed.

Lemma strip_final_slash_none (p : string) :
  (forall q, p <> q +:+ "/") -> Str.strip_final_slash p = p.
Proof.
  induction p as [| c p IH]; intros H; [reflexivity |].
  change (Str.strip_final_slash (String c p))
    with (if String.eqb (String c p) "/" then "" else String c (Str.strip_final_slash p)).
  destruct (String.eqb_spec (String c p) "/") as [E | _].
  - destruct (H ""). exact E.
  - f_equal. apply IH. intros q Hq. apply (H (String c q)). rewrite Hq. reflexivity.
Qed.

End StrFacts.

(** X9. [generateImageAsset] without an API key makes no call and is
    rejected with the "not configured" message. With a key it makes exactly
    one call, for one PNG image at the snapped aspect ratio, and is
    fulfilled exactly when the response holds at least one image, with the
    data URL of the first. Every rejection carries an [Error] with one of
    five fixed messages; a response without images is reported with the
    "unexpected error" message, the "No image was generated." of the [try]
    block never reaching the caller. *)
Theorem generateImageAsset_outcomes (sdk : Gemini.ImagesRequest -> Gemini.SdkResult)
    (prompt : string) (width height : Num.number) (apiKey : string) :
  let run := Gemini.generateImageAsset sdk prompt width height apiKey in
  let r := Gemini.request prompt width height in
  (apiKey = "" -> run = ([], JS.Rejected (JS.ErrorObj Gemini.not_configured)))
  /\ (apiKey <> "" ->
      run.1 = [r]
      /\ Gemini.req_numberOfImages r = 1
      /\ Gemini.req_aspectRatio r = aspect_key (getClosestAspectRatio width height)
      /\ match sdk r with
         | Gemini.Response (Some (first :: _)) =>
             run.2 = JS.Fulfilled ("data:image/png;base64," +:+ first)
         | Gemini.Response _ => run.2 = JS.Rejected (JS.ErrorObj Gemini.unexpected)
         | Gemini.SdkThrows e => run.2 = JS.Rejected (JS.ErrorObj (Gemini.classify e))
         end)
  /\ (forall e, run.2 = JS.Rejected e ->
        exists message,
          e = JS.ErrorObj message
          /\ message ∈ [Gemini.not_configured; Gemini.quota_zero; Gemini.rate_limited;
                        Gemini.invalid_key; Gemini.unexpected]).
Proof.
  intros run r. subst run r. unfold Gemini.generateImageAsset, JS.truthy.
  assert (Hclass : forall e,
             Gemini.classify e ∈ [Gemini.not_configured; Gemini.quota_zero;
                                  Gemini.rate_limited; Gemini.invalid_key;
                                  Gemini.unexpected]).
  { intros [message |]; unfold Gemini.classify;
      repeat match goal with
        | |- context [if ?c then _ else _] => destruct c
        end;
      repeat (first [apply list_elem_of_here | apply list_elem_of_further]). }
  destruct (String.eqb_spec apiKey "") as [-> | Hkey]; simpl.
  - split; [reflexivity |]. split; [intros H; destruct H; reflexivity |].
    intros e H. injection H as <-. eexists. split; [reflexivity |].
    apply list_elem_of_here.
  - split; [intros H; contradiction |]. split.
    + intros _.
      destruct (sdk (Gemini.request prompt width height))
        as [[[| first rest] |] | e]; repeat split.
    + intros e.
      destruct (sdk (Gemini.request prompt width height))
        as [[[| first rest] |] | e']; simpl; intros H; try discriminate;
        injection H as <-; eexists; (split; [reflexivity |]);
        first [apply Hclass
              | repeat (first [apply list_elem_of_here | apply list_elem_of_further])].
Qed.

(** With the key missing, and with a key and an SDK that answers without
    images. *)
Lemma generateImageAsset_outcomes_witness :
  (Gemini.generateImageAsset (fun _ => Gemini.Response (Some [])) "a hero"
     (Num.of_Z 64) (Num.of_Z 64) "" = ([], JS.Rejected (JS.ErrorObj Gemini.not_configured)))
  /\ "key" <> ""
  /\ (Gemini.generateImageAsset (fun _ => Gemini.Response (Some [])) "a hero"
        (Num.of_Z 64) (Num.of_Z 64) "key").2
     = JS.Rejected (JS.ErrorObj Gemini.unexpected).
Proof.
  assert (H0 : "" = "") by reflexivity.
  assert (H1 : "key" <> "") by discriminate.
  destruct (generateImageAsset_outcomes (fun _ => Gemini.Response (Some [])) "a hero"
              (Num.of_Z 64) (Num.of_Z 64) "") as (P0 & _).
  destruct (generateImageAsset_outcomes (fun _ => Gemini.Response (Some [])) "a hero"
              (Num.of_Z 64) (Num.of_Z 64) "key") as (_ & P1 & _).
  split; [exact (P0 H0) |]. split; [exact H1 |].
  destruct (P1 H1) as (_ & _ & _ & P). exact P.
Defined.

(** X10. The [catch] block of [generateImageAsset] recognises its marks
    whatever the case of their letters. A message that contains "429" or
    any spelling of "resource_exhausted" ("RESOURCE_EXHAUSTED" as the
    service writes it, "Resource_Exhausted", ...) is reported as the
    zero-quota error when it also contains some spelling of "limit: 0" and
    as the rate-limit error otherwise, and this takes precedence over the
    invalid-key report; a message that contains some spelling of "API key
    not valid" and no quota mark is reported as an invalid key; a message
    with none of the marks is reported as the unexpected error. *)
Theorem classify_quota_first (message : string) :
  let lowered := Str.toLowerCase message in
  (forall quota,
      Str.toLowerCase quota = "429" \/ Str.toLowerCase quota = "resource_exhausted" ->
      Str.includes quota message = true ->
      (forall zero,
          Str.toLowerCase zero = "limit: 0" -> Str.includes zero message = true ->
          Gemini.classify (JS.ErrorObj message) = Gemini.quota_zero)
      /\ (Str.includes "limit: 0" lowered = false ->
          Gemini.classify (JS.ErrorObj message) = Gemini.rate_limited))
  /\ (forall key,
        Str.toLowerCase key = "api key not valid" ->
        Str.includes key message = true ->
        Str.includes "429" lowered = false ->
        Str.includes "resource_exhausted" lowered = false ->
        Gemini.classify (JS.ErrorObj message) = Gemini.invalid_key)
  /\ (Str.includes "429" lowered = false ->
      Str.includes "resource_exhausted" lowered = false ->
      Str.includes "api key not valid" lowered = false ->
      Gemini.classify (JS.ErrorObj message) = Gemini.unexpected).
Proof.
  intros lowered. subst lowered. unfold Gemini.classify. split; [| split].
  - intros quota Hquota Hin. apply StrFacts.includes_lower in Hin.
    assert (Hmark : Str.includes "429" (Str.toLowerCase message)
                    || Str.includes "resource_exhausted" (Str.toLowerCase message) = true).
    { destruct Hquota as [Hq | Hq]; rewrite Hq in Hin; rewrite Hin;
        [reflexivity | apply orb_true_r]. }
    rewrite Hmark. split.
    + intros zero Hzero Hz. apply StrFacts.includes_lower in Hz.
      rewrite Hzero in Hz. rewrite Hz. reflexivity.
    + intros Hz. rewrite Hz. reflexivity.
  - intros key Hkey Hin H1 H2. apply StrFacts.includes_lower in Hin.
    rewrite Hkey in Hin. rewrite H1, H2, Hin. reflexivity.
  - intros H1 H2 H3. rewrite H1, H2, H3. reflexivity.
Qed.

(** A quota error spelled in mixed case. *)
Lemma classify_quota_first_witness :
  Gemini.classify
    (JS.ErrorObj "got status: 429 Resource_Exhausted. Quota exceeded, Limit: 0")
  = Gemini.quota_zero
  /\ Gemini.classify (JS.ErrorObj "Resource_Exhausted: API key not valid")
     = Gemini.rate_limited.
Proof.
  split.
  - apply (proj1 (proj1 (classify_quota_first
                           "got status: 429 Resource_Exhausted. Quota exceeded, Limit: 0")
                        "Resource_Exhausted" (or_intror eq_refl) eq_refl)
                 "Limit: 0"); reflexivity.
  - apply (proj2 (proj1 (classify_quota_first "Resource_Exhausted: API key not valid")
                        "Resource_Exhausted" (or_intror eq_refl) eq_refl)).
    reflexivity.
Defined.

(** X11. [generateWithOpenAICompatibleModel] without an API key sends
    nothing. It sends at most one request, always for one image of
    1024x1024 as base64 JSON with the key as bearer token. It is fulfilled
    only with the data URL of a non-empty first [b64_json] of a 2xx answer.
    Every rejection carries an [Error] whose message is the model name
    followed by " generation failed: " and the cause, or, when something
    other than an [Error] was thrown, the "unknown error" sentence. *)
Theorem openai_outcomes (net : OpenAI.Net) (prompt apiKey endpoint model : string) :
  let run := OpenAI.generateWithOpenAICompatibleModel net prompt apiKey endpoint model in
  (apiKey = "" ->
   run = ([], JS.Rejected (JS.ErrorObj (model +:+ " generation failed: " +:+ OpenAI.no_key))))
  /\ (length run.1 <= 1)%nat
  /\ (forall r, r ∈ run.1 ->
        OpenAI.req_n r = 1 /\ OpenAI.req_size r = "1024x1024"
        /\ OpenAI.req_response_format r = "b64_json"
        /\ OpenAI.req_authorization r = "Bearer " +:+ apiKey
        /\ OpenAI.req_model r = model /\ OpenAI.req_prompt r = prompt)
  /\ (forall value, run.2 = JS.Fulfilled value ->
        exists r body b64_json rest status,
          run.1 = [r]
          /\ OpenAI.fetch net r = OpenAI.Replies status (OpenAI.Json body)
          /\ response_ok status = true
          /\ OpenAI.data body = Some (Some b64_json :: rest)
          /\ b64_json <> ""
          /\ value = "data:image/png;base64," +:+ b64_json)
  /\ (forall e, run.2 = JS.Rejected e ->
        exists message,
          e = JS.ErrorObj message
          /\ (JS.startsWith (model +:+ " generation failed: ") message = true
              \/ message = "An unknown error occurred while generating with "
                             +:+ model +:+ ".")).
Proof.
  intros run. subst run. unfold OpenAI.generateWithOpenAICompatibleModel, JS.truthy.
  assert (Hre : forall cause e,
             OpenAI.rethrow model cause = JS.Rejected e ->
             exists message,
               e = JS.ErrorObj message
               /\ (JS.startsWith (model +:+ " generation failed: ") message = true
                   \/ message = "An unknown error occurred while generating with "
                                  +:+ model +:+ ".")).
  { intros [m |] e H; simpl in H; injection H as <-; eexists;
      (split; [reflexivity |]); [left | right; reflexivity].
    rewrite <- StrFacts.append_assoc. apply StrFacts.startsWith_app. }
  destruct (String.eqb_spec apiKey "") as [-> | Hkey]; simpl negb; cbv iota.
  { split; [reflexivity |]. split; [simpl; lia |].
    split; [intros r Hr; inversion Hr |].
    split; [intros v H; simpl in H; unfold OpenAI.rethrow in H;
                repeat match type of H with
                  | context [match ?x with _ => _ end] => destruct x
                  end; discriminate H |]. apply Hre. }
  split; [intros H; contradiction |].
  destruct (OpenAI.new_URL net endpoint) as [apiUrl | typeError].
  2: { split; [simpl; lia |]. split; [intros r Hr; inversion Hr |].
       split; [intros v H; simpl in H; unfold OpenAI.rethrow in H;
                repeat match type of H with
                  | context [match ?x with _ => _ end] => destruct x
                  end; discriminate H |]. apply Hre. }
  set (r := OpenAI.request apiUrl prompt apiKey model).
  assert (Hreq : forall r', r' ∈ [r] ->
             OpenAI.req_n r' = 1 /\ OpenAI.req_size r' = "1024x1024"
             /\ OpenAI.req_response_format r' = "b64_json"
             /\ OpenAI.req_authorization r' = "Bearer " +:+ apiKey
             /\ OpenAI.req_model r' = model /\ OpenAI.req_prompt r' = prompt).
  { intros r' Hr'. apply list_elem_of_singleton in Hr' as ->. repeat split. }
  destruct (OpenAI.fetch net r) as [status [body | e'] | e'] eqn:Hfetch;
    try (split; [simpl; lia |]; split; [exact Hreq |];
         split; [intros v H; simpl in H; unfold OpenAI.rethrow in H;
                repeat match type of H with
                  | context [match ?x with _ => _ end] => destruct x
                  end; discriminate H |]; apply Hre).
  destruct (response_ok status) eqn:Hok;
    [| split; [simpl; lia |]; split; [exact Hreq |];
       split; [intros v H; simpl in H; unfold OpenAI.rethrow in H;
                repeat match type of H with
                  | context [match ?x with _ => _ end] => destruct x
                  end; discriminate H |]; apply Hre].
  destruct (OpenAI.data body) as [[| [b64_json |] rest] |] eqn:Hdata;
    try (split; [simpl; lia |]; split; [exact Hreq |];
         split; [intros v H; simpl in H; unfold OpenAI.rethrow in H;
                repeat match type of H with
                  | context [match ?x with _ => _ end] => destruct x
                  end; discriminate H |]; apply Hre).
  destruct (String.eqb_spec b64_json "") as [E | E]; simpl negb; cbv iota;
    try (split; [simpl; lia |]; split; [exact Hreq |];
         split; [intros v H; simpl in H; unfold OpenAI.rethrow in H;
                repeat match type of H with
                  | context [match ?x with _ => _ end] => destruct x
                  end; discriminate H |]; apply Hre).
  split; [simpl; lia |]. split; [exact Hreq |]. split.
  - intros v H. injection H as <-.
    exists r, body, b64_json, rest, status. repeat split; auto.
  - intros e H. discriminate H.
Qed.

(** No key: nothing is sent. *)
Lemma openai_outcomes_witness :
  "" = ""
  /\ OpenAI.generateWithOpenAICompatibleModel
       {| OpenAI.new_URL := fun e => inr "Invalid URL";
          OpenAI.fetch := fun _ => OpenAI.FetchThrows JS.NonError |}
       "a hero" "" "https://api.openai.com/v1" "dall-e-3"
     = ([], JS.Rejected (JS.ErrorObj ("dall-e-3" +:+ " generation failed: "
                                        +:+ OpenAI.no_key))).
Proof.
  assert (H : "" = "") by reflexivity.
  split; [exact H |].
  exact (proj1 (openai_outcomes
                  {| OpenAI.new_URL := fun e => inr "Invalid URL";
                     OpenAI.fetch := fun _ => OpenAI.FetchThrows JS.NonError |}
                  "a hero" "" "https://api.openai.com/v1" "dall-e-3") H).
Defined.

(** X12. When the service answers a request with a status outside 2xx and
    a readable JSON body, the rejection message is the model name, then
    " generation failed: ", then: for 401 the invalid-key sentence whatever
    the body says; for 429 the billing sentence when the server's message
    mentions "billing" and the rate-limit sentence naming the model
    otherwise; for any other status the server's own message, or "API
    failed with status: N" when it gave none. *)
Theorem openai_status_messages (net : OpenAI.Net) (prompt apiKey endpoint model : string)
    (apiUrl : OpenAI.URL) (status : Z) (body : OpenAI.Body) :
  apiKey <> "" ->
  OpenAI.new_URL net endpoint = inl apiUrl ->
  OpenAI.fetch net (OpenAI.request apiUrl prompt apiKey model)
  = OpenAI.Replies status (OpenAI.Json body) ->
  response_ok status = false ->
  let serverMessage :=
    match OpenAI.error_message body with
    | Some m => if String.eqb m "" then None else Some m
    | None => None
    end in
  (OpenAI.generateWithOpenAICompatibleModel net prompt apiKey endpoint model).2
  = JS.Rejected
      (JS.ErrorObj
         (model +:+ " generation failed: "
            +:+ (if status =? 401 then "Invalid API key (401). Please check your key."
                 else if status =? 429 then
                   if Str.includes "billing"
                        (default ("API failed with status: " +:+ JS.string_of_Z status)
                                 serverMessage)
                   then "Billing issue (429): Please check your credit balance or plan."
                   else "Rate limit exceeded for " +:+ model
                          +:+ " API (429). Please try again later."
                 else default ("API failed with status: " +:+ JS.string_of_Z status)
                              serverMessage))).
Proof.
  intros Hkey Hurl Hfetch Hok serverMessage. subst serverMessage.
  unfold OpenAI.generateWithOpenAICompatibleModel, JS.truthy.
  destruct (String.eqb_spec apiKey ""); [contradiction |]. simpl negb. cbv iota.
  rewrite Hurl, Hfetch, Hok. simpl. unfold OpenAI.status_error, JS.or_else, JS.truthy.
  destruct (OpenAI.error_message body) as [m |]; simpl;
    [destruct (String.eqb m ""); simpl |]; reflexivity.
Qed.

(** A 429 answer whose message speaks of billing. *)
Lemma openai_status_messages_witness :
  "sk-key" <> ""
  /\ (OpenAI.generateWithOpenAICompatibleModel
        {| OpenAI.new_URL := fun e =>
             inl {| OpenAI.origin := "https://api.openai.com"; OpenAI.pathname := "/v1";
                    OpenAI.search_hash := ""; OpenAI.opaque_path := false |};
           OpenAI.fetch := fun _ =>
             OpenAI.Replies 429
               (OpenAI.Json {| OpenAI.error_message := Some "Check your billing details.";
                               OpenAI.data := None |}) |}
        "a hero" "sk-key" "https://api.openai.com/v1" "dall-e-3").2
     = JS.Rejected
         (JS.ErrorObj
            "dall-e-3 generation failed: Billing issue (429): Please check your credit balance or plan.").
Proof.
  assert (H : "sk-key" <> "") by discriminate.
  split; [exact H |].
  exact (openai_status_messages
           {| OpenAI.new_URL := fun e =>
                inl {| OpenAI.origin := "https://api.openai.com"; OpenAI.pathname := "/v1";
                       OpenAI.search_hash := ""; OpenAI.opaque_path := false |};
              OpenAI.fetch := fun _ =>
                OpenAI.Replies 429
                  (OpenAI.Json {| OpenAI.error_message := Some "Check your billing details.";
                                  OpenAI.data := None |}) |}
           "a hero" "sk-key" "https://api.openai.com/v1" "dall-e-3"
           _ 429 _ H eq_refl eq_refl eq_refl).
Defined.

(** X13. The address requested. For an endpoint whose URL has a
    hierarchical path, one slash at the end of the path makes no
    difference: for a path [p] that does not end in a slash, the endpoints
    with path [p] and with path [p/] are both sent to [p] followed by
    "/images/generations". For an endpoint whose URL has an opaque path, as
    one typed without [//] after its scheme, nothing is appended: the
    request goes to the endpoint as it parses. *)
Theorem images_url_final_slash (origin p rest prompt apiKey model : string)
    (opaque : bool) :
  (forall q, p <> q +:+ "/") ->
  let plain := {| OpenAI.origin := origin; OpenAI.pathname := p;
                  OpenAI.search_hash := rest; OpenAI.opaque_path := opaque |} in
  let slashed := {| OpenAI.origin := origin; OpenAI.pathname := p +:+ "/";
                    OpenAI.search_hash := rest; OpenAI.opaque_path := opaque |} in
  if opaque then
    OpenAI.req_url (OpenAI.request plain prompt apiKey model) = OpenAI.href plain
    /\ OpenAI.req_url (OpenAI.request slashed prompt apiKey model) = OpenAI.href slashed
  else
    OpenAI.req_url (OpenAI.request plain prompt apiKey model)
    = origin +:+ (p +:+ "/images/generations") +:+ rest
    /\ OpenAI.request slashed prompt apiKey model
       = OpenAI.request plain prompt apiKey model.
Proof.
  intros Hp plain slashed. subst plain slashed.
  destruct opaque; [split; reflexivity |].
  unfold OpenAI.request, OpenAI.images_url, OpenAI.href.
  cbn [OpenAI.opaque_path OpenAI.origin OpenAI.pathname OpenAI.search_hash OpenAI.req_url].
  rewrite StrFacts.strip_final_slash_app, (StrFacts.strip_final_slash_none p Hp).
  split; reflexivity.
Qed.

(** The default endpoint with a slash, and an endpoint typed without its
    scheme, which parses with scheme [localhost] and opaque path
    [8080/v1]. *)
Lemma images_url_final_slash_witness :
  OpenAI.req_url
    (OpenAI.request {| OpenAI.origin := "https://api.openai.com";
                       OpenAI.pathname := "/v1/"; OpenAI.search_hash := "";
                       OpenAI.opaque_path := false |}
                    "a hero" "sk-key" "dall-e-3")
  = "https://api.openai.com/v1/images/generations"
  /\ OpenAI.req_url
       (OpenAI.request {| OpenAI.origin := "localhost:";
                          OpenAI.pathname := "8080/v1"; OpenAI.search_hash := "";
                          OpenAI.opaque_path := true |}
                       "a hero" "sk-key" "dall-e-3")
     = "localhost:8080/v1".
Proof.
  assert (H : forall q, "/v1" <> q +:+ "/").
  { intros q E. destruct q as [| a [| b [| c [| d q]]]]; discriminate E. }
  assert (H' : forall q, "8080/v1" <> q +:+ "/").
  { intros q E. destruct q as [| a [| b [| c [| d [| e [| g [| h [| k q]]]]]]]];
      discriminate E. }
  split.
  - destruct (images_url_final_slash "https://api.openai.com" "/v1" "" "a hero" "sk-key"
                "dall-e-3" false H) as [Hurl Hsame].
    change ("/v1/") with ("/v1" +:+ "/"). rewrite Hsame. exact Hurl.
  - exact (proj1 (images_url_final_slash "localhost:" "8080/v1" "" "a hero" "sk-key"
                    "dall-e-3" true H')).
Defined.

Module KeyFacts.

Lemma all_rejected (fullPrompt : string) (e : JS.Thrown) (n : nat)
    (call : nat -> JS.Settled) :
  (forall i, call i = JS.Rejected e) ->
  successes fullPrompt (call <$> seq 0 (S n)) = []
  /\ first_rejection (call <$> seq 0 (S n)) = Some e.
Proof.
  intros H. split.
  - unfold successes. generalize 0%nat. induction (S n) as [| k IH]; intros start;
      [reflexivity |].
    cbn. rewrite H. apply IH.
  - unfold first_rejection. cbn. rewrite H. reflexivity.
Qed.

(** Single-shot generation when every call is rejected for one reason. *)
Lemma single_all_rejected (w : World) (p : Panel) (generatedImages : list Image)
    (e : JS.Thrown) :
  (forall i, single_generateFunc w p (single_fullPrompt p) i = JS.Rejected e) ->
  images (handleGenerateSingle w p generatedImages) = generatedImages
  /\ error_shown (handleGenerateSingle w p generatedImages)
     = Some (JS.message_or e "All variations failed to generate.").
Proof.
  intros H.
  pose proof (FanOutFacts.clamped_range (engine p) (numberOfVariations p)) as HY.
  assert (Hagg : aggregate (single_fullPrompt p)
                   (clampedVariations (engine p) (numberOfVariations p))
                   (single_generateFunc w p (single_fullPrompt p)
                      <$> seq 0 (Z.to_nat (clampedVariations (engine p) (numberOfVariations p))))
                   generatedImages
                 = (generatedImages,
                    Some (JS.message_or e "All variations failed to generate."))).
  { set (Y := clampedVariations (engine p) (numberOfVariations p)) in *.
    destruct (Z.to_nat Y) as [| n] eqn:Hn; [lia |].
    destruct (all_rejected (single_fullPrompt p) e n _ H) as [Hwins Hfirst].
    unfold aggregate, all_failed_reason. rewrite Hwins, Hfirst. simpl length.
    change (Z.of_nat 0) with 0.
    destruct (Z.ltb_spec 0 (Y - 0)); [| lia]. reflexivity. }
  unfold handleGenerateSingle. rewrite Hagg. split; reflexivity.
Qed.

End KeyFacts.

(** X14. Generating with an engine whose API key is not set touches no
    service and shows why: the gallery stays as it is and the error shown
    is "Gemini API key is not configured. ..." for gemini, and the model
    name, " generation failed: " and "OpenAI API key is not configured.
    ..." for dall-e-3 and deepseek, whatever the number of variations. *)
Theorem missing_key_is_reported (b : Browser) (transport : nat -> Z -> Exchange)
    (sdk : nat -> Gemini.ImagesRequest -> Gemini.SdkResult) (net : nat -> OpenAI.Net)
    (p : Panel) (generatedImages : list Image) :
  let out := handleGenerateSingle (world_of b transport sdk net) p generatedImages in
  (engine p = gemini -> geminiApiKey p = "" ->
   images out = generatedImages /\ error_shown out = Some Gemini.not_configured
   /\ forall i,
       (Gemini.generateImageAsset (sdk i) (single_fullPrompt p) (Num.of_Z (width p))
          (Num.of_Z (height p)) (geminiApiKey p)).1 = [])
  /\ (engine p = dalle3 -> openAiApiKey p = "" ->
      images out = generatedImages
      /\ error_shown out = Some ("dall-e-3 generation failed: " +:+ OpenAI.no_key)
      /\ forall i,
          (OpenAI.generateWithOpenAICompatibleModel (net i) (single_fullPrompt p)
             (openAiApiKey p) (openAiApiEndpoint p) "dall-e-3").1 = [])
  /\ (engine p = deepseek -> openAiApiKey p = "" ->
      images out = generatedImages
      /\ error_shown out = Some ("deepseek-image-v1 generation failed: " +:+ OpenAI.no_key)
      /\ forall i,
          (OpenAI.generateWithOpenAICompatibleModel (net i) (single_fullPrompt p)
             (openAiApiKey p) (openAiApiEndpoint p) "deepseek-image-v1").1 = []).
Proof.
  intros out. subst out. split; [| split]; intros He Hkey.
  - destruct (KeyFacts.single_all_rejected (world_of b transport sdk net) p generatedImages
                (JS.ErrorObj Gemini.not_configured)) as [Hi Herr].
    { intros i. unfold single_generateFunc. rewrite He. simpl. rewrite Hkey. reflexivity. }
    split; [exact Hi |]. split; [exact Herr |]. intros i. rewrite Hkey. reflexivity.
  - destruct (KeyFacts.single_all_rejected (world_of b transport sdk net) p generatedImages
                (JS.ErrorObj ("dall-e-3 generation failed: " +:+ OpenAI.no_key)))
      as [Hi Herr].
    { intros i. unfold single_generateFunc. rewrite He. simpl. rewrite Hkey. reflexivity. }
    split; [exact Hi |]. split; [exact Herr |]. intros i. rewrite Hkey. reflexivity.
  - destruct (KeyFacts.single_all_rejected (world_of b transport sdk net) p generatedImages
                (JS.ErrorObj ("deepseek-image-v1 generation failed: " +:+ OpenAI.no_key)))
      as [Hi Herr].
    { intros i. unfold single_generateFunc. rewrite He. simpl. rewrite Hkey. reflexivity. }
    split; [exact Hi |]. split; [exact Herr |]. intros i. rewrite Hkey. reflexivity.
Qed.

(** The panel as it opens, with dall-e-3 chosen and no key typed in. *)
Lemma missing_key_is_reported_witness :
  engine (example_panel dalle3 1) = dalle3
  /\ openAiApiKey (example_panel dalle3 1) = ""
  /\ error_shown
       (handleGenerateSingle
          (world_of example_browser (fun _ => always_status 500)
             (fun _ _ => Gemini.Response None)
             (fun _ => {| OpenAI.new_URL := fun e => inr "Invalid URL";
                          OpenAI.fetch := fun _ => OpenAI.FetchThrows JS.NonError |}))
          (example_panel dalle3 1) [])
     = Some ("dall-e-3 generation failed: " +:+ OpenAI.no_key).
Proof.
  assert (He : engine (example_panel dalle3 1) = dalle3) by reflexivity.
  assert (Hk : openAiApiKey (example_panel dalle3 1) = "") by reflexivity.
  split; [exact He |]. split; [exact Hk |].
  destruct (missing_key_is_reported example_browser (fun _ => always_status 500)
              (fun _ _ => Gemini.Response None)
              (fun _ => {| OpenAI.new_URL := fun e => inr "Invalid URL";
                           OpenAI.fetch := fun _ => OpenAI.FetchThrows JS.NonError |})
              (example_panel dalle3 1) []) as (_ & P & _).
  exact (proj1 (proj2 (P He Hk))).
Defined.

Module PublicFacts.

(** The answers after which the loop goes on to the next attempt. *)
Lemma flow_of_transient (x : Exchange) :
  match x with
  | Responds status blob =>
      if response_ok status
      then match blob with
           | BlobOf type _ => JS.startsWith "image/" type = false
           | BlobThrows _ => True
           end
      else status = 429 \/ 500 <= status
  | Throws _ => True
  end ->
  flow_of x = Next.
Proof.
  unfold flow_of, attempt_body, catch_network_error.
  destruct x as [status [type read | e] | e]; simpl; try reflexivity.
  - destruct (response_ok status).
    + intros ->. reflexivity.
    + intros H. destruct (Z.ltb_spec status 500), (Z.eqb_spec status 429);
        simpl; try reflexivity; lia.
  - destruct (response_ok status); [reflexivity |].
    intros H. destruct (Z.ltb_spec status 500), (Z.eqb_spec status 429);
      simpl; try reflexivity; lia.
Qed.

Lemma flow_of_image (status : Z) (type : string) (read : FileRead) :
  response_ok status = true -> JS.startsWith "image/" type = true ->
  flow_of (Responds status (BlobOf type read)) = Return (read_as_data_url read).
Proof.
  intros Hok Himg. unfold flow_of, attempt_body. rewrite Hok, Himg. reflexivity.
Qed.

Lemma flow_of_return (x : Exchange) (s : JS.Settled) :
  flow_of x = Return s ->
  exists status type read,
    x = Responds status (BlobOf type read) /\ succeeds x = true
    /\ s = read_as_data_url read.
Proof.
  destruct x as [status [type read | e] | e]; unfold flow_of, attempt_body, succeeds.
  - destruct (response_ok status) eqn:Hok, (JS.startsWith "image/" type) eqn:Himg;
      try (destruct ((status <? 500) && negb (status =? 429))); try discriminate;
      intros [= <-]; exists status, type, read; repeat split.
  - destruct (response_ok status); try discriminate.
    destruct ((status <? 500) && negb (status =? 429)); discriminate.
  - discriminate.
Qed.

Lemma placeholder_fulfilled (b : Browser) (prompt : string) (width height : Z) (e : JS.Thrown) :
  generatePlaceholder b prompt width height <> JS.Rejected e.
Proof. unfold generatePlaceholder. discriminate. Qed.

End PublicFacts.

(** X15. The public model retries transient failures: when attempt 1 or 2
    is answered by status 429, by a status of 500 or more, by a 2xx
    response whose body is not an image or cannot be read as a blob, or
    by a network error, the next attempt is made later in the run, and it
    fetches the same URL, the one built from the prompt, its seed and the
    size. *)
Theorem public_model_retries_transient (b : Browser) (prompt : string) (width height : Z)
    (onRetry : bool) (transport : Z -> Exchange) (i : nat) (k : Z) (url : string) :
  let run := generateWithPublicModel b prompt width height onRetry transport in
  run.1 !! i = Some (Fetch k url) ->
  k < 3 ->
  match transport k with
  | Responds status blob =>
      if response_ok status
      then match blob with
           | BlobOf type _ => JS.startsWith "image/" type = false
           | BlobThrows _ => True
           end
      else status = 429 \/ 500 <= status
  | Throws _ => True
  end ->
  url = image_url b prompt width height
  /\ exists j, (i < j)%nat /\ run.1 !! j = Some (Fetch (k + 1) url).
Proof.
  intros run H Hk Htransient. apply PublicFacts.flow_of_transient in Htransient.
  subst run. rewrite RetryFacts.run_shape in *.
  generalize dependent (generatePlaceholder b prompt width height). intros placeholder.
  generalize dependent (image_url b prompt width height). intros u H.
  destruct (flow_of (transport 1)) eqn:F1, (flow_of (transport 2)) eqn:F2, onRetry;
    normal_trace; by_index i H; simplify_eq; try lia; try congruence;
    (split; [reflexivity |]);
    first [ exists 2%nat; split; [lia | reflexivity]
          | exists 3%nat; split; [lia | reflexivity]
          | exists 4%nat; split; [lia | reflexivity]
          | exists 5%nat; split; [lia | reflexivity]
          | exists 6%nat; split; [lia | reflexivity] ].
Qed.

(** A rate-limited first attempt followed by an image. *)
Lemma public_model_retries_transient_witness :
  let transport := fun k : Z =>
    if k =? 1 then Responds 429 (BlobOf "text/plain" (ReadDone "data:text/plain;base64,"))
    else Responds 200 (BlobOf "image/png" (ReadDone "data:image/png;base64,AAAA")) in
  let run := generateWithPublicModel example_browser "a stoic hero" 64 64 true transport in
  exists j, (0 < j)%nat
    /\ run.1 !! j = Some (Fetch 2 (image_url example_browser "a stoic hero" 64 64)).
Proof.
  intros transport run.
  destruct (public_model_retries_transient example_browser "a stoic hero" 64 64 true
              transport 0 1 (image_url example_browser "a stoic hero" 64 64))
    as [_ Hj].
  - vm_compute. reflexivity.
  - lia.
  - simpl. left. reflexivity.
  - exact Hj.
Defined.

(** X16. The first image wins: when an attempt that is made gets a 2xx
    response whose blob is an image, the promise settles as the reading of
    that blob does, and nothing follows that attempt in the run: no wait,
    no notification, no further fetch. *)
Theorem public_model_first_image_wins (b : Browser) (prompt : string) (width height : Z)
    (onRetry : bool) (transport : Z -> Exchange) (i : nat) (k : Z) (url : string)
    (status : Z) (type : string) (read : FileRead) :
  let run := generateWithPublicModel b prompt width height onRetry transport in
  run.1 !! i = Some (Fetch k url) ->
  transport k = Responds status (BlobOf type read) ->
  response_ok status = true -> JS.startsWith "image/" type = true ->
  run.2 = read_as_data_url read
  /\ run.1 !! S i = None
  /\ attempts_made run.1 = Z.to_nat k.
Proof.
  intros run H Htr Hok Himg.
  pose proof (PublicFacts.flow_of_image status type read Hok Himg) as Hflow.
  rewrite <- Htr in Hflow. clear Htr Hok Himg.
  subst run. rewrite RetryFacts.run_shape in *.
  generalize dependent (generatePlaceholder b prompt width height). intros placeholder.
  generalize dependent (image_url b prompt width height). intros u H.
  destruct (flow_of (transport 1)) eqn:F1, (flow_of (transport 2)) eqn:F2, onRetry;
    normal_trace; by_index i H; simplify_eq;
    try rewrite Hflow; repeat split; first [reflexivity | congruence].
Qed.

(** Two server errors, then an image. *)
Lemma public_model_first_image_wins_witness :
  let transport := fun k : Z =>
    if k <? 3 then always_status 503 k
    else Responds 200 (BlobOf "image/jpeg" (ReadDone "data:image/jpeg;base64,AAAA")) in
  let run := generateWithPublicModel example_browser "a stoic hero" 64 64 false transport in
  run.2 = JS.Fulfilled "data:image/jpeg;base64,AAAA"
  /\ run.1 !! 5%nat = None
  /\ attempts_made run.1 = 3%nat.
Proof.
  intros transport run.
  apply (public_model_first_image_wins example_browser "a stoic hero" 64 64 false transport
           4 3 (image_url example_browser "a stoic hero" 64 64) 200 "image/jpeg"
           (ReadDone "data:image/jpeg;base64,AAAA")).
  - vm_compute. reflexivity.
  - reflexivity.
  - reflexivity.
  - reflexivity.
Defined.

Module ReadFacts.

(** A rejection of the public model comes from the reader of an image. *)
Lemma rejected_by_reader (b : Browser) (prompt : string)
    (width height : Z) (onRetry : bool) (transport : Z -> Exchange) (e : JS.Thrown) :
  let run := generateWithPublicModel b prompt width height onRetry transport in
  run.2 = JS.Rejected e ->
  (e = JS.ErrorObj "Error reading image blob."
   \/ e = JS.ErrorObj "Failed to convert image blob to base64.")
  /\ exists k status type read,
      1 <= k <= 3
      /\ transport k = Responds status (BlobOf type read)
      /\ response_ok status = true /\ JS.startsWith "image/" type = true
      /\ (read = ReadFailed \/ read = ReadDone "").
Proof.
  intros run H. subst run. rewrite RetryFacts.run_shape in H.
  assert (Hread : forall k s, 1 <= k <= 3 -> flow_of (transport k) = Return s ->
                              s = JS.Rejected e ->
            (e = JS.ErrorObj "Error reading image blob."
             \/ e = JS.ErrorObj "Failed to convert image blob to base64.")
            /\ exists k status type read,
                1 <= k <= 3
                /\ transport k = Responds status (BlobOf type read)
                /\ response_ok status = true /\ JS.startsWith "image/" type = true
                /\ (read = ReadFailed \/ read = ReadDone "")).
  { intros k s Hk Hflow ->.
    destruct (PublicFacts.flow_of_return _ _ Hflow) as (status & type & read & Htr & Hs & Hr).
    rewrite Htr in Hs. unfold succeeds in Hs. apply andb_true_iff in Hs as [Hok Himg].
    assert (Hcase : (read = ReadFailed /\ e = JS.ErrorObj "Error reading image blob.")
                    \/ (read = ReadDone ""
                        /\ e = JS.ErrorObj "Failed to convert image blob to base64.")).
    { destruct read as [[| c r] |]; simpl in Hr; try discriminate Hr;
        injection Hr as ->; [right | left]; split; reflexivity. }
    destruct Hcase as [[-> ->] | [-> ->]].
    - split; [left; reflexivity |]. exists k, status, type, ReadFailed. tauto.
    - split; [right; reflexivity |]. exists k, status, type, (ReadDone ""). tauto. }
  pose proof (PublicFacts.placeholder_fulfilled b prompt width height e) as Hp.
  destruct (flow_of (transport 1)) eqn:F1; simpl in H.
  - apply (Hread 1 s); [lia | exact F1 | exact H].
  - contradiction.
  - destruct (flow_of (transport 2)) eqn:F2; simpl in H.
    + apply (Hread 2 s); [lia | exact F2 | exact H].
    + contradiction.
    + destruct (flow_of (transport 3)) eqn:F3; simpl in H.
      * apply (Hread 3 s); [lia | exact F3 | exact H].
      * contradiction.
      * contradiction.
Qed.

End ReadFacts.

(** X17. The public model never rejects because of the network. If its
    promise is rejected, an attempt got a 2xx image response and reading
    that blob failed: the reason is the error "Error reading image blob."
    of the reader, or "Failed to convert image blob to base64." for an empty
    result. Statuses, non-image bodies and thrown errors never reach the
    caller. *)
Theorem public_model_rejects_only_on_read (b : Browser) (prompt : string)
    (width height : Z) (onRetry : bool) (transport : Z -> Exchange) (e : JS.Thrown) :
  let run := generateWithPublicModel b prompt width height onRetry transport in
  run.2 = JS.Rejected e ->
  (e = JS.ErrorObj "Error reading image blob."
   \/ e = JS.ErrorObj "Failed to convert image blob to base64.")
  /\ exists k status type read,
      1 <= k <= 3
      /\ transport k = Responds status (BlobOf type read)
      /\ response_ok status = true /\ JS.startsWith "image/" type = true
      /\ (read = ReadFailed \/ read = ReadDone "").
Proof.
  intros run. subst run. apply ReadFacts.rejected_by_reader.
Qed.

(** An image arrives and the reader fails on it. *)
Lemma public_model_rejects_only_on_read_witness :
  let transport := fun _ : Z => Responds 200 (BlobOf "image/png" ReadFailed) in
  (generateWithPublicModel example_browser "a stoic hero" 64 64 false transport).2
  = JS.Rejected (JS.ErrorObj "Error reading image blob.")
  /\ exists k status type read,
      1 <= k <= 3
      /\ transport k = Responds status (BlobOf type read)
      /\ response_ok status = true /\ JS.startsWith "image/" type = true
      /\ (read = ReadFailed \/ read = ReadDone "").
Proof.
  intros transport.
  assert (H : (generateWithPublicModel example_browser "a stoic hero" 64 64 false transport).2
              = JS.Rejected (JS.ErrorObj "Error reading image blob."))
    by (vm_compute; reflexivity).
  split; [exact H |].
  exact (proj2 (public_model_rejects_only_on_read example_browser "a stoic hero" 64 64 false
                  transport _ H)).
Defined.

(** ** The batch run, row by row *)

Module RowFacts.

Lemma retries_keep (retries : list (Z * Z)) (s : Store) :
  let s' := foldl (fun s n => setBatchProgress (retry_label n.1 n.2) s) s retries in
  generatedFiles (latest s') = generatedFiles (latest s)
  /\ error_text (latest s') = error_text (latest s).
Proof.
  revert s. induction retries as [| n retries IH]; intros s; simpl; [auto |].
  destruct (IH (setBatchProgress (retry_label n.1 n.2) s)) as [-> ->]. auto.
Qed.


(** The [catch] block for a row as it was read. *)
Lemma batch_catch_effect (w : World) (i : nat) (row : Row) (prompt : string)
    (e : JS.Thrown) (s : Store) (t : Tally) :
  let f := read_row i row in
  batch_catch w f prompt e s t
  = Running
      (setBatchProgress
         (with_file {| filename := fileName f; data := row_placeholder w f |}) s)
      {| failures := S (failures t);
         firstErrorMessage :=
           if String.eqb (firstErrorMessage t) ""
           then "Error on " +:+ fileName f +:+ ": "
                  +:+ JS.message_or e "An unknown error occurred."
           else firstErrorMessage t |}.
Proof. reflexivity. Qed.

Lemma batch_row_effect (w : World) (p : Panel) (i : nat) (row : Row)
    (s s' : Store) (t t' : Tally) :
  batch_row w p i row s t = Running s' t' ->
  generatedFiles (latest s') = generatedFiles (latest s) ++ [row_output w p i row]
  /\ error_text (latest s') = error_text (latest s)
  /\ firstErrorMessage t' = remember t (first_failure w p i [row])
  /\ (row_fails w p i row = true <-> is_Some (row_error w p i row)).
Proof.
  unfold batch_row, row_output, row_fails, row_error, remember, row_call. simpl first_failure.
  unfold row_error, row_call.
  set (f := read_row i row).
  set (s1 := setBatchProgress (with_current i ("Generating: " +:+ fileName f)) s).
  destruct (row_invalid f) eqn:Hinv.
  - subst f. rewrite batch_catch_effect. intros [= <- <-]. simpl.
    repeat split; try reflexivity; eauto;
      try (destruct (String.eqb (firstErrorMessage t) ""); reflexivity).
  - set (width := default 0 (row_width f)).
    set (height := default 0 (row_height f)).
    set (prompt := batch_prompt (masterStyle p) f width height).
    destruct (batch_generateFunc w p i prompt width height) as [retries r] eqn:Hgen.
    cbn [snd].
    destruct (retries_keep retries s1) as [Hfiles Herr].
    set (s2 := foldl (fun s n => setBatchProgress (retry_label n.1 n.2) s) s1 retries) in *.
    destruct r as [imageUrl | e'].
    + intros [= <- <-]. cbn [latest setBatchProgress with_file generatedFiles error_text].
      rewrite Hfiles, Herr. simpl.
      repeat split; try reflexivity; try discriminate.
      * destruct (String.eqb (firstErrorMessage t) "") eqn:E; [| reflexivity].
        apply String.eqb_eq in E. exact E.
      * intros [m Hm]. discriminate.
    + subst f. rewrite batch_catch_effect. intros [= <- <-].
      cbn [latest setBatchProgress with_file generatedFiles error_text firstErrorMessage].
      rewrite Hfiles, Herr. simpl.
      repeat split; try reflexivity; eauto;
        try (destruct (String.eqb (firstErrorMessage t) ""); reflexivity).
Qed.

Lemma remember_twice (t t' : Tally) (a b : option string) :
  firstErrorMessage t' = remember t a ->
  (forall m, a = Some m -> String.eqb m "" = false) ->
  remember t' b = remember t (match a with Some _ => a | None => b end).
Proof.
  unfold remember. intros -> Ha.
  destruct (String.eqb (firstErrorMessage t) "") eqn:Ht.
  - destruct a as [m |]; simpl.
    + rewrite (Ha m eq_refl). reflexivity.
    + reflexivity.
  - rewrite Ht. reflexivity.
Qed.

Lemma batch_loop_effect (w : World) (p : Panel) (rows : list Row) :
  forall (i : nat) (s s' : Store) (t t' : Tally),
    batch_loop w p i rows s t = Running s' t' ->
    generatedFiles (latest s') = generatedFiles (latest s) ++ row_outputs w p i rows
    /\ error_text (latest s') = error_text (latest s)
    /\ firstErrorMessage t' = remember t (first_failure w p i rows).
Proof.
  induction rows as [| row rest IH]; intros i s s' t t'; simpl.
  - intros [= <- <-]. rewrite app_nil_r. unfold remember.
    destruct (String.eqb (firstErrorMessage t) "") eqn:Ht; auto.
    apply String.eqb_eq in Ht. auto.
  - destruct (batch_row w p i row s t) as [s1 t1 | s1 e] eqn:Hrow; [| discriminate].
    intros Hloop.
    destruct (batch_row_effect w p i row s s1 t t1 Hrow) as (Hf1 & He1 & Hm1 & _).
    destruct (IH (S i) s1 s' t1 t' Hloop) as (Hf & He & Hm).
    rewrite Hf, Hf1, <- app_assoc, He, He1, Hm.
    split; [reflexivity |]. split; [reflexivity |].
    rewrite (remember_twice t t1 _ (first_failure w p (S i) rest) Hm1).
    + simpl. destruct (row_error w p i row); reflexivity.
    + simpl. destruct (row_error w p i row); intros m [= <-]. reflexivity.
Qed.




(** The end of a job over usable rows, in terms of its rows. *)
Lemma job_end (w : World) (p : Panel) (parse : string -> ParseOutcome) (read : FileText) :
  input_invalid parse read = false ->
  let rows := job_rows parse read in
  let k := failing_rows w p 0 rows in
  exists final,
    last (job_states w p parse (File read)) = Some final
    /\ generatedFiles final = row_outputs w p 0 rows
    /\ status final = (if (k =? 0)%nat then done else error)
    /\ currentFileName final
       = Some (if (k =? 0)%nat then "Completed!" else "Completed with errors.")
    /\ error_text final
       = if (k =? 0)%nat then None
         else Some (JS.string_of_nat k +:+ " of " +:+ JS.string_of_nat (length rows)
                      +:+ " assets failed. First error: "
                      +:+ default "" (first_failure w p 0 rows)).
Proof.
  intros Hin rows k. subst rows k. unfold job_states.
  destruct (BatchFacts.job_of_valid_input w p parse read Hin) as [Hne ->].
  destruct (BatchFacts.run_rows_final w p (job_rows parse read) _ BatchFacts.running_parsing)
    as (s & t & _ & Hloop & _ & _ & _ & _ & _ & _ & Hfail & _).
  unfold run_rows. rewrite Hloop.
  destruct (batch_loop_effect w p _ _ _ _ _ _ Hloop) as (Hfiles & Herr & Hmsg).
  simpl in Hfiles, Herr. unfold remember in Hmsg. simpl in Hmsg.
  rewrite <- Hfail. unfold completion.
  destruct (failures t) as [| n] eqn:Hn; simpl.
  - eexists. split; [apply last_snoc |]. simpl. rewrite Hfiles, Herr. auto.
  - eexists. split; [apply last_snoc |]. simpl. rewrite Hfiles, Hmsg. auto.
Qed.

End RowFacts.

Module CanvasFacts.

(** The side a canvas takes from the number it is given. *)
Lemma canvas_dimension_values (fallback v : Z) :
  0 <= fallback < 2 ^ 31 ->
  0 <= canvas_dimension fallback v < 2 ^ 31
  /\ (0 <= v < 2 ^ 31 -> canvas_dimension fallback v = v)
  /\ (- 2 ^ 31 <= v < 0 -> canvas_dimension fallback v = fallback).
Proof.
  intros Hf. unfold canvas_dimension.
  pose proof (Z.mod_pos_bound v (2 ^ 32) ltac:(lia)) as Hmod.
  destruct (Z.leb_spec (v mod 2 ^ 32) 2147483647) as [Hle | Hgt].
  - split; [lia |]. split.
    + intros Hv. apply Z.mod_small. lia.
    + intros Hv. exfalso.
      assert (v mod 2 ^ 32 = v + 2 ^ 32).
      { symmetry. apply (Z.mod_unique v (2 ^ 32) (-1)); lia. }
      lia.
  - split; [lia |]. split; [| reflexivity].
    intros Hv. rewrite Z.mod_small in Hgt by lia. lia.
Qed.

End CanvasFacts.





Module SilentFacts.

(** With a reader that delivers, the public model is always fulfilled. *)
Lemma public_fulfilled (b : Browser) (prompt : string) (width height : Z)
    (onRetry : bool) (transport : Z -> Exchange) :
  (forall k status type read,
      transport k = Responds status (BlobOf type read) ->
      response_ok status = true -> JS.startsWith "image/" type = true ->
      exists result, read = ReadDone result /\ result <> "") ->
  exists url, (generateWithPublicModel b prompt width height onRetry transport).2
              = JS.Fulfilled url.
Proof.
  intros Hread.
  destruct (generateWithPublicModel b prompt width height onRetry transport).2
    as [url | e] eqn:Hrun; [eauto |].
  destruct (ReadFacts.rejected_by_reader b prompt width height onRetry transport e Hrun)
    as (_ & k & status & type & read & _ & Htr & Hok & Himg & Hbad).
  destruct (Hread k status type read Htr Hok Himg) as (result & -> & Hne).
  destruct Hbad as [Hbad | Hbad]; [discriminate |]. congruence.
Qed.

(** When no attempt gets an image the public model hands back its
    placeholder. *)
Lemma public_all_fail (b : Browser) (prompt : string) (width height : Z)
    (onRetry : bool) (transport : Z -> Exchange) :
  (forall k, 1 <= k <= 3 -> succeeds (transport k) = false) ->
  (generateWithPublicModel b prompt width height onRetry transport).2
  = generatePlaceholder b prompt width height.
Proof.
  intros Hfail.
  assert (Hno : forall k s, 1 <= k <= 3 -> flow_of (transport k) <> Return s).
  { intros k s Hk Hflow.
    assert (succeeds (transport k) = true) as Hs
      by (apply RetryFacts.flow_of_succeeds; eauto).
    rewrite (Hfail k Hk) in Hs. discriminate. }
  rewrite RetryFacts.run_shape.
  destruct (flow_of (transport 1)) eqn:F1; [destruct (Hno 1 s); [lia | exact F1] | reflexivity |].
  destruct (flow_of (transport 2)) eqn:F2; [destruct (Hno 2 s); [lia | exact F2] | reflexivity |].
  destruct (flow_of (transport 3)) eqn:F3; [destruct (Hno 3 s); [lia | exact F3] | |];
    reflexivity.
Qed.

Lemma public_row_call (w : World) (p : Panel) (i : nat) (row : Row) :
  engine p = public ->
  let f := read_row i row in
  let width := default 0 (row_width f) in
  let height := default 0 (row_height f) in
  row_call w p i row
  = (generateWithPublicModel (browser w) (batch_prompt (masterStyle p) f width height)
                             width height true (public_transport w i)).2.
Proof.
  intros He. unfold row_call, batch_generateFunc. rewrite He.
  destruct (generateWithPublicModel _ _ _ _ _ _) as [events r]. reflexivity.
Qed.

Lemma no_failing_rows (w : World) (p : Panel) (rows : list Row) :
  forall i,
    (forall k row, rows !! k = Some row -> row_fails w p (i + k) row = false) ->
    failing_rows w p i rows = 0%nat.
Proof.
  induction rows as [| row rest IH]; intros i H; simpl; [reflexivity |].
  pose proof (H 0%nat row eq_refl) as H0. rewrite Nat.add_0_r in H0. rewrite H0.
  rewrite IH; [reflexivity |].
  intros k row' Hk. replace (S i + k)%nat with (i + S k)%nat by lia.
  apply H. exact Hk.
Qed.

End SilentFacts.

(** X20. With the public engine a batch over valid rows cannot end in
    [error] because of the network: whatever the service answers on any
    attempt of any row (statuses, bodies that are no images, thrown
    errors), as long as the reader delivers the images that do arrive, the
    job ends in [done] with "Completed!", no error text and one file per
    row. *)
Theorem batch_public_engine_ends_done (w : World) (p : Panel)
    (parse : string -> ParseOutcome) (read : FileText) :
  input_invalid parse read = false ->
  engine p = public ->
  let rows := job_rows parse read in
  (forall i row, rows !! i = Some row -> row_invalid (read_row i row) = false) ->
  (forall i k status type blob,
      public_transport w i k = Responds status (BlobOf type blob) ->
      response_ok status = true -> JS.startsWith "image/" type = true ->
      exists result, blob = ReadDone result /\ result <> "") ->
  exists final,
    last (job_states w p parse (File read)) = Some final
    /\ status final = done
    /\ currentFileName final = Some "Completed!"
    /\ error_text final = None
    /\ length (generatedFiles final) = length rows.
Proof.
  intros Hin He rows Hvalid Hread.
  destruct (RowFacts.job_end w p parse read Hin)
    as (final & Hlast & Hfiles & Hstatus & Hlabel & Herr).
  fold rows in Hfiles, Hstatus, Hlabel, Herr.
  assert (H0 : failing_rows w p 0 rows = 0%nat).
  { apply SilentFacts.no_failing_rows. intros k row Hk. simpl.
    unfold row_fails. rewrite (Hvalid k row Hk). simpl.
    rewrite SilentFacts.public_row_call by exact He.
    destruct (SilentFacts.public_fulfilled (browser w)
                (batch_prompt (masterStyle p) (read_row k row)
                   (default 0 (row_width (read_row k row)))
                   (default 0 (row_height (read_row k row))))
                (default 0 (row_width (read_row k row)))
                (default 0 (row_height (read_row k row))) true
                (public_transport w k) (Hread k)) as [url ->].
    reflexivity. }
  rewrite H0 in Hstatus, Hlabel, Herr. simpl in Hstatus, Hlabel, Herr.
  exists final. split; [exact Hlast |]. split; [exact Hstatus |].
  split; [exact Hlabel |]. split; [exact Herr |].
  rewrite Hfiles. clear. generalize 0%nat.
  induction rows as [| row rest IH]; intros i; simpl; [reflexivity |].
  rewrite IH. reflexivity.
Qed.

(** Two rows against a service that is down. *)
Lemma batch_public_engine_ends_done_witness :
  let w := {| browser := example_browser;
              public_transport := fun _ => always_status 503;
              generateImageAsset := fun _ _ _ _ _ => JS.Rejected JS.NonError;
              generateWithOpenAICompatibleModel :=
                fun _ _ _ _ _ => JS.Rejected JS.NonError |} in
  exists final,
    last (job_states w (example_panel public 1) (parsed [hero_row; hero_row])
                     (File (TextLoaded (Some "sheet")))) = Some final
    /\ status final = done
    /\ currentFileName final = Some "Completed!"
    /\ error_text final = None
    /\ length (generatedFiles final) = 2%nat.
Proof.
  intros w.
  assert (Hrows : job_rows (parsed [hero_row; hero_row]) (TextLoaded (Some "sheet"))
                  = [hero_row; hero_row]) by (vm_compute; reflexivity).
  assert (Hrow : row_invalid (read_row 0 hero_row) = false
                 /\ row_invalid (read_row 1 hero_row) = false)
    by (split; vm_compute; reflexivity).
  destruct (batch_public_engine_ends_done w (example_panel public 1)
              (parsed [hero_row; hero_row]) (TextLoaded (Some "sheet")))
    as (final & Hlast & Hst & Hlabel & Herr & Hlen).
  - vm_compute. reflexivity.
  - reflexivity.
  - rewrite Hrows. intros i row Hi.
    destruct i as [| [| i]]; [| | discriminate Hi]; injection Hi as <-; apply Hrow.
  - intros i k status type blob Htr Hok Himg.
    injection Htr as <- <- <-. discriminate Himg.
  - exists final. split; [exact Hlast |]. split; [exact Hst |].
    split; [exact Hlabel |]. split; [exact Herr |].
    rewrite Hrows in Hlen. exact Hlen.
Defined.

(** X21. Single-shot generation with the public engine hides a dead
    service: when none of the three attempts gets an image, no error is
    shown and the placeholder of the requested size is put in front of the
    gallery as if it were the generated image. *)
Theorem single_public_failure_is_silent (w : World) (p : Panel)
    (generatedImages : list Image) :
  engine p = public ->
  (forall k, 1 <= k <= 3 -> succeeds (public_transport w 0 k) = false) ->
  let out := handleGenerateSingle w p generatedImages in
  images out
  = {| src := toDataURL (browser w)
                        (placeholder_canvas (browser w) (width p) (height p));
       prompt := single_fullPrompt p |} :: generatedImages
  /\ error_shown out = None.
Proof.
  intros He Hfail out. subst out. unfold handleGenerateSingle, clampedVariations.
  rewrite He. simpl. unfold single_generateFunc. rewrite He.
  rewrite (SilentFacts.public_all_fail _ _ _ _ _ _ Hfail).
  unfold generatePlaceholder. split; reflexivity.
Qed.

Lemma single_public_failure_is_silent_witness :
  let w := {| browser := example_browser;
              public_transport := fun _ => always_status 503;
              generateImageAsset := fun _ _ _ _ _ => JS.Rejected JS.NonError;
              generateWithOpenAICompatibleModel :=
                fun _ _ _ _ _ => JS.Rejected JS.NonError |} in
  (src <$> images (handleGenerateSingle w (example_panel public 1) []))
  = ["data:image/png;base64,placeholder-64x64-4"]
  /\ error_shown (handleGenerateSingle w (example_panel public 1) []) = None.
Proof.
  intros w.
  destruct (single_public_failure_is_silent w (example_panel public 1) []) as [Hi He].
  - reflexivity.
  - intros k Hk. reflexivity.
  - split; [rewrite Hi; vm_compute; reflexivity | exact He].
Defined.

Module NameFacts.

Lemma to_int_not_nil (z : Z) : Z.to_int z <> Decimal.Pos Decimal.Nil /\ Z.to_int z <> Decimal.Neg Decimal.Nil.
Proof.
  destruct z as [| q | q]; simpl; split; try discriminate;
    intros [= H]; exact (DecimalPos.Unsigned.to_uint_nonnil q H).
Qed.

(** The decimal rendering tells integers apart. *)
Lemma string_of_Z_inj (a b : Z) : JS.string_of_Z a = JS.string_of_Z b -> a = b.
Proof.
  unfold JS.string_of_Z. intros H.
  apply DecimalZ.to_int_inj.
  destruct (to_int_not_nil a) as [Ha1 Ha2]. destruct (to_int_not_nil b) as [Hb1 Hb2].
  pose proof (NilZero.isi (Z.to_int a) Ha1 Ha2) as Ia.
  pose proof (NilZero.isi (Z.to_int b) Hb1 Hb2) as Ib.
  rewrite H in Ia. congruence.
Qed.

Lemma string_of_nat_inj (i j : nat) : JS.string_of_nat i = JS.string_of_nat j -> i = j.
Proof.
  unfold JS.string_of_nat. intros H. apply string_of_Z_inj in H. lia.
Qed.

Lemma length_append (a b : string) :
  String.length (a +:+ b) = (String.length a + String.length b)%nat.
Proof.
  induction a as [| c a IH]; [reflexivity |].
  change (S (String.length (a +:+ b)) = S (String.length a + String.length b)).
  rewrite IH. reflexivity.
Qed.

Lemma append_inj_r (a b c : string) : a +:+ c = b +:+ c -> a = b.
Proof.
  revert b. induction a as [| x a IH]; intros [| y b] H.
  - reflexivity.
  - apply (f_equal String.length) in H. rewrite !length_append in H.
    simpl in H. lia.
  - apply (f_equal String.length) in H. rewrite !length_append in H.
    simpl in H. lia.
  - change (String x (a +:+ c) = String y (b +:+ c)) in H.
    injection H as -> H. f_equal. apply IH. exact H.
Qed.

Lemma truthy_nonempty (v : option string) :
  JS.truthy v = true -> exists s, v = Some s /\ s <> "".
Proof.
  destruct v as [s |]; [| discriminate]. simpl. intros H.
  exists s. split; [reflexivity |]. intros ->. discriminate.
Qed.

Lemma or_else_chain (a b c : option string) :
  JS.or_else (JS.or_else a b) c
  = if JS.truthy a then a else if JS.truthy b then b else c.
Proof.
  unfold JS.or_else. destruct (JS.truthy a) eqn:Ha; [rewrite Ha; reflexivity |].
  destruct (JS.truthy b) eqn:Hb; reflexivity.
Qed.

End NameFacts.

(** X22. The file name of a batch row is [nama_file], else [filename],
    else "asset_<i>" for row [i], a cell counting only when it is not
    empty, followed by ".png"; the part before ".png" is never empty. Rows
    that name no file get names that differ from row to row, so they never
    take each other's place in the archive. *)
Theorem batch_file_names (i j : nat) (row row' : Row) :
  (exists base,
      fileName (read_row i row) = base +:+ ".png" /\ base <> ""
      /\ if JS.truthy (row !! "nama_file") then row !! "nama_file" = Some base
         else if JS.truthy (row !! "filename") then row !! "filename" = Some base
         else base = "asset_" +:+ JS.string_of_nat i)
  /\ (JS.truthy (row !! "nama_file") = false -> JS.truthy (row !! "filename") = false ->
      JS.truthy (row' !! "nama_file") = false -> JS.truthy (row' !! "filename") = false ->
      fileName (read_row i row) = fileName (read_row j row') -> i = j).
Proof.
  split.
  - unfold read_row. cbn [fileName]. rewrite NameFacts.or_else_chain.
    destruct (JS.truthy (row !! "nama_file")) eqn:H1.
    + destruct (NameFacts.truthy_nonempty _ H1) as (s & Hs & Hne).
      exists s. rewrite Hs. auto.
    + destruct (JS.truthy (row !! "filename")) eqn:H2.
      * destruct (NameFacts.truthy_nonempty _ H2) as (s & Hs & Hne).
        exists s. rewrite Hs. auto.
      * exists ("asset_" +:+ JS.string_of_nat i).
        split; [reflexivity |]. split; [discriminate | reflexivity].
  - intros H1 H2 H1' H2'. unfold read_row. cbn [fileName].
    rewrite !NameFacts.or_else_chain, H1, H2, H1', H2'. cbn [JS.show]. intros H.
    apply NameFacts.append_inj_r in H.
    change (String "a" (String "s" (String "s" (String "e" (String "t"
              (String "_" (JS.string_of_nat i))))))
            = String "a" (String "s" (String "s" (String "e" (String "t"
                (String "_" (JS.string_of_nat j))))))) in H.
    injection H as H. apply NameFacts.string_of_nat_inj. exact H.
Qed.

(** Rows 3 and 12 of a sheet without name columns. *)
Lemma batch_file_names_witness :
  fileName (read_row 3 (<["prompt" := "a hut"]> ∅)) = "asset_3.png"
  /\ (fileName (read_row 3 (<["prompt" := "a hut"]> ∅))
      = fileName (read_row 12 (<["prompt" := "a well"]> ∅)) -> 3%nat = 12%nat).
Proof.
  split; [vm_compute; reflexivity |].
  apply (proj2 (batch_file_names 3 12 (<["prompt" := "a hut"]> ∅)
                  (<["prompt" := "a well"]> ∅))); vm_compute; reflexivity.
Defined.

Module PlaceholderFacts.

(** [Math.max(a, b)] is never below [a]. *)
Lemma max_floor (a b : Num.number) : Num.ltb (Num.max a b) a = false.
Proof.
  unfold Num.max.
  destruct (Num.is_nan a || Num.is_nan b); [destruct a; reflexivity |].
  destruct (Num.ltb a b) eqn:Hab.
  { apply SceneFacts.ltb_asym. exact Hab. }
  destruct (Num.ltb b a) eqn:Hba.
  { apply NumFacts.SFltb_irrefl. }
  destruct (Num.is_neg_zero a); [exact Hba | apply NumFacts.SFltb_irrefl].
Qed.

End PlaceholderFacts.

(** X23. The canvas of the placeholder. Its sides are never negative: a
    requested side from 0 to 2^31 - 1 is the side of the canvas, and a
    negative one down to -2^31 leaves the canvas at the default of 300 wide
    or 150 high. Whatever the size, no border is drawn thinner than 1, no
    text smaller than 10px, and the bold word never smaller than 12px.
    Without a 2D context nothing is drawn. *)
Theorem placeholder_drawing_floors (b : Browser) (width height : Z) :
  let canvas := placeholder_canvas b width height in
  (0 <= canvas_width canvas < 2 ^ 31 /\ 0 <= canvas_height canvas < 2 ^ 31)
  /\ (0 <= width < 2 ^ 31 -> canvas_width canvas = width)
  /\ (0 <= height < 2 ^ 31 -> canvas_height canvas = height)
  /\ (- 2 ^ 31 <= width < 0 -> canvas_width canvas = 300)
  /\ (- 2 ^ 31 <= height < 0 -> canvas_height canvas = 150)
  /\ (has_context_2d b = false -> canvas_drawn canvas = [])
  /\ (forall op, op ∈ canvas_drawn canvas ->
        match op with
        | FillRect _ _ _ _ _ => True
        | StrokeRect _ lineWidth _ _ _ _ => Num.ltb lineWidth (Num.of_Z 1) = false
        | FillText _ font _ _ _ _ _ =>
            Num.ltb (font_px font) (Num.of_Z 10) = false
            /\ (font_bold font = true -> Num.ltb (font_px font) (Num.of_Z 12) = false)
        end).
Proof.
  intros canvas. subst canvas. unfold placeholder_canvas.
  cbn [canvas_width canvas_height canvas_drawn].
  destruct (CanvasFacts.canvas_dimension_values 300 width ltac:(lia)) as (Hw1 & Hw2 & Hw3).
  destruct (CanvasFacts.canvas_dimension_values 150 height ltac:(lia)) as (Hh1 & Hh2 & Hh3).
  split; [split; assumption |].
  split; [exact Hw2 |]. split; [exact Hh2 |]. split; [exact Hw3 |]. split; [exact Hh3 |].
  split; [intros ->; reflexivity |].
  destruct (has_context_2d b); [| intros op Hop; apply elem_of_nil in Hop; destruct Hop].
  intros op Hop. cbv [placeholder_drawing] in Hop.
  cbn [drawn fillText fillRect strokeRect draw set_font set_fillStyle set_strokeStyle
       set_lineWidth set_textAlign set_textBaseline fresh_context app fillStyle
       strokeStyle lineWidth textAlign textBaseline font] in Hop.
  repeat (apply elem_of_cons in Hop as [-> | Hop]).
  - exact I.
  - apply PlaceholderFacts.max_floor.
  - split; [| intros _; apply PlaceholderFacts.max_floor].
    cbn [font_px].
    destruct (Num.ltb (Num.max (Num.of_Z 12) _) (Num.of_Z 10)) eqn:Hlt; [| reflexivity].
    pose proof (PlaceholderFacts.max_floor (Num.of_Z 12)
                  (Num.min (Num.div (Num.of_Z width) (Num.of_Z 5))
                           (Num.div (Num.of_Z height) (Num.of_Z 4)))) as Hfloor.
    assert (H1012 : Num.ltb (Num.of_Z 10) (Num.of_Z 12) = true) by (vm_compute; reflexivity).
    pose proof (NumFacts.SFltb_trans _ _ _ Hlt H1012) as Hcontra.
    unfold Num.ltb in Hfloor. rewrite Hfloor in Hcontra. discriminate Hcontra.
  - split; [apply PlaceholderFacts.max_floor | intros Hbold; discriminate Hbold].
  - apply elem_of_nil in Hop. destruct Hop.
Qed.

(** An asset of 16 by 16, and a request for a width of -5. *)
Lemma placeholder_drawing_floors_witness :
  canvas_width (placeholder_canvas example_browser 16 16) = 16
  /\ canvas_width (placeholder_canvas example_browser (-5) 16) = 300.
Proof.
  split.
  - apply (proj1 (proj2 (placeholder_drawing_floors example_browser 16 16))). lia.
  - apply (proj1 (proj2 (proj2 (proj2
             (placeholder_drawing_floors example_browser (-5) 16))))). lia.
Defined.

(** ** Uploading images *)

Module UploadFacts.

(** While fewer [load] events have come than there are image files, nothing
    is set. *)
Lemma fold_onload (imageFiles : list UploadedFile) (generatedImages : list Image)
    (order : list nat) :
  forall st,
    (forall k, k ∈ order ->
       exists file src, imageFiles !! k = Some file /\ file_read file = ReadDone src) ->
    let st' := foldl (onload imageFiles generatedImages) st order in
    loadedCount st' = (loadedCount st + length order)%nat
    /\ newImages st' = newImages st ++ omap (fun k => imageFiles !! k ≫= image_of) order
    /\ ((loadedCount st + length order < length imageFiles)%nat ->
        gallery_set st' = gallery_set st)
    /\ ((loadedCount st < length imageFiles)%nat ->
        (loadedCount st + length order = length imageFiles)%nat ->
        gallery_set st' = Some (generatedImages ++ newImages st')).
Proof.
  induction order as [| k order IH]; intros st Hloads; cbn [foldl length omap list_omap].
  - rewrite Nat.add_0_r, app_nil_r. repeat split; try reflexivity. lia.
  - destruct (Hloads k) as (file & src & Hk & Hread); [apply list_elem_of_here |].
    destruct (IH (onload imageFiles generatedImages st k)) as (Hc & Hn & Hlt & Heq).
    { intros k' Hk'. apply Hloads. apply list_elem_of_further. exact Hk'. }
    assert (Hstep : loadedCount (onload imageFiles generatedImages st k)
                    = S (loadedCount st)
                    /\ newImages (onload imageFiles generatedImages st k)
                       = newImages st ++ from_option (fun i => [i]) [] (image_of file)
                    /\ gallery_set (onload imageFiles generatedImages st k)
                       = if (S (loadedCount st) =? length imageFiles)%nat
                         then Some (generatedImages
                                      ++ newImages (onload imageFiles generatedImages st k))
                         else gallery_set st).
    { unfold onload, image_of. rewrite Hk, Hread. cbn [loadedCount newImages gallery_set].
      destruct (JS.truthy (Some src)); simpl; rewrite ?app_nil_r; auto. }
    destruct Hstep as (Hc1 & Hn1 & Hg1).
    rewrite Hk. cbn [mbind option_bind].
    rewrite Hc1 in Hc, Hlt, Heq.
    split; [rewrite Hc; lia |].
    split.
    { rewrite Hn, Hn1, <- app_assoc. f_equal.
      change (omap _ order) with (omap (fun k => imageFiles !! k ≫= image_of) order).
      destruct (image_of file); reflexivity. }
    split.
    + intros Hless. rewrite Hlt by lia. rewrite Hg1.
      destruct (Nat.eqb_spec (S (loadedCount st)) (length imageFiles)); [lia | reflexivity].
    + intros Hbelow Hsum. destruct (Nat.eq_dec (length order) 0%nat) as [H0 | H0].
      * apply nil_length_inv in H0. subst order. cbn [foldl]. rewrite Hg1.
        cbn [length] in Hsum.
        destruct (Nat.eqb_spec (S (loadedCount st)) (length imageFiles)); [reflexivity | lia].
      * apply Heq; lia.
Qed.

Lemma omap_positions {A B} (g : A -> option B) (l : list A) :
  forall pre,
    omap (fun k => (pre ++ l) !! k ≫= g) (seq (length pre) (length l)) = omap g l.
Proof.
  induction l as [| x l IH]; intros pre; [reflexivity |].
  simpl. rewrite list_lookup_middle by reflexivity. simpl.
  specialize (IH (pre ++ [x])). rewrite <- app_assoc, length_app in IH. simpl in IH.
  rewrite Nat.add_1_r in IH. unfold omap in IH.
  destruct (g x); [f_equal |]; exact IH.
Qed.

End UploadFacts.

(** X24. Uploading is all or nothing. Files that are no images are left
    out. If the reader of any one image file never delivers, the gallery is
    not touched, not even for the images that were read. If every image
    file is read, the gallery is set once, to the images it had followed by
    one entry per image file with a non-empty result, carrying the file's
    name as its prompt, in the order in which the readers finished. *)
Theorem handleUserUpload_all_or_nothing (files : list UploadedFile) (order : list nat)
    (generatedImages : list Image) :
  let imageFiles :=
    List.filter (fun file => JS.startsWith "image/" (file_type file)) files in
  NoDup order ->
  (forall k, k ∈ order <->
     exists file src, imageFiles !! k = Some file /\ file_read file = ReadDone src) ->
  ((exists file, file ∈ imageFiles /\ file_read file = ReadFailed) ->
   handleUserUpload (Some files) order generatedImages = None)
  /\ (imageFiles <> [] ->
      (forall file, file ∈ imageFiles -> file_read file <> ReadFailed) ->
      exists new,
        handleUserUpload (Some files) order generatedImages
        = Some (generatedImages ++ new)
        /\ new = omap (fun k => imageFiles !! k ≫= image_of) order
        /\ new ≡ₚ omap image_of imageFiles).
Proof.
  intros imageFiles Hnodup Horder.
  assert (Hloads : forall k, k ∈ order ->
            exists file src, imageFiles !! k = Some file /\ file_read file = ReadDone src)
    by (intros k; apply Horder).
  destruct (UploadFacts.fold_onload imageFiles generatedImages order
              {| newImages := []; loadedCount := 0; gallery_set := None |} Hloads)
    as (Hcount & Hnew & Hnone & Hsome).
  cbn [loadedCount newImages gallery_set] in Hcount, Hnew, Hnone, Hsome.
  simpl in Hnew.
  split.
  - intros (bad & Hin & Hbad). unfold handleUserUpload. fold imageFiles.
    destruct (length imageFiles =? 0)%nat; [reflexivity |].
    apply Hnone. simpl.
    apply list_elem_of_lookup in Hin as [k0 Hk0].
    assert (Hsub : (k0 :: order) ⊆+ seq 0 (length imageFiles)).
    { apply NoDup_submseteq.
      - constructor; [| exact Hnodup].
        intros Hk0in. apply Horder in Hk0in as (file & src & Hf & Hr). congruence.
      - intros k Hk. apply elem_of_seq. split; [lia |]. simpl.
        apply elem_of_cons in Hk as [-> | Hk].
        + apply lookup_lt_Some in Hk0. exact Hk0.
        + apply Horder in Hk as (file & src & Hf & _).
          apply lookup_lt_Some in Hf. exact Hf. }
    apply submseteq_length in Hsub. rewrite length_seq in Hsub. simpl in Hsub. lia.
  - intros Hne Hall.
    assert (Hperm : order ≡ₚ seq 0 (length imageFiles)).
    { apply NoDup_Permutation; [exact Hnodup | apply NoDup_seq |].
      intros k. rewrite Horder, elem_of_seq. split.
      - intros (file & src & Hf & _). apply lookup_lt_Some in Hf. lia.
      - intros [_ Hk]. simpl in Hk.
        destruct (lookup_lt_is_Some_2 imageFiles k Hk) as [file Hf].
        exists file.
        destruct (file_read file) as [src |] eqn:Hr; [eauto |].
        destruct (Hall file); [| exact Hr].
        apply list_elem_of_lookup. eauto. }
    pose proof (Permutation_length Hperm) as Hlen. rewrite length_seq in Hlen.
    exists (omap (fun k => imageFiles !! k ≫= image_of) order).
    split; [| split; [reflexivity |]].
    + unfold handleUserUpload. fold imageFiles.
      destruct (Nat.eqb_spec (length imageFiles) 0) as [H0 | H0].
      { destruct imageFiles; [destruct Hne; reflexivity | discriminate H0]. }
      rewrite Hsome by (simpl; lia). rewrite Hnew. reflexivity.
    + rewrite Hperm.
      rewrite <- (UploadFacts.omap_positions image_of imageFiles []). reflexivity.
Qed.

(** Three files: a text file, and two images of which the second is read
    first. *)
Lemma handleUserUpload_all_or_nothing_witness :
  let files :=
    [ {| file_type := "text/plain"; file_name := "notes.txt";
         file_read := ReadDone "data:text/plain;base64,AA" |};
      {| file_type := "image/png"; file_name := "hut.png";
         file_read := ReadDone "data:image/png;base64,AAAA" |};
      {| file_type := "image/jpeg"; file_name := "well.jpg";
         file_read := ReadDone "data:image/jpeg;base64,BBBB" |} ] in
  exists new,
    handleUserUpload (Some files) [1; 0]%nat []
    = Some ([] ++ new)
    /\ new = [ {| src := "data:image/jpeg;base64,BBBB"; prompt := "well.jpg" |};
               {| src := "data:image/png;base64,AAAA"; prompt := "hut.png" |} ].
Proof.
  intros files.
  destruct (handleUserUpload_all_or_nothing files [1; 0]%nat []) as [_ Hall].
  - apply NoDup_cons. split; [| apply NoDup_singleton].
    intros H. apply list_elem_of_singleton in H. discriminate H.
  - intros k. split.
    + intros Hk. apply elem_of_cons in Hk as [-> | Hk]; [simpl; eauto |].
      apply elem_of_cons in Hk as [-> | Hk]; [simpl; eauto |].
      apply elem_of_nil in Hk. destruct Hk.
    + intros (file & src & Hf & _).
      destruct k as [| [| k]]; [| | discriminate Hf].
      * apply list_elem_of_further, list_elem_of_here.
      * apply list_elem_of_here.
  - destruct Hall as (new & Hset & Hnew & _).
    + discriminate.
    + intros file Hin. simpl in Hin.
      apply elem_of_cons in Hin as [-> | Hin]; [discriminate |].
      apply elem_of_cons in Hin as [-> | Hin]; [discriminate |].
      apply elem_of_nil in Hin. destruct Hin.
    + exists new. split; [exact Hset |]. rewrite Hnew. reflexivity.
Defined.

(** ** Settings *)

Module TrimFacts.

Lemma skip_white_no_lead (c : ascii) (r : string) :
  Str.is_white c = false -> Str.skip_white (String c r) = String c r.
Proof. intros H. simpl. rewrite H. reflexivity. Qed.

(** What [skip_white] leaves is empty or starts with a character that is
    no space. *)
Lemma skip_white_head (s : string) :
  Str.skip_white s = ""
  \/ exists c r, Str.skip_white s = String c r /\ Str.is_white c = false.
Proof.
  induction s as [| c r IH]; [left; reflexivity |].
  simpl. destruct (Str.is_white c) eqn:Hc; [exact IH |].
  right. exists c, r. auto.
Qed.

Lemma skip_white_idem (s : string) :
  Str.skip_white (Str.skip_white s) = Str.skip_white s.
Proof.
  destruct (skip_white_head s) as [-> | (c & r & -> & Hc)]; [reflexivity |].
  apply skip_white_no_lead. exact Hc.
Qed.

Lemma reversed_involutive (s : string) : Str.reversed (Str.reversed s) = s.
Proof.
  unfold Str.reversed.
  rewrite list_ascii_of_string_of_list_ascii, rev_involutive.
  apply string_of_list_ascii_of_string.
Qed.

Lemma skip_white_suffix (l : list ascii) :
  exists pre suf,
    l = pre ++ suf
    /\ Str.skip_white (string_of_list_ascii l) = string_of_list_ascii suf
    /\ (suf = [] \/ exists c r, suf = c :: r /\ Str.is_white c = false).
Proof.
  induction l as [| c l IH].
  - exists [], []. auto.
  - simpl. destruct (Str.is_white c) eqn:Hc.
    + destruct IH as (pre & suf & -> & Hs & Hhead).
      exists (c :: pre), suf. auto.
    + exists [], (c :: l). split; [reflexivity |]. split; [reflexivity |].
      right. exists c, l. auto.
Qed.

(** Stripping the end of a string that has no space in front leaves a
    string that has no space in front. *)
Lemma strip_end_keeps_front (t : string) :
  Str.skip_white t = t ->
  let u := Str.reversed (Str.skip_white (Str.reversed t)) in
  Str.skip_white u = u.
Proof.
  intros Ht u. subst u. unfold Str.reversed.
  destruct (skip_white_suffix (rev (list_ascii_of_string t)))
    as (pre & suf & Hsplit & Hskip & _).
  rewrite Hskip, list_ascii_of_string_of_list_ascii.
  apply (f_equal (@rev ascii)) in Hsplit.
  rewrite rev_involutive, rev_app_distr in Hsplit.
  destruct (rev suf) as [| c r] eqn:Hsuf; [reflexivity |].
  simpl in Hsplit.
  assert (Hc : Str.is_white c = false).
  { destruct (skip_white_head t) as [H0 | (c' & r' & Hcr & Hc')].
    - rewrite Ht in H0. rewrite H0 in Hsplit. discriminate Hsplit.
    - rewrite Ht in Hcr. rewrite Hcr in Hsplit. simpl in Hsplit.
      injection Hsplit as -> _. exact Hc'. }
  simpl. rewrite Hc. reflexivity.
Qed.

Lemma skip_all_spaces (l : list ascii) :
  Str.skip_white (string_of_list_ascii l) = "" ->
  forall c, c ∈ l -> Str.is_white c = true.
Proof.
  induction l as [| x l IH]; intros H c Hc.
  - apply elem_of_nil in Hc. destruct Hc.
  - simpl in H. destruct (Str.is_white x) eqn:Hx; [| discriminate H].
    apply elem_of_cons in Hc as [-> | Hc]; [exact Hx | apply IH; assumption].
Qed.

(** Trimming leaves nothing only when there is nothing but white space. *)
Lemma trim_empty (s : string) : Str.trim s = "" -> Str.skip_white s = "".
Proof.
  unfold Str.trim, Str.reversed. intros H.
  destruct (skip_white_head s) as [H0 | (c & r & Hcr & Hc)]; [exact H0 |].
  exfalso. rewrite Hcr in H.
  destruct (skip_white_suffix (rev (list_ascii_of_string (String c r))))
    as (pre & suf & Hsplit & Hskip & _).
  rewrite Hskip, list_ascii_of_string_of_list_ascii in H.
  assert (Hsuf : suf = []).
  { destruct (rev suf) as [| y ys] eqn:Hr; [| discriminate H].
    apply (f_equal (@rev ascii)) in Hr. rewrite rev_involutive in Hr. exact Hr. }
  subst suf. simpl in Hskip.
  pose proof (skip_all_spaces _ Hskip c) as Hall.
  rewrite Hall in Hc; [discriminate |].
  simpl. apply elem_of_app. right. apply list_elem_of_here.
Qed.

Lemma trim_idem (s : string) : Str.trim (Str.trim s) = Str.trim s.
Proof.
  unfold Str.trim.
  rewrite (strip_end_keeps_front (Str.skip_white s) (skip_white_idem s)).
  rewrite reversed_involutive, skip_white_idem. reflexivity.
Qed.

Lemma length_positive (s : string) : (0 <? String.length s)%nat = true <-> s <> "".
Proof.
  destruct s; simpl; split; try discriminate; try reflexivity.
  intros H. destruct H. reflexivity.
Qed.

End TrimFacts.

(** X25. The endpoint that is saved is never blank and carries no white
    space around it: an input that is empty or all white space is replaced
    by "https://api.openai.com/v1", any other input is trimmed. Saving what
    was saved changes nothing. *)
Theorem setOpenAiApiEndpoint_normalises (endpoint : string) :
  let saved := setOpenAiApiEndpoint endpoint in
  saved <> ""
  /\ Str.trim saved = saved
  /\ setOpenAiApiEndpoint saved = saved
  /\ (Str.skip_white endpoint = "" -> saved = "https://api.openai.com/v1")
  /\ (Str.skip_white endpoint <> "" -> saved = Str.trim endpoint).
Proof.
  intros saved. subst saved. unfold setOpenAiApiEndpoint.
  destruct (0 <? String.length (Str.trim endpoint))%nat eqn:Hlen.
  - pose proof (TrimFacts.trim_idem endpoint) as Hidem.
    split; [apply TrimFacts.length_positive; exact Hlen |].
    split; [exact Hidem |].
    split; [rewrite Hidem, Hlen; reflexivity |].
    split; [| reflexivity].
    intros Hblank. unfold Str.trim in Hlen. rewrite Hblank in Hlen. discriminate Hlen.
  - split; [discriminate |]. split; [reflexivity |]. split; [reflexivity |].
    split; [reflexivity |].
    intros Hsome. destruct Hsome. apply TrimFacts.trim_empty.
    destruct (Str.trim endpoint); [reflexivity | discriminate Hlen].
Qed.

(** An endpoint typed with a space in front and one behind, and a
    blank one. *)
Lemma setOpenAiApiEndpoint_normalises_witness :
  setOpenAiApiEndpoint " http://localhost:8080/v1 " = "http://localhost:8080/v1"
  /\ setOpenAiApiEndpoint "   " = "https://api.openai.com/v1".
Proof.
  split.
  - rewrite (proj2 (proj2 (proj2 (proj2
               (setOpenAiApiEndpoint_normalises " http://localhost:8080/v1 "))))).
    + vm_compute. reflexivity.
    + vm_compute. discriminate.
  - apply (proj1 (proj2 (proj2 (proj2 (setOpenAiApiEndpoint_normalises "   "))))).
    vm_compute. reflexivity.
Defined.


(** ** Unpacking a data URL *)

Module DataURLFacts.

Lemma lacks_cons (bad : list ascii) (c : ascii) (s : string) :
  DataURL.lacks bad (String c s) = true ->
  existsb (Ascii.eqb c) bad = false /\ DataURL.lacks bad s = true.
Proof.
  unfold DataURL.lacks. simpl. intros H. apply andb_true_iff in H as [H1 H2].
  apply negb_true_iff in H1. auto.
Qed.

Lemma split_whole (s : string) :
  DataURL.lacks [","%char] s = true -> DataURL.split "," s = [s].
Proof.
  induction s as [| c s IH]; intros H; [reflexivity |].
  apply lacks_cons in H as [Hc Hs]. simpl in Hc. apply orb_false_iff in Hc as [Hc _].
  cbn [DataURL.split]. rewrite Hc, (IH Hs). reflexivity.
Qed.

Lemma split_first (a b : string) :
  DataURL.lacks [","%char] a = true ->
  DataURL.split "," (a +:+ String "," b) = a :: DataURL.split "," b.
Proof.
  induction a as [| c a IH]; intros H; [reflexivity |].
  apply lacks_cons in H as [Hc Ha]. simpl in Hc. apply orb_false_iff in Hc as [Hc _].
  change (String c a +:+ String "," b) with (String c (a +:+ String "," b)).
  cbn [DataURL.split]. rewrite Hc, (IH Ha). reflexivity.
Qed.

Lemma up_to_semicolon_app (mime rest : string) :
  DataURL.lacks [";"; "010"; "013"]%char mime = true ->
  DataURL.up_to_semicolon (mime +:+ String ";" rest) = Some mime.
Proof.
  induction mime as [| c mime IH]; intros H; [reflexivity |].
  apply lacks_cons in H as [Hc Hm]. simpl in Hc.
  apply orb_false_iff in Hc as [H1 Hc]. apply orb_false_iff in Hc as [H2 Hc].
  apply orb_false_iff in Hc as [H3 _].
  change (String c mime +:+ String ";" rest) with (String c (mime +:+ String ";" rest)).
  cbn [DataURL.up_to_semicolon]. unfold DataURL.is_line_terminator.
  rewrite H1, H2, H3, (IH Hm). reflexivity.
Qed.

Lemma lacks_weaken (c : ascii) (bad : list ascii) (s : string) :
  DataURL.lacks (c :: bad) s = true ->
  DataURL.lacks [c] s = true /\ DataURL.lacks bad s = true.
Proof.
  induction s as [| x s IH]; intros H; [split; reflexivity |].
  apply lacks_cons in H as [Hx Hs]. destruct (IH Hs) as [IH1 IH2].
  simpl in Hx. apply orb_false_iff in Hx as [Hx1 Hx2].
  unfold DataURL.lacks in *. simpl.
  split; [rewrite Hx1; simpl; exact IH1 | rewrite Hx2; simpl; exact IH2].
Qed.

Lemma lacks_app (bad : list ascii) (a b : string) :
  DataURL.lacks bad a = true -> DataURL.lacks bad b = true ->
  DataURL.lacks bad (a +:+ b) = true.
Proof.
  induction a as [| c a IH]; intros Ha Hb; [exact Hb |].
  apply lacks_cons in Ha as [Hc Ha].
  change (String c a +:+ b) with (String c (a +:+ b)).
  unfold DataURL.lacks in *. simpl. rewrite Hc. simpl. apply IH; assumption.
Qed.

Lemma split_head_lacks (bad : list ascii) (s : string) :
  DataURL.lacks bad s = true ->
  exists h t, DataURL.split "," s = h :: t /\ DataURL.lacks bad h = true.
Proof.
  induction s as [| c s IH]; intros H; [exists "", []; auto |].
  apply lacks_cons in H as [Hc Hs]. destruct (IH Hs) as (h & t & Hsplit & Hh).
  cbn [DataURL.split]. destruct (Ascii.eqb c ","); [exists "", (DataURL.split "," s); auto |].
  rewrite Hsplit. exists (String c h), t. split; [reflexivity |].
  unfold DataURL.lacks in *. simpl. rewrite Hc. simpl. exact Hh.
Qed.

Lemma match_mime_none (s : string) :
  DataURL.lacks [":"%char] s = true -> DataURL.match_mime s = None.
Proof.
  induction s as [| c s IH]; intros H; [reflexivity |].
  apply lacks_cons in H as [Hc Hs]. simpl in Hc. apply orb_false_iff in Hc as [Hc _].
  cbn [DataURL.match_mime]. rewrite Hc. apply IH. exact Hs.
Qed.

Lemma append_inj_l (a b c : string) : a +:+ b = a +:+ c -> b = c.
Proof.
  induction a as [| x a IH]; intros H; [exact H |].
  change (String x (a +:+ b) = String x (a +:+ c)) in H.
  injection H as H. apply IH. exact H.
Qed.

Lemma match_mime_data (s : string) :
  DataURL.match_mime ("data:" +:+ s)
  = match DataURL.up_to_semicolon s with
    | Some mime => Some mime
    | None => DataURL.match_mime s
    end.
Proof. reflexivity. Qed.

(** A data URL as the services and the browser assemble it. *)
Lemma unpack (atob : string -> option string) (mime payload : string) :
  DataURL.lacks [","; ";"; "010"; "013"]%char mime = true ->
  DataURL.lacks [","%char] payload = true ->
  DataURL.dataURLtoBlob atob ("data:" +:+ mime +:+ ";base64," +:+ payload)
  = (fun bstr => {| DataURL.u8arr := char_codes bstr; DataURL.blob_type := mime |})
      <$> atob payload.
Proof.
  intros Hmime Hpayload. apply lacks_weaken in Hmime as [Hcomma Hsemi].
  unfold DataURL.dataURLtoBlob.
  assert (Hsplit : DataURL.split "," ("data:" +:+ mime +:+ ";base64," +:+ payload)
                   = [("data:" +:+ mime +:+ ";base64"); payload]).
  { rewrite <- (split_whole payload Hpayload).
    rewrite <- (split_first ("data:" +:+ mime +:+ ";base64") payload).
    - f_equal. rewrite <- !StrFacts.append_assoc.
      change (("data:" +:+ mime) +:+ ";base64," +:+ payload)
        with (("data:" +:+ mime) +:+ (";base64" +:+ String "," payload)).
      rewrite !StrFacts.append_assoc. reflexivity.
    - apply (lacks_app _ "data:"); [reflexivity |].
      apply lacks_app; [exact Hcomma | reflexivity]. }
  rewrite Hsplit. cbn [lookup list_lookup default]. unfold id.
  rewrite (match_mime_data (mime +:+ ";base64")).
  change (mime +:+ ";base64") with (mime +:+ String ";" "base64").
  rewrite (up_to_semicolon_app mime "base64" Hsemi).
  cbn [JS.show]. destruct (atob payload); reflexivity.
Qed.

End DataURLFacts.

(** X26. The data URLs the services hand out can be unpacked for the
    archive. For "data:<mime>;base64,<payload>" with no comma in either part
    and no semicolon or line break in the mime type, [dataURLtoBlob] passes
    exactly the payload to [atob] and builds the blob from the character
    codes of the result under that mime type, throwing only if [atob]
    does. What Gemini and the OpenAI-compatible services are fulfilled with
    has this shape with mime type image/png. A string without a colon makes
    the function throw before [atob] is reached. *)
Theorem dataURLtoBlob_unpacks_service_images (atob : string -> option string) :
  (forall mime payload,
      DataURL.lacks [","; ";"; "010"; "013"]%char mime = true ->
      DataURL.lacks [","%char] payload = true ->
      DataURL.dataURLtoBlob atob ("data:" +:+ mime +:+ ";base64," +:+ payload)
      = (fun bstr => {| DataURL.u8arr := char_codes bstr; DataURL.blob_type := mime |})
          <$> atob payload)
  /\ (forall sdk prompt width height apiKey url,
        (Gemini.generateImageAsset sdk prompt width height apiKey).2 = JS.Fulfilled url ->
        exists bytes,
          url = "data:image/png;base64," +:+ bytes
          /\ (DataURL.lacks [","%char] bytes = true ->
              DataURL.dataURLtoBlob atob url
              = (fun bstr => {| DataURL.u8arr := char_codes bstr;
                                DataURL.blob_type := "image/png" |}) <$> atob bytes))
  /\ (forall net prompt apiKey endpoint model url,
        (OpenAI.generateWithOpenAICompatibleModel net prompt apiKey endpoint model).2
        = JS.Fulfilled url ->
        exists bytes,
          url = "data:image/png;base64," +:+ bytes
          /\ (DataURL.lacks [","%char] bytes = true ->
              DataURL.dataURLtoBlob atob url
              = (fun bstr => {| DataURL.u8arr := char_codes bstr;
                                DataURL.blob_type := "image/png" |}) <$> atob bytes))
  /\ (forall text,
        DataURL.lacks [":"%char] text = true -> DataURL.dataURLtoBlob atob text = None).
Proof.
  split; [exact (DataURLFacts.unpack atob) |].
  split; [| split].
  - intros sdk prompt width height apiKey url H.
    unfold Gemini.generateImageAsset in H.
    destruct (JS.truthy (Some apiKey)); [| discriminate H].
    destruct (sdk _) as [[[| bytes rest] |] | e]; try discriminate H.
    injection H as <-. exists bytes. split; [reflexivity |].
    intros Hb. apply (DataURLFacts.unpack atob "image/png" bytes); [reflexivity | exact Hb].
  - intros net prompt apiKey endpoint model url H.
    unfold OpenAI.generateWithOpenAICompatibleModel, OpenAI.rethrow in H.
    repeat match type of H with
           | context [match ?x with _ => _ end] => destruct x; try discriminate H
           end.
    simpl in H. injection H as <-. eexists. split; [reflexivity |].
    intros Hb. apply (DataURLFacts.unpack atob "image/png"); [reflexivity | exact Hb].
  - intros text Hno. unfold DataURL.dataURLtoBlob.
    destruct (DataURLFacts.split_head_lacks [":"%char] text Hno) as (h & t & -> & Hh).
    cbn [lookup list_lookup default]. unfold id.
    rewrite (DataURLFacts.match_mime_none h Hh). reflexivity.
Qed.

(** An image of Imagen, as the archive unpacks it with a decoder that
    knows this one payload. *)
Lemma dataURLtoBlob_unpacks_service_images_witness :
  let atob := fun s : string => if String.eqb s "QUI=" then Some "AB" else None in
  let sdk := fun _ : Gemini.ImagesRequest => Gemini.Response (Some ["QUI="]) in
  exists url,
    (Gemini.generateImageAsset sdk "a hut" (Num.of_Z 64) (Num.of_Z 64) "key").2
    = JS.Fulfilled url
    /\ DataURL.dataURLtoBlob atob url
       = Some {| DataURL.u8arr := [65; 66]; DataURL.blob_type := "image/png" |}.
Proof.
  intros atob sdk.
  assert (Hrun : (Gemini.generateImageAsset sdk "a hut" (Num.of_Z 64) (Num.of_Z 64) "key").2
                 = JS.Fulfilled "data:image/png;base64,QUI=") by (vm_compute; reflexivity).
  exists "data:image/png;base64,QUI=". split; [exact Hrun |].
  destruct (proj1 (proj2 (dataURLtoBlob_unpacks_service_images atob))
              sdk "a hut" (Num.of_Z 64) (Num.of_Z 64) "key" _ Hrun)
    as (bytes & Hurl & Hblob).
  change "data:image/png;base64,QUI=" with ("data:image/png;base64," +:+ "QUI=") in Hurl.
  apply DataURLFacts.append_inj_l in Hurl. subst bytes.
  rewrite Hblob; reflexivity.
Defined.

(** ** Retry labels of the batch *)

Module LabelFacts.

Lemma replace_generating (fileName : string) :
  JS.replace_first "Generating: " "" ("Generating: " +:+ fileName) = fileName.
Proof. reflexivity. Qed.

Lemma replace_absent (pat by_ s : string) :
  Str.includes pat s = false -> JS.replace_first pat by_ s = s.
Proof.
  induction s as [| c s IH]; intros H.
  - cbn [Str.includes] in H. apply orb_false_iff in H as [H _].
    cbn [JS.replace_first]. rewrite H. reflexivity.
  - cbn [Str.includes] in H. apply orb_false_iff in H as [H Hs].
    cbn [JS.replace_first]. rewrite H, (IH Hs). reflexivity.
Qed.

(** The notifications of a call whose first two attempts fail for a
    while. *)
Lemma two_retries (b : Browser) (prompt : string) (width height : Z)
    (transport : Z -> Exchange) :
  transient (transport 1) -> transient (transport 2) ->
  notifications (generateWithPublicModel b prompt width height true transport).1
  = [(1, 2000); (2, 4000)].
Proof.
  intros H1 H2. apply PublicFacts.flow_of_transient in H1, H2.
  rewrite RetryFacts.run_shape, H1, H2. reflexivity.
Qed.

Lemma batch_catch_publishes (w : World) (f : RowFields) (prompt : string)
    (e : JS.Thrown) (s : Store) (t : Tally) :
  exists entry t',
    batch_catch w f prompt e s t = Running (setBatchProgress (with_file entry) s) t'.
Proof. unfold batch_catch, generatePlaceholder. eauto. Qed.

End LabelFacts.

(** X27. The labels a batch row shows while the public model retries. After
    "Generating: <file>", a first failed attempt of the kind that is
    retried, whatever its cause, is announced as "Rate limit hit. Retrying
    <file> in 2s... (Attempt 1)". A second one is announced with the whole
    previous label in the place of the file name: "Rate limit hit. Retrying
    Rate limit hit. Retrying <file> in 2s... (Attempt 1) in 4s... (Attempt
    2)" (the text "Generating: " is looked for in the previous label and is
    no longer there). The state that adds the file keeps that label. *)
Theorem batch_retry_labels_nest (w : World) (p : Panel) (i : nat) (row : Row)
    (s : Store) (t : Tally) :
  engine p = public ->
  row_invalid (read_row i row) = false ->
  transient (public_transport w i 1) ->
  transient (public_transport w i 2) ->
  let file := fileName (read_row i row) in
  let second :=
    "Rate limit hit. Retrying "
      +:+ JS.replace_first "Generating: " "" (first_retry_label file)
      +:+ " in 4s... (Attempt 2)" in
  exists s' t',
    batch_row w p i row s t = Running s' t'
    /\ currentFileName <$> drop (length (published s)) (published s')
       = [ Some ("Generating: " +:+ file);
           Some (first_retry_label file);
           Some second;
           Some second ]
    /\ (Str.includes "Generating: " (first_retry_label file) = false ->
        second = "Rate limit hit. Retrying " +:+ first_retry_label file
                   +:+ " in 4s... (Attempt 2)").
Proof.
  intros He Hvalid H1 H2 file second.
  assert (Hsecond : Str.includes "Generating: " (first_retry_label file) = false ->
                    second = "Rate limit hit. Retrying " +:+ first_retry_label file
                               +:+ " in 4s... (Attempt 2)").
  { intros Hno. subst second. rewrite (LabelFacts.replace_absent _ _ _ Hno). reflexivity. }
  unfold batch_row. rewrite Hvalid. fold file.
  set (f := read_row i row) in *.
  set (width := default 0 (row_width f)).
  set (height := default 0 (row_height f)).
  set (prompt := batch_prompt (masterStyle p) f width height).
  unfold batch_generateFunc. rewrite He.
  pose proof (LabelFacts.two_retries (browser w) prompt width height
                (public_transport w i) H1 H2) as Hnotes.
  destruct (generateWithPublicModel (browser w) prompt width height true
              (public_transport w i)) as [events r].
  cbn [fst] in Hnotes. rewrite Hnotes. cbn [foldl fst snd].
  set (s1 := setBatchProgress (with_current i ("Generating: " +:+ file)) s).
  set (s2 := setBatchProgress (retry_label 1 2000) s1).
  set (s3 := setBatchProgress (retry_label 2 4000) s2).
  assert (Hl2 : currentFileName (latest s2) = Some (first_retry_label file)).
  { subst s2 s1. cbn [setBatchProgress latest retry_label with_label with_current
                      currentFileName fmap option_fmap option_map JS.show].
    rewrite LabelFacts.replace_generating. reflexivity. }
  assert (Hl3 : currentFileName (latest s3) = Some second).
  { subst s3. cbn [setBatchProgress latest retry_label with_label currentFileName].
    rewrite Hl2. reflexivity. }
  assert (Hpub : published s3 = published s ++ [latest s1; latest s2; latest s3]).
  { subst s3 s2 s1. cbn [setBatchProgress published latest].
    rewrite <- !app_assoc. reflexivity. }
  assert (Hfile : forall entry,
            currentFileName
              <$> drop (length (published s))
                    (published (setBatchProgress (with_file entry) s3))
            = [ Some ("Generating: " +:+ file); Some (first_retry_label file);
                Some second; Some second ]).
  { intros entry. cbn [setBatchProgress published]. rewrite Hpub, <- app_assoc.
    rewrite drop_app_length. cbn [app fmap list_fmap latest with_file currentFileName].
    rewrite Hl2, Hl3. reflexivity. }
  destruct r as [imageUrl | e].
  - eexists _, _. split; [reflexivity |]. split; [apply Hfile | exact Hsecond].
  - destruct (LabelFacts.batch_catch_publishes w f prompt e s3 t) as (entry & t' & ->).
    eexists _, _. split; [reflexivity |]. split; [apply Hfile | exact Hsecond].
Qed.

(** The hero row against a service that is down. *)
Lemma batch_retry_labels_nest_witness :
  let w := {| browser := example_browser;
              public_transport := fun _ => always_status 503;
              generateImageAsset := fun _ _ _ _ _ => JS.Rejected JS.NonError;
              generateWithOpenAICompatibleModel :=
                fun _ _ _ _ _ => JS.Rejected JS.NonError |} in
  exists s' t',
    batch_row w (example_panel public 1) 0 hero_row start_store
              {| failures := 0; firstErrorMessage := "" |} = Running s' t'
    /\ currentFileName <$> published s'
       = [ Some "Generating: hero.png";
           Some "Rate limit hit. Retrying hero.png in 2s... (Attempt 1)";
           Some "Rate limit hit. Retrying Rate limit hit. Retrying hero.png in 2s... (Attempt 1) in 4s... (Attempt 2)";
           Some "Rate limit hit. Retrying Rate limit hit. Retrying hero.png in 2s... (Attempt 1) in 4s... (Attempt 2)" ].
Proof.
  intros w.
  destruct (batch_retry_labels_nest w (example_panel public 1) 0 hero_row start_store
              {| failures := 0; firstErrorMessage := "" |})
    as (s' & t' & Hrow & Hlabels & _).
  - reflexivity.
  - vm_compute. reflexivity.
  - simpl. right. lia.
  - simpl. right. lia.
  - exists s', t'. split; [exact Hrow |].
    transitivity (currentFileName <$> drop (length (published start_store)) (published s'));
      [reflexivity |].
    rewrite Hlabels. vm_compute. reflexivity.
Defined.

Module NoKeyFacts.



End NoKeyFacts.



(** X29. Why a job is refused at set-up. The reason shown beside the
    [error] status is "Error reading the selected file." when the reader
    fails, "Could not read file content." when it delivers nothing, the
    message of the first parser error whenever the parser reports any
    error, even if it also delivered rows, followed by " on row " and the
    row number of the error raised by 2, or by " on row NaN." for an error
    that carries no row, the message of the parser's own failure, and "CSV
    is empty or contains no valid data rows." when no row has a non-empty
    cell. In each case these two states are all the job publishes: no row
    is started. *)
Theorem batch_setup_reasons (w : World) (p : Panel) (parse : string -> ParseOutcome) :
  let refused read reason :=
    job_states w p parse (File read) = [parsing_state; setup_error reason] in
  refused TextError "Error reading the selected file."
  /\ refused (TextLoaded None) "Could not read file content."
  /\ refused (TextLoaded (Some "")) "Could not read file content."
  /\ (forall text message row others data,
        text <> "" ->
        parse text = Complete ({| pe_message := message; pe_row := Some row |} :: others)
                              data ->
        refused (TextLoaded (Some text))
                ("CSV Parse Error: " +:+ message +:+ " on row "
                   +:+ JS.string_of_Z (row + 2) +:+ "."))
  /\ (forall text message others data,
        text <> "" ->
        parse text = Complete ({| pe_message := message; pe_row := None |} :: others) data ->
        refused (TextLoaded (Some text))
                ("CSV Parse Error: " +:+ message +:+ " on row NaN."))
  /\ (forall text err,
        text <> "" -> parse text = ParseFailed err ->
        refused (TextLoaded (Some text)) ("CSV Parse Error: " +:+ pe_message err))
  /\ (forall text data,
        text <> "" -> parse text = Complete [] data ->
        Forall (fun row : Row => forall key cell, row !! key = Some cell -> cell = "") data ->
        refused (TextLoaded (Some text)) "CSV is empty or contains no valid data rows.").
Proof.
  intros refused. subst refused. cbv beta.
  unfold job_states, handleBatchFileUpload, on_parsed.
  split; [reflexivity |]. split; [reflexivity |]. split; [reflexivity |].
  assert (Htruthy : forall text, text <> "" -> JS.truthy (Some text) = true).
  { intros text Hne. simpl. destruct (String.eqb_spec text ""); [contradiction | reflexivity]. }
  split; [| split; [| split]].
  - intros text message row others data Hne Hparse.
    rewrite (Htruthy text Hne). cbn [JS.show]. rewrite Hparse. reflexivity.
  - intros text message others data Hne Hparse.
    rewrite (Htruthy text Hne). cbn [JS.show]. rewrite Hparse. reflexivity.
  - intros text err Hne Hparse.
    rewrite (Htruthy text Hne). cbn [JS.show]. rewrite Hparse. reflexivity.
  - intros text data Hne Hparse Hempty.
    rewrite (Htruthy text Hne). cbn [JS.show]. rewrite Hparse.
    assert (Hrows : usable_rows data = []).
    { unfold usable_rows. clear Hparse.
      induction Hempty as [| row data Hrow _ IH]; [reflexivity |].
      cbn [List.filter].
      assert (Hc : has_content row = false).
      { unfold has_content. apply not_true_is_false. intros Hex.
        apply existsb_exists in Hex as ([key cell] & Hin & Hcell).
        apply list_elem_of_In, elem_of_map_to_list in Hin.
        rewrite (Hrow key cell Hin) in Hcell. discriminate Hcell. }
      rewrite Hc. exact IH. }
    rewrite Hrows. reflexivity.
Qed.

(** What the parser reports on three sheets: a data line with a field too
    many, a sheet of one column, in which it finds no delimiter, and a
    sheet whose only data line holds empty cells. *)
Lemma batch_setup_reasons_witness :
  let too_many := "a,b" +:+ String "010" "1,2,3" in
  let one_column := "prompt" +:+ String "010" "a hut" in
  let parse := fun text : string =>
    if String.eqb text too_many then
      Complete [ {| pe_message := "Too many fields: expected 2 fields but parsed 3";
                    pe_row := Some 0 |} ]
               [<["a" := "1"]> (<["b" := "2"]> ∅)]
    else if String.eqb text one_column then
      Complete [ {| pe_message := "Unable to auto-detect delimiting character; defaulted to ','";
                    pe_row := None |} ]
               [<["prompt" := "a hut"]> ∅]
    else Complete [] [<["prompt" := ""]> (<["width" := ""]> ∅)] in
  job_states example_world (example_panel gemini 1) parse (File (TextLoaded (Some too_many)))
  = [parsing_state;
     setup_error "CSV Parse Error: Too many fields: expected 2 fields but parsed 3 on row 2."]
  /\ job_states example_world (example_panel gemini 1) parse
                (File (TextLoaded (Some one_column)))
     = [parsing_state;
        setup_error "CSV Parse Error: Unable to auto-detect delimiting character; defaulted to ',' on row NaN."]
  /\ job_states example_world (example_panel gemini 1) parse
                (File (TextLoaded (Some ("prompt,width" +:+ String "010" ","))))
     = [parsing_state; setup_error "CSV is empty or contains no valid data rows."].
Proof.
  intros too_many one_column parse.
  destruct (batch_setup_reasons example_world (example_panel gemini 1) parse)
    as (_ & _ & _ & Hrow & Hnorow & _ & Hempty).
  split; [| split].
  - apply (Hrow too_many "Too many fields: expected 2 fields but parsed 3" 0 []
                [<["a" := "1"]> (<["b" := "2"]> ∅)]); [discriminate | reflexivity].
  - apply (Hnorow one_column
                  "Unable to auto-detect delimiting character; defaulted to ','" []
                  [<["prompt" := "a hut"]> ∅]); [discriminate | reflexivity].
  - apply (Hempty ("prompt,width" +:+ String "010" ",")
                  [<["prompt" := ""]> (<["width" := ""]> ∅)]);
      [discriminate | reflexivity |].
    constructor; [| constructor].
    intros key cell Hlook.
    destruct (decide (key = "prompt")) as [-> | Hne].
    + rewrite lookup_insert in Hlook. injection Hlook as <-. reflexivity.
    + rewrite lookup_insert_ne in Hlook by congruence.
      destruct (decide (key = "width")) as [-> | Hne'].
      * rewrite lookup_insert in Hlook. injection Hlook as <-. reflexivity.
      * rewrite lookup_insert_ne in Hlook by congruence.
        rewrite lookup_empty in Hlook. discriminate Hlook.
Defined.

(** ** Header normalisation *)

Module HeaderFacts.

Ltac by_bits c :=
  destruct c as [[] [] [] [] [] [] [] []]; vm_compute; reflexivity.

Lemma lower_idem (c : ascii) : Str.lower_char (Str.lower_char c) = Str.lower_char c.
Proof. by_bits c. Qed.

Lemma white_lower (c : ascii) : Str.is_white (Str.lower_char c) = Str.is_white c.
Proof. by_bits c. Qed.

Lemma separator_lower (c : ascii) : is_separator (Str.lower_char c) = is_separator c.
Proof. by_bits c. Qed.

Lemma separator_white (c : ascii) : is_separator c = false -> Str.is_white c = false.
Proof. unfold is_separator. intros H. apply orb_false_iff in H as [H _]. exact H. Qed.

(** The characters of a string, as a list. *)
Lemma chars_cons (c : ascii) (s : string) :
  list_ascii_of_string (String c s) = c :: list_ascii_of_string s.
Proof. reflexivity. Qed.

Lemma runs_chars (s : string) :
  forall in_run c,
    c ∈ list_ascii_of_string (underscore_runs in_run s) ->
    is_separator c = false /\ (c = "_"%char \/ c ∈ list_ascii_of_string s).
Proof.
  induction s as [| x s IH]; intros in_run c Hc.
  - apply elem_of_nil in Hc. destruct Hc.
  - cbn [underscore_runs] in Hc. rewrite chars_cons.
    destruct (is_separator x) eqn:Hx.
    + destruct in_run.
      * destruct (IH true c Hc) as [H1 [H2 | H2]]; split; auto.
        right. apply list_elem_of_further. exact H2.
      * rewrite chars_cons in Hc. apply elem_of_cons in Hc as [-> | Hc].
        { split; [reflexivity | left; reflexivity]. }
        destruct (IH true c Hc) as [H1 [H2 | H2]]; split; auto.
        right. apply list_elem_of_further. exact H2.
    + rewrite chars_cons in Hc. apply elem_of_cons in Hc as [-> | Hc].
      { split; [exact Hx | right; apply list_elem_of_here]. }
      destruct (IH false c Hc) as [H1 [H2 | H2]]; split; auto.
      right. apply list_elem_of_further. exact H2.
Qed.

Lemma runs_none (s : string) :
  (forall c, c ∈ list_ascii_of_string s -> is_separator c = false) ->
  forall in_run, underscore_runs in_run s = s.
Proof.
  induction s as [| x s IH]; intros H in_run; [reflexivity |].
  cbn [underscore_runs]. rewrite (H x) by (rewrite chars_cons; apply list_elem_of_here).
  rewrite IH; [reflexivity |].
  intros c Hc. apply H. rewrite chars_cons. apply list_elem_of_further. exact Hc.
Qed.

Lemma lower_chars (s : string) (c : ascii) :
  c ∈ list_ascii_of_string (Str.toLowerCase s) -> Str.lower_char c = c.
Proof.
  induction s as [| x s IH]; intros Hc.
  - apply elem_of_nil in Hc. destruct Hc.
  - cbn [Str.toLowerCase] in Hc. rewrite chars_cons in Hc.
    apply elem_of_cons in Hc as [-> | Hc]; [apply lower_idem | apply IH; exact Hc].
Qed.

Lemma lower_fixed (s : string) :
  (forall c, c ∈ list_ascii_of_string s -> Str.lower_char c = c) -> Str.toLowerCase s = s.
Proof.
  induction s as [| x s IH]; intros H; [reflexivity |].
  cbn [Str.toLowerCase]. rewrite (H x) by (rewrite chars_cons; apply list_elem_of_here).
  rewrite IH; [reflexivity |].
  intros c Hc. apply H. rewrite chars_cons. apply list_elem_of_further. exact Hc.
Qed.

Lemma skip_white_fixed (l : list ascii) :
  (forall c, c ∈ l -> Str.is_white c = false) ->
  Str.skip_white (string_of_list_ascii l) = string_of_list_ascii l.
Proof.
  destruct l as [| x l]; intros H; [reflexivity |].
  cbn [string_of_list_ascii Str.skip_white]. rewrite (H x) by apply list_elem_of_here.
  reflexivity.
Qed.

Lemma trim_fixed (s : string) :
  (forall c, c ∈ list_ascii_of_string s -> Str.is_white c = false) -> Str.trim s = s.
Proof.
  intros H. unfold Str.trim.
  rewrite <- (string_of_list_ascii_of_string s) at 1.
  rewrite (skip_white_fixed _ H), string_of_list_ascii_of_string.
  unfold Str.reversed at 2. rewrite skip_white_fixed.
  - apply TrimFacts.reversed_involutive.
  - intros c Hc. apply H. apply list_elem_of_In. apply in_rev.
    apply list_elem_of_In. exact Hc.
Qed.

Lemma skip_white_lower (s : string) :
  Str.skip_white (Str.toLowerCase s) = Str.toLowerCase (Str.skip_white s).
Proof.
  induction s as [| x s IH]; [reflexivity |].
  cbn [Str.toLowerCase Str.skip_white]. rewrite white_lower.
  destruct (Str.is_white x); [exact IH | reflexivity].
Qed.

Lemma lower_as_map (l : list ascii) :
  Str.toLowerCase (string_of_list_ascii l) = string_of_list_ascii (map Str.lower_char l).
Proof.
  induction l as [| x l IH]; [reflexivity |].
  cbn [string_of_list_ascii Str.toLowerCase map]. rewrite IH. reflexivity.
Qed.

Lemma chars_lower (s : string) :
  list_ascii_of_string (Str.toLowerCase s) = map Str.lower_char (list_ascii_of_string s).
Proof.
  induction s as [| x s IH]; [reflexivity |].
  cbn [Str.toLowerCase]. rewrite !chars_cons, IH. reflexivity.
Qed.

Lemma reversed_lower (s : string) :
  Str.reversed (Str.toLowerCase s) = Str.toLowerCase (Str.reversed s).
Proof.
  unfold Str.reversed. rewrite lower_as_map, chars_lower, map_rev. reflexivity.
Qed.

Lemma trim_lower (s : string) :
  Str.trim (Str.toLowerCase s) = Str.toLowerCase (Str.trim s).
Proof.
  unfold Str.trim.
  rewrite skip_white_lower, reversed_lower, skip_white_lower, reversed_lower.
  reflexivity.
Qed.

Lemma lower_twice (s : string) :
  Str.toLowerCase (Str.toLowerCase s) = Str.toLowerCase s.
Proof.
  apply lower_fixed. intros c. apply lower_chars.
Qed.

End HeaderFacts.

(** X30. The column names the batch reads. A header is trimmed, lowered
    and every run of white space and hyphens in it becomes one underscore,
    so that the result holds no white space, no hyphen and no capital
    letter; normalising a normalised header changes nothing, and headers
    that differ only in the case of their letters name the same column. *)
Theorem transformHeader_normalises (header other : string) :
  (forall c, c ∈ list_ascii_of_string (transformHeader header) ->
     is_separator c = false /\ Str.lower_char c = c)
  /\ transformHeader (transformHeader header) = transformHeader header
  /\ (Str.toLowerCase header = Str.toLowerCase other ->
      transformHeader header = transformHeader other).
Proof.
  assert (Hchars : forall h c, c ∈ list_ascii_of_string (transformHeader h) ->
                     is_separator c = false /\ Str.lower_char c = c).
  { intros h c Hc. unfold transformHeader in Hc.
    destruct (HeaderFacts.runs_chars _ _ _ Hc) as [Hsep [-> | Hin]].
    - split; reflexivity.
    - split; [exact Hsep |]. apply (HeaderFacts.lower_chars _ _ Hin). }
  assert (Hcase : forall h, transformHeader (Str.toLowerCase h) = transformHeader h).
  { intros h. unfold transformHeader.
    rewrite HeaderFacts.trim_lower, HeaderFacts.lower_twice. reflexivity. }
  split; [apply Hchars |]. split.
  - unfold transformHeader at 1.
    rewrite HeaderFacts.trim_fixed
      by (intros c Hc; apply HeaderFacts.separator_white; apply (Hchars header c Hc)).
    rewrite HeaderFacts.lower_fixed by (intros c Hc; apply (Hchars header c Hc)).
    apply HeaderFacts.runs_none. intros c Hc. apply (Hchars header c Hc).
  - intros Hsame. rewrite <- (Hcase header), <- (Hcase other), Hsame. reflexivity.
Qed.

(** Two ways of heading the file-name column. *)
Lemma transformHeader_normalises_witness :
  transformHeader " Nama  File " = "nama_file"
  /\ transformHeader "NAMA-FILE" = transformHeader "nama-file"
  /\ transformHeader "nama-file" = "nama_file".
Proof.
  split; [vm_compute; reflexivity |]. split; [| vm_compute; reflexivity].
  apply (proj2 (proj2 (transformHeader_normalises "NAMA-FILE" "nama-file"))).
  vm_compute. reflexivity.
Defined.

(** ** Numbers in cells *)

(** A width cell that starts with a no-break space is a number all the
    same: the row is valid and the job ends in [done]. *)
Example no_break_space_before_a_number :
  let row : Row :=
    <["filename" := "hut"]> (<["width" := String "160" "32"]> (<["height" := "32"]>
      (<["prompt" := "a hut"]> ∅))) in
  row_width (read_row 0 row) = Some 32
  /\ row_invalid (read_row 0 row) = false
  /\ (status <$> last (job_states example_world (example_panel gemini 1) (parsed [row])
                                  example_upload)) = Some done.
Proof. repeat split; vm_compute; reflexivity. Qed.

(** Digits beyond 2^53 give the nearest double, as [parseInt] does. *)
Example parseInt_rounds :
  JS.parseInt (Some "9007199254740993") = Some 9007199254740992
  /\ JS.parseInt (Some " -12px") = Some (-12)
  /\ JS.parseInt (Some "px") = None.
Proof. repeat split; vm_compute; reflexivity. Qed.
